(** * GUISpector: the verification control loop and the display lease pool

    A shallow embedding of
    - [gui_spector/verfication/agent.py] (class [VerficationRunner]) and
    - [webapp/setups/resource_manager.py] (class [DisplayPool]),
    followed by the properties of the two subsystems.  Around them, parts
    of the code they call and of the code that calls them are embedded too:
    [gui_spector/computers/docker.py], [gui_spector/models/usage.py],
    [gui_spector/processor/requirements_processor.py],
    [gui_spector/evaluation/evaluation_run_app.py] and
    [webapp/setups/tasks.py].

    Conventions of the embedding.
    - Python values that come from JSON (model responses, output items, the
      decision) are values of [json]; a [dict] is an association list in
      insertion order with unique keys, read by [dict_get].
    - Text is modelled over ASCII: [is_space], [strip] and [lower] are
      Python's [str.isspace], [str.strip] and [str.lower] on code points
      below 128.
    - A Python call that may raise returns a [result]; methods of the runner
      are state transformers over the record [Runner] (the fields of [self]),
      and everything the runner does to the outside world (the GUI
      environment, the decision model, the file system, the acknowledgment
      callback) is appended to the [trace] of the runner in program order.
    - The Redis server used by [DisplayPool] is the record [Redis]; each
      command is a function on it, following the Redis command reference. *)

From Stdlib Require Import ZArith List Bool Ascii String Lia.
From stdpp Require Import base tactics option list strings gmap sorting pretty.

Set Warnings "-register-all".
Local Open Scope string_scope.
Local Open Scope list_scope.
Local Open Scope Z_scope.

(** ** Python values *)

Module Py.

(** A Python [float] read from JSON: the decimal [m * 10^e] of the literal,
    or one of the constants [NaN], [Infinity], [-Infinity] that [json.loads]
    accepts.  (Python rounds the decimal to a double; no property below
    depends on the rounding.) *)
Inductive pyfloat :=
| Dec (m e : Z)
| NaN
| Inf (negative : bool).

Inductive json :=
| JNull
| JBool (b : bool)
| JInt (z : Z)
| JFloat (f : pyfloat)
| JStr (s : string)
| JArr (xs : list json)
| JObj (kvs : list (string * json)).

Abbreviation dict := (list (string * json)).

(** The exceptions the modelled code can raise. *)
Inductive exn :=
| KeyError (key : string)
| IndexError
| TypeError
| AttributeError (name : string)
| ValueError (msg : string)
| JSONDecodeError (msg : string)
| MaximumReasoningStepsReachedException (max_reasoning_steps : Z)
| AcceptanceCriteriaMismatchException (missing extra : list string)
| TimeoutError (msg : string)
| ResponseError (msg : string).

(** Outcome of a call: a value, a raised exception, or [OutOfFuel] when the
    bound put on a [while] loop of the model is reached (an artefact of the
    embedding, never a Python outcome). *)
Inductive result (A : Type) :=
| Ok (a : A)
| Raise (e : exn)
| OutOfFuel.
Arguments Ok {A} a.
Arguments Raise {A} e.
Arguments OutOfFuel {A}.

(** [d.get(k)]: the value bound to [k], if any. *)
Fixpoint dict_get (k : string) (d : dict) : option json :=
  match d with
  | [] => None
  | (k', v) :: d' => if String.eqb k k' then Some v else dict_get k d'
  end.

(** [d[k] = v] on a dict: replace in place, or append a new key. *)
Fixpoint dict_set (k : string) (v : json) (d : dict) : dict :=
  match d with
  | [] => [(k, v)]
  | (k', v') :: d' =>
      if String.eqb k k' then (k, v) :: d' else (k', v') :: dict_set k v d'
  end.

(** [str.isspace] on ASCII: TAB, LF, VT, FF, CR, FS, GS, RS, US and space. *)
Definition is_space (c : ascii) : bool :=
  let n := nat_of_ascii c in
  ((9 <=? n)%nat && (n <=? 13)%nat) || ((28 <=? n)%nat && (n <=? 32)%nat).

Fixpoint lstrip (s : string) : string :=
  match s with
  | String c r => if is_space c then lstrip r else s
  | EmptyString => EmptyString
  end.

Fixpoint rstrip (s : string) : string :=
  match s with
  | String c r =>
      match rstrip r with
      | EmptyString => if is_space c then EmptyString else String c EmptyString
      | r' => String c r'
      end
  | EmptyString => EmptyString
  end.

(** [s.strip()] *)
Definition strip (s : string) : string := rstrip (lstrip s).

Definition lower_char (c : ascii) : ascii :=
  let n := nat_of_ascii c in
  if ((65 <=? n)%nat && (n <=? 90)%nat) then ascii_of_nat (n + 32) else c.

(** [s.lower()] *)
Fixpoint lower (s : string) : string :=
  match s with
  | String c r => String (lower_char c) (lower r)
  | EmptyString => EmptyString
  end.

(** [sep.join(parts)] *)
Fixpoint join (sep : string) (parts : list string) : string :=
  match parts with
  | [] => ""
  | [p] => p
  | p :: ps => p +:+ sep +:+ join sep ps
  end.

(** [str(z)] for an [int]. *)
Definition str_int (z : Z) : string := pretty z.

Definition str_float (f : pyfloat) : string :=
  match f with
  | Dec m e => str_int m +:+ "e" +:+ str_int e
  | NaN => "nan"
  | Inf false => "inf"
  | Inf true => "-inf"
  end.

(** [repr(v)].  Strings are quoted with single quotes without escaping and a
    float is printed in exponent form; Python differs on both, but always
    prints a float with a ".", an "e", "inf" or "nan" in it. *)
Fixpoint repr (v : json) : string :=
  match v with
  | JNull => "None"
  | JBool true => "True"
  | JBool false => "False"
  | JInt z => str_int z
  | JFloat f => str_float f
  | JStr s => "'" +:+ s +:+ "'"
  | JArr xs => "[" +:+ join ", " (map repr xs) +:+ "]"
  | JObj kvs =>
      "{" +:+ join ", " (map (fun kv => "'" +:+ fst kv +:+ "': " +:+ repr (snd kv)) kvs)
          +:+ "}"
  end.

(** [str(v)] *)
Definition str (v : json) : string :=
  match v with
  | JStr s => s
  | _ => repr v
  end.

(** [repr] of a list of [str]. *)
Definition repr_strs (l : list string) : string :=
  "[" +:+ join ", " (map (fun s => "'" +:+ s +:+ "'") l) +:+ "]".

(** Truth value of a Python object, as tested by [if v], [v or w], [not v]. *)
Definition truthy (v : json) : bool :=
  match v with
  | JNull => false
  | JBool b => b
  | JInt z => negb (z =? 0)
  | JFloat (Dec m _) => negb (m =? 0)
  | JFloat _ => true
  | JStr s => negb (String.eqb s "")
  | JArr xs => match xs with [] => false | _ => true end
  | JObj kvs => match kvs with [] => false | _ => true end
  end.

(** [v[k]] with a string key. *)
Definition getitem (v : json) (k : string) : result json :=
  match v with
  | JObj d => match dict_get k d with Some x => Ok x | None => Raise (KeyError k) end
  | _ => Raise TypeError
  end.

(** [v[0]] *)
Definition getitem0 (v : json) : result json :=
  match v with
  | JArr (x :: _) => Ok x
  | JArr [] => Raise IndexError
  | JStr (String c _) => Ok (JStr (String c EmptyString))
  | JStr EmptyString => Raise IndexError
  | JObj _ => Raise (KeyError "0")
  | _ => Raise TypeError
  end.

(** [d.get(k)] and [d.get(k, default)] on a dict; a missing key gives
    [None], which is [JNull]. *)
Definition getk (d : dict) (k : string) : json := default JNull (dict_get k d).
Definition get_default (d : dict) (k : string) (dflt : json) : json :=
  default dflt (dict_get k d).

(** [v.get(k)]: only a dict has the method. *)
Definition get (v : json) (k : string) : result json :=
  match v with
  | JObj d => Ok (getk d k)
  | _ => Raise (AttributeError "get")
  end.

Definition is_none (v : json) : bool :=
  match v with JNull => true | _ => false end.

Fixpoint is_prefix (p s : string) : bool :=
  match p, s with
  | EmptyString, _ => true
  | String a p', String b s' => Ascii.eqb a b && is_prefix p' s'
  | String _ _, EmptyString => false
  end.

(** [sub in s] on strings. *)
Fixpoint is_substring (sub s : string) : bool :=
  is_prefix sub s ||
  match s with
  | String _ s' => is_substring sub s'
  | EmptyString => false
  end.

Definition json_is_str (k : string) (v : json) : bool :=
  match v with
  | JStr s => String.eqb s k
  | _ => false
  end.

(** [k in v] for a string [k]: key of a dict, element of a list, substring of
    a string; other values are not containers. *)
Definition contains (k : string) (v : json) : result bool :=
  match v with
  | JObj d => Ok (match dict_get k d with Some _ => true | None => false end)
  | JArr xs => Ok (existsb (json_is_str k) xs)
  | JStr s => Ok (is_substring k s)
  | _ => Raise TypeError
  end.

Fixpoint chars (s : string) : list json :=
  match s with
  | String c r => JStr (String c EmptyString) :: chars r
  | EmptyString => []
  end.

(** The elements produced by iterating over [v] ([for x in v], [l += v]). *)
Definition iter (v : json) : result (list json) :=
  match v with
  | JArr xs => Ok xs
  | JObj d => Ok (map (fun kv => JStr (fst kv)) d)
  | JStr s => Ok (chars s)
  | _ => Raise TypeError
  end.

(** [v == "k"] *)
Definition eq_str (v : json) (k : string) : bool := json_is_str k v.

Fixpoint digits_value (acc : Z) (s : string) : option Z :=
  match s with
  | EmptyString => Some acc
  | String c r =>
      let n := nat_of_ascii c in
      if ((48 <=? n)%nat && (n <=? 57)%nat)
      then digits_value (10 * acc + Z.of_nat (n - 48)) r
      else None
  end.

(** [int(s)] for a string: optional sign and decimal digits, surrounding
    white space allowed (digit-group underscores are not modelled). *)
Definition int_of_string (s : string) : option Z :=
  match strip s with
  | String "-" (String c r) => option_map Z.opp (digits_value 0 (String c r))
  | String "+" (String c r) => digits_value 0 (String c r)
  | String c r => digits_value 0 (String c r)
  | EmptyString => None
  end.

(** [int(v)]; [None] when Python raises. *)
Definition int (v : json) : option Z :=
  match v with
  | JInt z => Some z
  | JBool b => Some (if b then 1 else 0)
  | JFloat (Dec m e) => Some (if 0 <=? e then m * 10 ^ e else Z.quot m (10 ^ (- e)))
  | JStr s => int_of_string s
  | _ => None
  end.

End Py.
Export Py.

(** ** The data model ([gui_spector/models]) *)

Module Usage.
Record t := mk {
  tokens_in : Z;
  tokens_out : Z;
  tokens_reasoning : Z;
  tokens_total : Z
}.

Definition add (self other : t) : t :=
  mk (tokens_in self + tokens_in other)
     (tokens_out self + tokens_out other)
     (tokens_reasoning self + tokens_reasoning other)
     (tokens_total self + tokens_total other).

Definition sum (usages : list t) : t :=
  fold_left add usages (mk 0 0 0 0).
End Usage.

Inductive ActionType :=
| CLICK | DOUBLE_CLICK | SCROLL | TYPE | KEYPRESS | MOVE | DRAG | WAIT.

Definition ActionType_value (a : ActionType) : string :=
  match a with
  | CLICK => "click" | DOUBLE_CLICK => "double_click" | SCROLL => "scroll"
  | TYPE => "type" | KEYPRESS => "keypress" | MOVE => "move" | DRAG => "drag"
  | WAIT => "wait"
  end.

(** [ActionType(v)]: the member whose value is [v]; [None] is [ValueError]. *)
Definition ActionType_of_value (v : json) : option ActionType :=
  match v with
  | JStr s =>
      List.find (fun a => String.eqb (ActionType_value a) s)
        [CLICK; DOUBLE_CLICK; SCROLL; TYPE; KEYPRESS; MOVE; DRAG; WAIT]
  | _ => None
  end.

Module ComputerAction.
Record t := mk {
  type : ActionType;
  params : dict;
  call_id : json;
  status : json;
  safety_checks : list json
}.
End ComputerAction.

(** Times are instants of the clock, in microseconds; [elapsed_s] is their
    difference.  The [id] fields filled by [uuid4()] are left out.  A Python
    [None] held in a JSON-valued field is [JNull]. *)
Module Interaction.
Record t := mk {
  turn_index : Z;
  started_at : Z;
  finished_at : Z;
  elapsed_s : Z;
  model_response_id : option string;
  reasoning_summary : json;
  message_text : json;
  screenshot_path : option string;
  usage : option Usage.t;
  action : option ComputerAction.t
}.

Definition create turn_index started_at finished_at elapsed_s model_response_id
    reasoning_summary message_text screenshot_path usage action : t :=
  mk turn_index started_at finished_at elapsed_s model_response_id
     reasoning_summary message_text screenshot_path usage action.
End Interaction.

Inductive AcceptanceState := AC_UNPROCESSED | AC_MET | AC_UNMET.

Module AcceptanceCriterion.
Record t := mk {
  name : string;
  text : string;
  state : AcceptanceState
}.
End AcceptanceCriterion.

(** The fields of a requirement that only feed the prompt ([source], [tags],
    [priority], [metadata]) are left out. *)
Module Requirements.
Record t := mk {
  id : string;
  title : string;
  description : string;
  acceptance_criteria : list AcceptanceCriterion.t
}.
End Requirements.

Inductive VerificationStatus := MET | UNMET | PARTIALLY_MET | ERROR.

Module VerficationRunResult.
Record t := mk {
  requirement : Requirements.t;
  requirement_id : string;
  status : VerificationStatus;
  started_at : Z;
  finished_at : Z;
  elapsed_s : Z;
  start_url : string;
  current_url : json;
  steps_taken : Z;
  run_dir : string;
  model_decision : json;
  error : option string;
  interactions : list Interaction.t;
  usage_total : option Usage.t
}.
End VerficationRunResult.

(** ** What the runner does to the outside world *)

Inductive event :=
| EvPrepareBrowser (url : string)
| EvCleanupBrowser
| EvCreateResponse (input : list json)
| EvFunctionCall (name : string) (args : dict)
| EvAction (action_type : string) (action_args : dict)
| EvScreenshot
| EvGetCurrentUrl
| EvAcknowledge (message : json) (answer : bool)
| EvWriteFile (path : string)
| EvProgress (step_counter : Z).

(** The GUI environment ([self.computer]).  [attrs] are the names for which
    [hasattr] holds; what the environment shows depends on what has been done
    to it so far.  A method that exists is assumed to return normally. *)
Record Computer := {
  attrs : list string;
  get_environment : string;
  screenshot : list event -> string;
  get_current_url : list event -> string
}.

Definition hasattr (c : Computer) (name : string) : bool :=
  existsb (String.eqb name) (attrs c).

(** What the runner takes from outside the sources: [json.loads] (a value,
    or the message of the [JSONDecodeError]), [utils.create_response] (the
    decision model: the response dict for a conversation, given what
    happened before), [utils.check_blocklisted_url] (the exception it raises,
    if any), [datetime.now] (the n-th reading of the clock), and the prompt:
    the template file is not among the sources, so the text that
    [_load_prompt_template] and [_render_prompt] make of it for a requirement
    and a start URL (the input hints included) is taken as given, as is the
    exception of a missing template. *)
Class Externals := {
  json_loads : string -> json + string;
  create_response : list event -> list json -> dict;
  check_blocklisted_url : string -> option exn;
  now : nat -> Z;
  render_prompt : Requirements.t -> string -> result string
}.

(** ** The runner ([gui_spector/verfication/agent.py]) *)

(** One entry of [self._response_extras]: what a turn recorded. *)
Module Extra.
Record t := mk {
  response_id : option string;
  usage : option Usage.t;
  reasoning_summary : json;
  message_text : json;
  action : option ComputerAction.t;
  screenshot_path : option string;
  started_at : Z;
  finished_at : Z;
  elapsed_s : Z
}.
End Extra.

(** The fields of [self], with the [trace] of effects and the number of
    clock readings so far.  [model], [tools] and [prompt_name] are fixed per
    runner and belong to [create_response] and [render_prompt];
    [_run_started_at] only feeds the cumulative run time written to the
    interaction files, whose contents are not modelled.  A Python [None]
    held in a JSON-valued field is [JNull]. *)
Record Runner := mkRunner {
  computer : Computer;
  acknowledge_safety_check_callback : json -> bool;
  run_dir : string;
  print_steps : bool;
  debug : bool;
  show_images : bool;
  step_counter : Z;
  _usages : list Usage.t;
  _last_response_id : option string;
  _last_action : option ComputerAction.t;
  _last_screenshot_path : option string;
  _responses : list dict;
  _response_extras : list Extra.t;
  trace : list event;
  clock_reads : nat
}.

(** [VerficationRunner(computer=..., acknowledge_safety_check_callback=...,
    run_dir=...)] *)
Definition new_runner (c : Computer) (cb : json -> bool) (dir : string) : Runner :=
  mkRunner c cb dir true false false 1 [] None None None [] [] [] 0.

Definition set_flags (ps dbg si : bool) (r : Runner) : Runner :=
  mkRunner (computer r) (acknowledge_safety_check_callback r) (run_dir r)
    ps dbg si (step_counter r) (_usages r) (_last_response_id r)
    (_last_action r) (_last_screenshot_path r) (_responses r)
    (_response_extras r) (trace r) (clock_reads r).

Definition set_step_counter (v : Z) (r : Runner) : Runner :=
  mkRunner (computer r) (acknowledge_safety_check_callback r) (run_dir r)
    (print_steps r) (debug r) (show_images r) v (_usages r)
    (_last_response_id r) (_last_action r) (_last_screenshot_path r)
    (_responses r) (_response_extras r) (trace r) (clock_reads r).

Definition set_usages (v : list Usage.t) (r : Runner) : Runner :=
  mkRunner (computer r) (acknowledge_safety_check_callback r) (run_dir r)
    (print_steps r) (debug r) (show_images r) (step_counter r) v
    (_last_response_id r) (_last_action r) (_last_screenshot_path r)
    (_responses r) (_response_extras r) (trace r) (clock_reads r).

Definition set_last_response_id (v : option string) (r : Runner) : Runner :=
  mkRunner (computer r) (acknowledge_safety_check_callback r) (run_dir r)
    (print_steps r) (debug r) (show_images r) (step_counter r) (_usages r)
    v (_last_action r) (_last_screenshot_path r)
    (_responses r) (_response_extras r) (trace r) (clock_reads r).

Definition set_last_action (v : option ComputerAction.t) (r : Runner) : Runner :=
  mkRunner (computer r) (acknowledge_safety_check_callback r) (run_dir r)
    (print_steps r) (debug r) (show_images r) (step_counter r) (_usages r)
    (_last_response_id r) v (_last_screenshot_path r)
    (_responses r) (_response_extras r) (trace r) (clock_reads r).

Definition set_last_screenshot_path (v : option string) (r : Runner) : Runner :=
  mkRunner (computer r) (acknowledge_safety_check_callback r) (run_dir r)
    (print_steps r) (debug r) (show_images r) (step_counter r) (_usages r)
    (_last_response_id r) (_last_action r) v
    (_responses r) (_response_extras r) (trace r) (clock_reads r).

Definition set_responses (v : list dict) (r : Runner) : Runner :=
  mkRunner (computer r) (acknowledge_safety_check_callback r) (run_dir r)
    (print_steps r) (debug r) (show_images r) (step_counter r) (_usages r)
    (_last_response_id r) (_last_action r) (_last_screenshot_path r)
    v (_response_extras r) (trace r) (clock_reads r).

Definition set_response_extras (v : list Extra.t) (r : Runner) : Runner :=
  mkRunner (computer r) (acknowledge_safety_check_callback r) (run_dir r)
    (print_steps r) (debug r) (show_images r) (step_counter r) (_usages r)
    (_last_response_id r) (_last_action r) (_last_screenshot_path r)
    (_responses r) v (trace r) (clock_reads r).

Definition set_trace (v : list event) (r : Runner) : Runner :=
  mkRunner (computer r) (acknowledge_safety_check_callback r) (run_dir r)
    (print_steps r) (debug r) (show_images r) (step_counter r) (_usages r)
    (_last_response_id r) (_last_action r) (_last_screenshot_path r)
    (_responses r) (_response_extras r) v (clock_reads r).

Definition set_clock_reads (v : nat) (r : Runner) : Runner :=
  mkRunner (computer r) (acknowledge_safety_check_callback r) (run_dir r)
    (print_steps r) (debug r) (show_images r) (step_counter r) (_usages r)
    (_last_response_id r) (_last_action r) (_last_screenshot_path r)
    (_responses r) (_response_extras r) (trace r) v.

(** *** Methods as state transformers *)

Definition M (A : Type) : Type := Runner -> result A * Runner.

Definition ret {A} (a : A) : M A := fun r => (Ok a, r).
Definition raise {A} (e : exn) : M A := fun r => (Raise e, r).
Definition out_of_fuel {A} : M A := fun r => (OutOfFuel, r).

Definition bind {A B} (m : M A) (k : A -> M B) : M B :=
  fun r =>
    match m r with
    | (Ok a, r') => k a r'
    | (Raise e, r') => (Raise e, r')
    | (OutOfFuel, r') => (OutOfFuel, r')
    end.

Declare Scope runner_scope.
Delimit Scope runner_scope with runner.
Notation "x <- m ;; k" := (bind m (fun x => k))
  (at level 100, m at next level, right associativity) : runner_scope.
Notation "m ;; k" := (bind m (fun _ => k))
  (at level 100, right associativity) : runner_scope.
Local Open Scope runner_scope.

Definition lift {A} (x : result A) : M A := fun r => (x, r).
Definition gets {A} (f : Runner -> A) : M A := fun r => (Ok (f r), r).
Definition modify (f : Runner -> Runner) : M unit := fun r => (Ok tt, f r).

(** An effect on the outside world. *)
Definition emit (e : event) : M unit :=
  modify (fun r => set_trace (trace r ++ [e]) r).

(** [self.step_counter += 1] *)
Definition incr_step_counter : M unit :=
  modify (fun r => set_step_counter (step_counter r + 1) r).

(** [f"{n:03d}"] for the non-negative step counter. *)
Definition pad3 (n : Z) : string :=
  let s := str_int n in
  match String.length s with
  | 0%nat => "000" | 1%nat => "00" +:+ s | 2%nat => "0" +:+ s | _ => s
  end.

Section Agent.
Context `{Externals}.

(** [json.loads(v)]: [TypeError] unless [v] is a string. *)
Definition loads (v : json) : result json :=
  match v with
  | JStr s =>
      match json_loads s with
      | inl parsed => Ok parsed
      | inr msg => Raise (JSONDecodeError msg)
      end
  | _ => Raise TypeError
  end.

(** [datetime.now(timezone.utc)] *)
Definition clock : M Z :=
  fun r => (Ok (now (clock_reads r)), set_clock_reads (S (clock_reads r)) r).

(** The loop over [pending_checks] in [handle_item]: each message goes to the
    acknowledgment callback; the first refusal raises. *)
Fixpoint acknowledge_all (checks : list json) : M unit :=
  match checks with
  | [] => ret tt
  | check :: rest =>
      message <- lift (getitem check "message") ;;
      cb <- gets acknowledge_safety_check_callback ;;
      emit (EvAcknowledge message (cb message)) ;;
      if cb message then acknowledge_all rest
      else raise (ValueError ("Safety check failed: " +:+ str message +:+
                  ". Cannot continue with unacknowledged safety checks."))
  end.

(** [[c.get("message", "") for c in pending_checks]] *)
Fixpoint safety_messages (checks : list json) : result (list json) :=
  match checks with
  | [] => Ok []
  | JObj d :: rest =>
      match safety_messages rest with
      | Ok ms => Ok (get_default d "message" (JStr "") :: ms)
      | other => other
      end
  | _ :: _ => Raise (AttributeError "get")
  end.

(** The branch [item["type"] == "message"] of [handle_item]. *)
Definition handle_message (item : json) : M unit :=
  ps <- gets print_steps ;;
  (if ps then
     content <- lift (getitem item "content") ;;
     first <- lift (getitem0 content) ;;
     _ <- lift (getitem first "text") ;;
     ret tt
   else ret tt) ;;
  incr_step_counter.

(** The branch [item["type"] == "function_call"]. *)
Definition handle_function_call (item : json) : M (list json) :=
  name <- lift (getitem item "name") ;;
  arguments <- lift (getitem item "arguments") ;;
  args <- lift (loads arguments) ;;
  incr_step_counter ;;
  c <- gets computer ;;
  match name with
  | JStr n =>
      if hasattr c n then
        match args with
        | JObj kwargs => emit (EvFunctionCall n kwargs)
        | _ => raise TypeError
        end
      else ret tt
  | _ => raise TypeError
  end ;;
  call_id <- lift (getitem item "call_id") ;;
  ret [JObj [("type", JStr "function_call_output");
             ("call_id", call_id);
             ("output", JStr "success")]].

(** The branch [item["type"] == "computer_call"]: the action is carried out
    and the screenshot taken and saved, then the pending safety checks are
    put to the callback, then the output item and [self._last_action] are
    built. *)
Definition handle_computer_call (item : json) : M (list json) :=
  action <- lift (getitem item "action") ;;
  action_type <- lift (getitem action "type") ;;
  let action_args :=
    match action with
    | JObj d => List.filter (fun kv => negb (String.eqb (fst kv) "type")) d
    | _ => []
    end in
  c <- gets computer ;;
  method <- match action_type with
            | JStr n => if hasattr c n then ret n else raise (AttributeError n)
            | _ => raise TypeError
            end ;;
  emit (EvAction method action_args) ;;
  history <- gets trace ;;
  let screenshot_base64 := screenshot c history in
  emit EvScreenshot ;;
  n <- gets step_counter ;;
  dir <- gets run_dir ;;
  let screenshot_filename := dir +:+ "/images/" +:+ pad3 n +:+ ".png" in
  emit (EvWriteFile screenshot_filename) ;;
  incr_step_counter ;;
  let pending_checks :=
    match item with
    | JObj d => get_default d "pending_safety_checks" (JArr [])
    | _ => JArr []
    end in
  checks <- lift (iter pending_checks) ;;
  acknowledge_all checks ;;
  call_id <- lift (getitem item "call_id") ;;
  let output :=
    [("type", JStr "input_image");
     ("image_url", JStr ("data:image/png;base64," +:+ screenshot_base64))] in
  output <- (if String.eqb (get_environment c) "browser" then
               emit EvGetCurrentUrl ;;
               history <- gets trace ;;
               let current_url := get_current_url c history in
               match check_blocklisted_url current_url with
               | Some e => raise e
               | None => ret (dict_set "current_url" (JStr current_url) output)
               end
             else ret output) ;;
  let call_output :=
    JObj [("type", JStr "computer_call_output");
          ("call_id", call_id);
          ("acknowledged_safety_checks", pending_checks);
          ("output", JObj output)] in
  let atype := default WAIT (ActionType_of_value action_type) in
  safety_msgs <- (if truthy pending_checks then lift (safety_messages checks)
                  else ret []) ;;
  item_call_id <- lift (get item "call_id") ;;
  item_status <- lift (get item "status") ;;
  modify (set_last_action
            (Some (ComputerAction.mk atype action_args item_call_id item_status
                     safety_msgs))) ;;
  modify (set_last_screenshot_path (Some screenshot_filename)) ;;
  ret [call_output].

(** [handle_item]: the three tests on [item["type"]], in order. *)
Definition handle_item (item : json) : M (list json) :=
  type <- lift (getitem item "type") ;;
  (if eq_str type "message" then handle_message item else ret tt) ;;
  if eq_str type "function_call" then handle_function_call item
  else if eq_str type "computer_call" then handle_computer_call item
  else ret [].

(** [for item in response["output"]: new_items += self.handle_item(item)] *)
Fixpoint handle_items (items : list json) : M (list json) :=
  match items with
  | [] => ret []
  | item :: rest =>
      out <- handle_item item ;;
      outs <- handle_items rest ;;
      ret (out ++ outs)
  end.

(** [Usage(tokens_in=int(u.get("input_tokens", 0)), ...)]; [None] when one of
    the conversions raises. *)
Definition usage_of_dict (u : dict) : option Usage.t :=
  tin ← int (get_default u "input_tokens" (JInt 0)) ;
  tout ← int (get_default u "output_tokens" (JInt 0)) ;
  treason ←
    (let details := get_default u "output_tokens_details" (JObj []) in
     match (if truthy details then details else JObj []) with
     | JObj d => int (get_default d "reasoning_tokens" (JInt 0))
     | _ => None
     end) ;
  ttotal ← int (get_default u "total_tokens" (JInt 0)) ;
  Some (Usage.mk tin tout treason ttotal).

(** The first [try] block of a turn: the usage is appended to
    [self._usages] and the response id remembered; an exception skips what
    is left of the block. *)
Definition record_usage_and_id (response : dict) (r : Runner) : Runner :=
  let with_id (r : Runner) :=
    match dict_get "id" response with
    | Some v => set_last_response_id (Some (str v)) r
    | None => r
    end in
  match getk response "usage" with
  | JObj u =>
      match usage_of_dict u with
      | Some usage => with_id (set_usages (_usages r ++ [usage]) r)
      | None => r
      end
  | _ => with_id r
  end.

(** The second [try] block: [usage_obj]. *)
Definition usage_obj_of (response : dict) : option Usage.t :=
  match getk response "usage" with
  | JObj u => usage_of_dict u
  | _ => None
  end.

(** The loop computing [reasoning_summary] and [message_text] from the
    output items; an exception ends the loop and keeps what was found. *)
Fixpoint scan_outputs (outs : list json) (reasoning_summary message_text : json)
  : json * json :=
  match outs with
  | [] => (reasoning_summary, message_text)
  | JObj out :: rest =>
      let ty := getk out "type" in
      let reasoning_summary :=
        if eq_str ty "reasoning" then
          match getk out "summary" with
          | JArr (JObj s0 :: _) => getk s0 "text"
          | _ => reasoning_summary
          end
        else reasoning_summary in
      if eq_str ty "message" then
        match get_default out "content" (JArr []) with
        | JArr (first :: _) =>
            match contains "text" first with
            | Ok true =>
                match getitem first "text" with
                | Ok t => scan_outputs rest reasoning_summary t
                | _ => (reasoning_summary, message_text)
                end
            | Ok false => scan_outputs rest reasoning_summary message_text
            | _ => (reasoning_summary, message_text)
            end
        | _ => scan_outputs rest reasoning_summary message_text
        end
      else scan_outputs rest reasoning_summary message_text
  | _ :: _ => (reasoning_summary, message_text)
  end.

(** The body of the [while] loop of [run_full_turn], up to the progress
    callback: one request to the decision model and the handling of its
    output items.  Returns the new value of [new_items].  What only prints
    ([print], [debug_print] with [sanitize_message], [show_image]) is left
    out, and so is an exception of the progress callback, which the loop
    swallows. *)
Definition one_turn (input_items new_items : list json) (progress_callback : bool)
  : M (list json) :=
  turn_started_at <- clock ;;
  history <- gets trace ;;
  let response := create_response history (input_items ++ new_items) in
  emit (EvCreateResponse (input_items ++ new_items)) ;;
  modify (record_usage_and_id response) ;;
  modify (set_last_action None) ;;
  modify (set_last_screenshot_path None) ;;
  let usage_obj := usage_obj_of response in
  modify (fun r => set_responses (_responses r ++ [response]) r) ;;
  dbg <- gets debug ;;
  if negb (bool_decide (is_Some (dict_get "output" response))) && dbg
  then raise (ValueError "No output from model")
  else
    n <- gets step_counter ;;
    dir <- gets run_dir ;;
    emit (EvWriteFile (dir +:+ "/responses/" +:+ pad3 n +:+ "_response.json")) ;;
    output <- lift (getitem (JObj response) "output") ;;
    outs <- lift (iter output) ;;
    handled <- handle_items outs ;;
    let new_items := new_items ++ outs ++ handled in
    let '(reasoning_summary, message_text) := scan_outputs outs JNull JNull in
    turn_finished_at <- clock ;;
    let turn_elapsed := turn_finished_at - turn_started_at in
    n <- gets step_counter ;;
    emit (EvWriteFile (dir +:+ "/interactions/" +:+ pad3 n +:+ "_interaction.json")) ;;
    modify (fun r =>
      set_response_extras
        (_response_extras r ++
           [Extra.mk (_last_response_id r) usage_obj reasoning_summary
              message_text (_last_action r) (_last_screenshot_path r)
              turn_started_at turn_finished_at turn_elapsed]) r) ;;
    (if progress_callback then emit (EvProgress n) else ret tt) ;;
    ret new_items.

(** The test of the [while] loop:
    [new_items[-1].get("role") != "assistant" if new_items else True]. *)
Definition keep_looping (new_items : list json) : result bool :=
  match last new_items with
  | None => Ok true
  | Some item =>
      match get item "role" with
      | Ok role => Ok (negb (eq_str role "assistant"))
      | Raise e => Raise e
      | OutOfFuel => OutOfFuel
      end
  end.

(** [isinstance(max_reasoning_steps, int) and max_reasoning_steps > 0 and
    turns_completed >= max_reasoning_steps] *)
Definition budget_reached (max_reasoning_steps : option Z) (turns_completed : Z)
  : option Z :=
  match max_reasoning_steps with
  | Some m => if (0 <? m) && (m <=? turns_completed) then Some m else None
  | None => None
  end.

(** The [while] loop of [run_full_turn]; [fuel] bounds the number of turns
    of the model. *)
Fixpoint turn_loop (fuel : nat) (input_items new_items : list json)
    (turns_completed : Z) (progress_callback : bool)
    (max_reasoning_steps : option Z) : M (list json) :=
  continue <- lift (keep_looping new_items) ;;
  if continue then
    match fuel with
    | O => out_of_fuel
    | S fuel' =>
        new_items <- one_turn input_items new_items progress_callback ;;
        let turns_completed := turns_completed + 1 in
        match budget_reached max_reasoning_steps turns_completed with
        | Some m => raise (MaximumReasoningStepsReachedException m)
        | None =>
            turn_loop fuel' input_items new_items turns_completed
              progress_callback max_reasoning_steps
        end
    end
  else ret new_items.

Definition run_full_turn (fuel : nat) (input_items : list json)
    (print_steps debug show_images progress_callback : bool)
    (max_reasoning_steps : option Z) : M (list json) :=
  modify (set_flags print_steps debug show_images) ;;
  turn_loop fuel input_items [] 0 progress_callback max_reasoning_steps.

(** *** Decision extraction *)

(** What [_extract_json] returns: a pair on two of its paths, a triple on
    the other two. *)
Inductive extract_ret :=
| Ret2 (parsed : json) (error : option string)
| Ret3 (parsed : json) (error : option string) (last : string).

(** [s] without its prefix [p], if [p] is a prefix of [s]. *)
Fixpoint strip_prefix (p s : string) : option string :=
  match p, s with
  | EmptyString, _ => Some s
  | String a p', String b s' => if Ascii.eqb a b then strip_prefix p' s' else None
  | String _ _, EmptyString => None
  end.

(** The text after the first occurrence of [pat] in [s]. *)
Fixpoint after_first (pat s : string) : option string :=
  match strip_prefix pat s with
  | Some r => Some r
  | None =>
      match s with
      | String _ r => after_first pat r
      | EmptyString => None
      end
  end.

(** The text before the first occurrence of [pat] in [s]. *)
Fixpoint before_first (pat s : string) : option string :=
  if is_prefix pat s then Some EmptyString
  else match s with
       | String c r => String c <$> before_first pat r
       | EmptyString => None
       end.

Definition fence : string := "```".

(** Group 1 of [re.search(r"```(?:json)?\s*([\s\S]*?)\s*```", text)]: the
    text between the first fence (with its optional [json] tag) and the next
    one, without the white space around it. *)
Definition fenced (text : string) : option string :=
  opened ← after_first fence text ;
  let opened := default opened (strip_prefix "json" opened) in
  body ← before_first fence (lstrip opened) ;
  Some (rstrip body).

Fixpoint from_first_open (s : string) : option string :=
  match s with
  | String c r => if Ascii.eqb c "{" then Some s else from_first_open r
  | EmptyString => None
  end.

Fixpoint upto_last_close (s : string) : option string :=
  match s with
  | String c r =>
      match upto_last_close r with
      | Some r' => Some (String c r')
      | None => if Ascii.eqb c "}" then Some (String c EmptyString) else None
      end
  | EmptyString => None
  end.

(** [re.findall(r"\{[\s\S]*\}", candidate)]: the greedy pattern matches at
    most once, from the first opening brace to the last closing one. *)
Definition json_like_of (candidate : string) : list string :=
  match from_first_open candidate ≫= upto_last_close with
  | Some m => [m]
  | None => []
  end.

(** The loop of [_extract_json] collecting [text_segments]. *)
Fixpoint text_segments_of (assistant_outputs : list json) : result (list json) :=
  match assistant_outputs with
  | [] => Ok []
  | item :: rest =>
      match get item "type" with
      | Ok ty =>
          let here : result (list json) :=
            if eq_str ty "message" then
              match item with
              | JObj d =>
                  match get_default d "content" (JArr []) with
                  | JArr (first :: _) =>
                      match contains "text" first with
                      | Ok true =>
                          match getitem first "text" with
                          | Ok t => Ok [t]
                          | Raise e => Raise e
                          | OutOfFuel => OutOfFuel
                          end
                      | Ok false => Ok []
                      | Raise e => Raise e
                      | OutOfFuel => OutOfFuel
                      end
                  | _ => Ok []
                  end
              | _ => Ok []
              end
            else Ok [] in
          match here with
          | Ok ts =>
              match text_segments_of rest with
              | Ok more => Ok (ts ++ more)
              | other => other
              end
          | other => other
          end
      | Raise e => Raise e
      | OutOfFuel => OutOfFuel
      end
  end.

(** The strings of a list of [str]; [None] if an element is not a [str]
    (then [str.join] raises [TypeError]). *)
Fixpoint strings_of (l : list json) : option (list string) :=
  match l with
  | [] => Some []
  | JStr s :: rest => cons s <$> strings_of rest
  | _ :: _ => None
  end.

Definition newline : string := String (ascii_of_nat 10) EmptyString.

Definition _extract_json (assistant_outputs : list json) : result extract_ret :=
  match text_segments_of assistant_outputs with
  | Ok [] => Ok (Ret2 JNull (Some "no_assistant_text"))
  | Ok text_segments =>
      match strings_of text_segments with
      | None => Raise TypeError
      | Some segments =>
          let full_text := join (newline +:+ newline) segments in
          let candidate := default full_text (fenced full_text) in
          let json_like := json_like_of candidate in
          match last json_like with
          | None => Ok (Ret2 JNull (Some "no_json_output"))
          | Some last =>
              match json_loads last with
              | inl parsed => Ok (Ret3 parsed None last)
              | inr e =>
                  Ok (Ret3 JNull
                        (Some ("json_parse_error: " +:+ e +:+ "; json_like="
                               +:+ repr_strs json_like))
                        last)
              end
          end
      end
  | Raise e => Raise e
  | OutOfFuel => OutOfFuel
  end.

(** [parsed_json, parse_error, last_json = self._extract_json(items)]: a pair
    cannot be unpacked into three names. *)
Definition unpack3 (t : extract_ret) : result (json * option string * string) :=
  match t with
  | Ret3 parsed error last => Ok (parsed, error, last)
  | Ret2 _ _ =>
      Raise (ValueError "not enough values to unpack (expected 3, got 2)")
  end.

(** *** Name validation *)

(** [sorted(s)] for a set of strings. *)
Definition sorted (s : gset string) : list string :=
  merge_sort String.le (elements s).

Definition expected_names (requirement : Requirements.t) : gset string :=
  list_to_set (map (fun c => strip (AcceptanceCriterion.name c))
                 (Requirements.acceptance_criteria requirement)).

(** The name an entry of [acceptance_criteria_results] reports: none when
    the entry has no [get] method, or no [criterion_name], or a null one. *)
Definition reported_name (item : json) : option string :=
  match item with
  | JObj d =>
      let name := getk d "criterion_name" in
      if is_none name then None else Some (strip (str name))
  | _ => None
  end.

Definition reported_names (results_list : json) : gset string :=
  match results_list with
  | JArr items => list_to_set (omap reported_name items)
  | _ => ∅
  end.

Definition _validate_acceptance_criteria_names (parsed_json : json)
    (requirement : Requirements.t) : result unit :=
  let expected_names := expected_names requirement in
  match get parsed_json "acceptance_criteria_results" with
  | Ok results_list =>
      let reported_names := reported_names results_list in
      if bool_decide (expected_names ≠ reported_names) then
        Raise (AcceptanceCriteriaMismatchException
                 (sorted (expected_names ∖ reported_names))
                 (sorted (reported_names ∖ expected_names)))
      else Ok tt
  | Raise e => Raise e
  | OutOfFuel => OutOfFuel
  end.

(** *** Status derivation *)

Definition met_words : list string := ["met"; "pass"; "true"; "yes"; "1"].
Definition unmet_words : list string := ["unmet"; "fail"; "false"; "no"; "0"].

Definition in_words (s : string) (words : list string) : bool :=
  existsb (String.eqb s) words.

(** One iteration of the loop over [results]: the new values of
    [(any_met, any_unmet)]. *)
Definition scan_result (flags : bool * bool) (item : json) : bool * bool :=
  let '(any_met, any_unmet) := flags in
  match item with
  | JObj d =>
      match getk d "met" with
      | JBool val => (any_met || val, any_unmet || negb val)
      | _ =>
          let status_raw := lower (strip (str (get_default d "status" (JStr "")))) in
          if in_words status_raw met_words then (true, any_unmet)
          else if in_words status_raw unmet_words then (any_met, true)
          else (any_met, any_unmet)
      end
  | _ => (any_met, any_unmet)
  end.

Definition _derive_status_from_acceptance (parsed_json : json) : VerificationStatus :=
  match parsed_json with
  | JObj d =>
      let results :=
        let v := getk d "acceptance_criteria_results" in
        if truthy v then v else JArr [] in
      match results with
      | JArr [] => ERROR
      | JArr results =>
          let '(any_met, any_unmet) := fold_left scan_result results (false, false) in
          if any_met && any_unmet then PARTIALLY_MET
          else if any_met && negb any_unmet then MET
          else if negb any_met && any_unmet then UNMET
          else UNMET
      | _ => ERROR
      end
  | _ => ERROR
  end.

(** *** The run *)

(** [enumerate(l)] *)
Definition enumerate {A} (l : list A) : list (nat * A) :=
  combine (seq 0 (length l)) l.

(** One iteration of the loop over [enumerate(self._response_extras)]; the
    state is [(interactions, turn_idx, prev_screenshot_path)]. *)
Definition interaction_step
    (st : list Interaction.t * Z * option string) (ie : nat * Extra.t)
  : list Interaction.t * Z * option string :=
  let '(interactions, turn_idx, prev_screenshot_path) := st in
  let '(idx, extra) := ie in
  if (idx =? 0)%nat then (interactions, turn_idx, Extra.screenshot_path extra)
  else
    (interactions ++
       [Interaction.create (turn_idx + 1) (Extra.started_at extra)
          (Extra.finished_at extra) (Extra.elapsed_s extra)
          (Extra.response_id extra) (Extra.reasoning_summary extra)
          (Extra.message_text extra) prev_screenshot_path
          (Extra.usage extra) (Extra.action extra)],
     turn_idx + 1,
     Extra.screenshot_path extra).

Definition build_interactions (extras : list Extra.t) : list Interaction.t :=
  (fold_left interaction_step (enumerate extras) ([], 0, None)).1.1.

Definition is_dict (v : json) : bool :=
  match v with JObj _ => true | _ => false end.

(** Truth value of an [Optional[str]]: neither [None] nor empty. *)
Definition str_truthy (v : option string) : bool :=
  match v with
  | Some e => negb (String.eqb e "")
  | None => false
  end.

(** The first part of [run], up to the call of [run_full_turn]: the start
    instant and the conversation that opens with the prompt. *)
Definition begin_run (requirement : Requirements.t) (start_url : string)
  : M (Z * list json) :=
  started_at <- clock ;;
  modify (set_usages []) ;;
  modify (set_last_response_id None) ;;
  modify (set_last_action None) ;;
  modify (set_last_screenshot_path None) ;;
  c <- gets computer ;;
  (if negb (String.eqb start_url "") && hasattr c "prepare_browser"
   then emit (EvPrepareBrowser start_url) else ret tt) ;;
  user_message <- lift (render_prompt requirement start_url) ;;
  ret (started_at, [JObj [("role", JStr "user"); ("content", JStr user_message)]]).

(** The last part of [run], from the return of [run_full_turn] on; [items]
    is the whole conversation. *)
Definition finish_run (requirement : Requirements.t) (start_url : string)
    (started_at : Z) (items : list json) : M VerficationRunResult.t :=
  c <- gets computer ;;
  (if hasattr c "cleanup_browser" then emit EvCleanupBrowser else ret tt) ;;
  finished_at <- clock ;;
  let elapsed_s := finished_at - started_at in
  extracted <- lift (_extract_json items) ;;
  unpacked <- lift (unpack3 extracted) ;;
  let '(parsed_json, parse_error, last_json) := unpacked in
  n <- gets step_counter ;;
  let steps_taken := n - 2 in
  extras <- gets _response_extras ;;
  let interactions := build_interactions extras in
  let '(status, current_url) :=
    if truthy parsed_json && is_dict parsed_json then
      (_derive_status_from_acceptance parsed_json,
       match parsed_json with
       | JObj d => let u := getk d "final_url" in if truthy u then u else JNull
       | _ => JNull
       end)
    else if str_truthy parse_error then (ERROR, JNull)
    else (UNMET, JNull) in
  (if truthy parsed_json
   then lift (_validate_acceptance_criteria_names parsed_json requirement)
   else ret tt) ;;
  dir <- gets run_dir ;;
  (if truthy parsed_json then emit (EvWriteFile (dir +:+ "/result/result.json"))
   else ret tt) ;;
  let parse_error :=
    if str_truthy parse_error
    then (fun e => e +:+ "last_json: " +:+ last_json) <$> parse_error
    else parse_error in
  usages <- gets _usages ;;
  ret (VerficationRunResult.mk requirement (Requirements.id requirement) status
         started_at finished_at elapsed_s start_url current_url steps_taken dir
         parsed_json parse_error interactions
         (match usages with [] => None | _ => Some (Usage.sum usages) end)).

Definition run (fuel : nat) (requirement : Requirements.t) (start_url : string)
    (print_steps show_images debug progress_callback : bool)
    (max_reasoning_steps : option Z) : M VerficationRunResult.t :=
  begun <- begin_run requirement start_url ;;
  let '(started_at, items) := begun in
  output_items <- run_full_turn fuel items print_steps debug show_images
                    progress_callback max_reasoning_steps ;;
  finish_run requirement start_url started_at (items ++ output_items).

(** [run_all]: the same runner runs the requirements one after the other. *)
Fixpoint run_all (fuel : nat) (requirements : list Requirements.t)
    (start_url : string) (print_steps show_images debug progress_callback : bool)
  : M (list VerficationRunResult.t) :=
  match requirements with
  | [] => ret []
  | req :: rest =>
      result <- run fuel req start_url print_steps show_images debug
                  progress_callback None ;;
      results <- run_all fuel rest start_url print_steps show_images debug
                   progress_callback ;;
      ret (result :: results)
  end.

End Agent.

(** How far the [while] loop gets in [k] turns: the items and the runner
    after the first [k] turns, provided the loop test lets each of them start
    (no assistant message is last before it) and each runs to its end. *)
Fixpoint turns `{Externals} (k : nat) (input_items new_items : list json)
    (progress_callback : bool) (r : Runner) : option (list json * Runner) :=
  match k with
  | O => Some (new_items, r)
  | S k' =>
      match keep_looping new_items with
      | Ok true =>
          match one_turn input_items new_items progress_callback r with
          | (Ok new_items', r') =>
              turns k' input_items new_items' progress_callback r'
          | _ => None
          end
      | _ => None
      end
  end.

(** ** [json.loads] on ASCII text

    A reader for the JSON grammar as Python's decoder accepts it: white space
    is space, TAB, LF and CR; a number is an [int] unless it has a fraction
    or an exponent; a repeated key keeps its first position and its last
    value; [NaN], [Infinity] and [-Infinity] are accepted.  The message of a
    decoding error carries no position, and a [\u] escape is read for code
    points below 128 only.  The properties of the runner hold for any
    [json_loads]; this one runs the examples. *)

Module JsonText.

Definition dquote : ascii := ascii_of_nat 34.
Definition backslash : ascii := ascii_of_nat 92.

Definition is_ws (c : ascii) : bool :=
  let n := nat_of_ascii c in
  (n =? 32)%nat || (n =? 9)%nat || (n =? 10)%nat || (n =? 13)%nat.

Fixpoint skip_ws (s : string) : string :=
  match s with
  | String c r => if is_ws c then skip_ws r else s
  | EmptyString => EmptyString
  end.

Definition is_digit (c : ascii) : bool :=
  let n := nat_of_ascii c in (48 <=? n)%nat && (n <=? 57)%nat.

Definition hex_value (c : ascii) : option nat :=
  let n := nat_of_ascii c in
  if (48 <=? n)%nat && (n <=? 57)%nat then Some (n - 48)%nat
  else if (97 <=? n)%nat && (n <=? 102)%nat then Some (n - 87)%nat
  else if (65 <=? n)%nat && (n <=? 70)%nat then Some (n - 55)%nat
  else None.

(** The body of a string literal, after its opening quote: the text and
    what follows the closing quote. *)
Fixpoint string_body (s : string) : option (string * string) :=
  match s with
  | EmptyString => None
  | String c r =>
      if Ascii.eqb c dquote then Some (EmptyString, r)
      else if Ascii.eqb c backslash then
        match r with
        | String e r' =>
            let simple (ch : ascii) :=
              '(text, rest) ← string_body r' ; Some (String ch text, rest) in
            if Ascii.eqb e dquote then simple dquote
            else if Ascii.eqb e backslash then simple backslash
            else
              match e with
              | "/"%char => simple "/"%char
              | "b"%char => simple (ascii_of_nat 8)
              | "f"%char => simple (ascii_of_nat 12)
              | "n"%char => simple (ascii_of_nat 10)
              | "r"%char => simple (ascii_of_nat 13)
              | "t"%char => simple (ascii_of_nat 9)
              | "u"%char =>
                  match r' with
                  | String h1 (String h2 (String h3 (String h4 r''))) =>
                      a ← hex_value h1 ; b ← hex_value h2 ;
                      c ← hex_value h3 ; d ← hex_value h4 ;
                      let code := (((a * 16 + b) * 16 + c) * 16 + d)%nat in
                      if (code <? 128)%nat then
                        '(text, rest) ← string_body r'' ;
                        Some (String (ascii_of_nat code) text, rest)
                      else None
                  | _ => None
                  end
              | _ => None
              end
        | EmptyString => None
        end
      else if (nat_of_ascii c <? 32)%nat then None
      else '(text, rest) ← string_body r ; Some (String c text, rest)
  end.

Fixpoint take_digits (s : string) : string * string :=
  match s with
  | String c r =>
      if is_digit c then let '(ds, rest) := take_digits r in (String c ds, rest)
      else (EmptyString, s)
  | EmptyString => (EmptyString, EmptyString)
  end.

Definition digits_Z (ds : string) : Z := default 0 (digits_value 0 ds).

(** A number at the head of [s], read as the decoder's pattern does: an
    optional minus sign, then a zero or a run of digits that does not start
    with a zero, then an optional fraction (a dot and at least one digit),
    then an optional exponent (e or E, an optional sign, at least one
    digit). *)
Definition number (s : string) : option (json * string) :=
  let '(negative, s1) :=
    match s with
    | String "-" r => (true, r)
    | _ => (false, s)
    end in
  let sign (z : Z) := if negative then - z else z in
  intpart ←
    match s1 with
    | String "0" r => Some ("0", r)
    | String c _ => if is_digit c then Some (take_digits s1) else None
    | EmptyString => None
    end ;
  let '(ints, rest) := intpart in
  let '(frac, rest) :=
    match rest with
    | String "." r =>
        let '(fs, rest') := take_digits r in
        match fs with
        | EmptyString => (None, rest)
        | _ => (Some fs, rest')
        end
    | _ => (None, rest)
    end in
  let '(expo, rest) :=
    match rest with
    | String c r =>
        if Ascii.eqb c "e" || Ascii.eqb c "E" then
          let '(eneg, r1) :=
            match r with
            | String "-" r1 => (true, r1)
            | String "+" r1 => (false, r1)
            | _ => (false, r)
            end in
          let '(es, rest') := take_digits r1 in
          match es with
          | EmptyString => (None, rest)
          | _ => (Some (if eneg then - digits_Z es else digits_Z es), rest')
          end
        else (None, rest)
    | EmptyString => (None, rest)
    end in
  match frac, expo with
  | None, None => Some (JInt (sign (digits_Z ints)), rest)
  | _, _ =>
      let fs := default EmptyString frac in
      Some (JFloat (Dec (sign (digits_Z (ints +:+ fs)))
                      (default 0 expo - Z.of_nat (String.length fs))),
            rest)
  end.

Fixpoint value (fuel : nat) (s : string) : option (json * string) :=
  match fuel with
  | O => None
  | S fuel =>
      match s with
      | String "{" r =>
          match skip_ws r with
          | String "}" rest => Some (JObj [], rest)
          | r => members fuel r []
          end
      | String "[" r =>
          match skip_ws r with
          | String "]" rest => Some (JArr [], rest)
          | r => elements fuel r []
          end
      | String c r =>
          if Ascii.eqb c dquote then
            '(text, rest) ← string_body r ; Some (JStr text, rest)
          else
            match strip_prefix "null" s, strip_prefix "true" s,
                  strip_prefix "false" s with
            | Some rest, _, _ => Some (JNull, rest)
            | _, Some rest, _ => Some (JBool true, rest)
            | _, _, Some rest => Some (JBool false, rest)
            | None, None, None =>
                match number s with
                | Some found => Some found
                | None =>
                    match strip_prefix "NaN" s, strip_prefix "Infinity" s,
                          strip_prefix "-Infinity" s with
                    | Some rest, _, _ => Some (JFloat NaN, rest)
                    | _, Some rest, _ => Some (JFloat (Inf false), rest)
                    | _, _, Some rest => Some (JFloat (Inf true), rest)
                    | None, None, None => None
                    end
                end
            end
      | EmptyString => None
      end
  end
with members (fuel : nat) (s : string) (acc : dict) : option (json * string) :=
  match fuel with
  | O => None
  | S fuel =>
      match s with
      | String c r =>
          if Ascii.eqb c dquote then
            '(key, r1) ← string_body r ;
            match skip_ws r1 with
            | String ":" r2 =>
                '(v, r3) ← value fuel (skip_ws r2) ;
                let acc := dict_set key v acc in
                match skip_ws r3 with
                | String "}" rest => Some (JObj acc, rest)
                | String "," r4 => members fuel (skip_ws r4) acc
                | _ => None
                end
            | _ => None
            end
          else None
      | EmptyString => None
      end
  end
with elements (fuel : nat) (s : string) (acc : list json) : option (json * string) :=
  match fuel with
  | O => None
  | S fuel =>
      '(v, r1) ← value fuel s ;
      let acc := acc ++ [v] in
      match skip_ws r1 with
      | String "]" rest => Some (JArr acc, rest)
      | String "," r2 => elements fuel (skip_ws r2) acc
      | _ => None
      end
  end.

Definition loads (s : string) : json + string :=
  match value (S (String.length s)) (skip_ws s) with
  | Some (v, rest) =>
      match skip_ws rest with
      | EmptyString => inl v
      | _ => inr "Extra data"
      end
  | None => inr "Expecting value"
  end.

End JsonText.

(** ** The Redis server, as [DisplayPool] uses it

    String keys hold a value and an optional expiry instant; list keys hold
    a list whose head is its left end.  [time] is the clock of the server, in
    seconds.  A string key whose expiry instant has passed is gone. *)

Record Redis := mkRedis {
  strings : gmap string (string * option Z);
  lists : gmap string (list string);
  time : Z
}.

Module RedisCmd.

Definition live (s : Redis) (key : string) : option string :=
  match strings s !! key with
  | Some (v, Some deadline) => if time s <? deadline then Some v else None
  | Some (v, None) => Some v
  | None => None
  end.

(** [EXISTS key] *)
Definition exists_ (s : Redis) (key : string) : bool :=
  bool_decide (is_Some (live s key)).

Definition set_string (key : string) (entry : string * option Z) (s : Redis) : Redis :=
  mkRedis (<[key := entry]> (strings s)) (lists s) (time s).

(** [SET key value NX]: [true] when the key was set. *)
Definition set_nx (key value : string) (s : Redis) : bool * Redis :=
  if exists_ s key then (false, s) else (true, set_string key (value, None) s).

(** [SET key value EX seconds]; the server refuses a non-positive expiry,
    with the message returned. *)
Definition set_ex (key value : string) (seconds : Z) (s : Redis)
  : option string * Redis :=
  if 0 <? seconds then (None, set_string key (value, Some (time s + seconds)) s)
  else (Some "invalid expire time in 'set' command", s).

(** [DEL key] *)
Definition del (key : string) (s : Redis) : Redis :=
  mkRedis (delete key (strings s)) (lists s) (time s).

(** [EXPIRE key seconds]: a live key gets a new expiry instant, and is
    deleted when the instant is not in the future. *)
Definition expire (key : string) (seconds : Z) (s : Redis) : Redis :=
  match live s key with
  | Some v =>
      if 0 <? seconds then set_string key (v, Some (time s + seconds)) s
      else del key s
  | None => s
  end.

Definition list_at (s : Redis) (key : string) : list string :=
  default [] (lists s !! key).

(** A list key with no element does not exist. *)
Definition set_list (key : string) (l : list string) (s : Redis) : Redis :=
  mkRedis (strings s)
    (match l with [] => delete key (lists s) | _ => <[key := l]> (lists s) end)
    (time s).

(** [RPUSH key value] and [LPUSH key value] *)
Definition rpush (key value : string) (s : Redis) : Redis :=
  set_list key (list_at s key ++ [value]) s.
Definition lpush (key value : string) (s : Redis) : Redis :=
  set_list key (value :: list_at s key) s.

Fixpoint remove_first (value : string) (l : list string) : list string :=
  match l with
  | [] => []
  | x :: l' => if String.eqb x value then l' else x :: remove_first value l'
  end.

Definition remove_all (value : string) (l : list string) : list string :=
  List.filter (fun x => negb (String.eqb x value)) l.

(** [LREM key 1 value] (the first occurrence from the head) and
    [LREM key 0 value] (all occurrences). *)
Definition lrem_1 (key value : string) (s : Redis) : Redis :=
  set_list key (remove_first value (list_at s key)) s.
Definition lrem_0 (key value : string) (s : Redis) : Redis :=
  set_list key (remove_all value (list_at s key)) s.

(** What a blocking command does for its caller when no other client acts:
    it returns a value, returns nil once its timeout has elapsed, or, with
    timeout 0, keeps the caller blocked. *)
Inductive blmove_reply :=
| Moved (value : string)
| Nil
| Blocked
| Refused (msg : string).

(** [BLMOVE source destination RIGHT LEFT timeout]: the tail of [source]
    becomes the head of [destination].  On an empty source the caller waits:
    for [timeout] seconds when it is positive, without limit when it is 0. *)
Definition blmove_right_left (source destination : string) (timeout : Z) (s : Redis)
  : blmove_reply * Redis :=
  if timeout <? 0 then (Refused "timeout is negative", s)
  else
    match List.rev (list_at s source) with
    | value :: before =>
        let s := set_list source (List.rev before) s in
        (Moved value, set_list destination (value :: list_at s destination) s)
    | [] =>
        if timeout =? 0 then (Blocked, s)
        else (Nil, mkRedis (strings s) (lists s) (time s + timeout))
    end.

(** Time passing on the server. *)
Definition elapse (seconds : Z) (s : Redis) : Redis :=
  mkRedis (strings s) (lists s) (time s + seconds).

End RedisCmd.

(** ** The display pool ([webapp/setups/resource_manager.py]) *)

Module DisplayPool.
Import RedisCmd.

(** The fields of [self] other than the connection. *)
Record t := mk {
  base : Z;
  size : Z;
  ns : string;
  lease_ttl : Z
}.

(** What a call does for its caller: it returns, raises, or never returns
    (the caller stays blocked in the server). *)
Inductive outcome (A : Type) :=
| Returns (a : A)
| Raises (e : exn)
| BlocksForever.
Arguments Returns {A} a.
Arguments Raises {A} e.
Arguments BlocksForever {A}.

Definition _key (self : t) (suffix : string) : string :=
  ns self +:+ ":" +:+ suffix.

(** [f":{self.base + i}"] *)
Definition display (self : t) (i : nat) : string :=
  ":" +:+ str_int (base self + Z.of_nat i).

(** [range(self.size)] *)
Definition indices (self : t) : list nat := seq 0 (Z.to_nat (size self)).

Definition seed_if_needed (self : t) (s : Redis) : Redis :=
  let init_key := _key self "initialized" in
  let '(did_set, s) := set_nx init_key "1" s in
  if negb did_set then s
  else fold_left (fun s i => rpush (_key self "free") (display self i) s)
         (indices self) s.

Definition acquire (self : t) (run_id : Z) (block_timeout : Z) (s : Redis)
  : outcome string * Redis :=
  let s := seed_if_needed self s in
  match blmove_right_left (_key self "free") (_key self "leased") block_timeout s with
  | (Moved disp, s) =>
      match set_ex (_key self ("lease:" +:+ disp)) (str_int run_id) (lease_ttl self) s with
      | (None, s) => (Returns disp, s)
      | (Some refusal, s) => (Raises (ResponseError refusal), s)
      end
  | (Nil, s) => (Raises (TimeoutError "No display available"), s)
  | (Blocked, s) => (BlocksForever, s)
  | (Refused msg, s) => (Raises (ResponseError msg), s)
  end.

(** [ttl = int(extend_seconds or self.lease_ttl)] *)
Definition heartbeat (self : t) (disp : string) (extend_seconds : option Z) (s : Redis)
  : Redis :=
  let ttl :=
    match extend_seconds with
    | Some e => if e =? 0 then lease_ttl self else e
    | None => lease_ttl self
    end in
  expire (_key self ("lease:" +:+ disp)) ttl s.

Definition release (self : t) (disp : string) (s : Redis) : Redis :=
  let s := lrem_1 (_key self "leased") disp s in
  let s := lpush (_key self "free") disp s in
  del (_key self ("lease:" +:+ disp)) s.

(** One iteration of the loop of [reap_expired]; the state is
    [(reclaimed, server)]. *)
Definition reap_step (self : t) (st : Z * Redis) (i : nat) : Z * Redis :=
  let '(reclaimed, s) := st in
  let disp := display self i in
  let key := _key self ("lease:" +:+ disp) in
  if negb (exists_ s key) then
    let s := lrem_0 (_key self "leased") disp s in
    let s := lrem_0 (_key self "free") disp s in
    let s := lpush (_key self "free") disp s in
    (reclaimed + 1, s)
  else (reclaimed, s).

Definition reap_expired (self : t) (s : Redis) : Z * Redis :=
  fold_left (reap_step self) (indices self) (0, s).

(** The lists of free and of leased displays. *)
Definition free (self : t) (s : Redis) : list string := list_at s (_key self "free").
Definition leased (self : t) (s : Redis) : list string := list_at s (_key self "leased").

(** [disp] has a live lease record. *)
Definition has_lease (self : t) (s : Redis) (disp : string) : bool :=
  exists_ s (_key self ("lease:" +:+ disp)).

End DisplayPool.

(** An empty server at time 0. *)
Definition fresh_redis : Redis := mkRedis ∅ ∅ 0.

(** ** A scripted outside world for the examples *)

Module Script.

(** The text of a JSON value (strings are written without escapes, which
    the examples do not need). *)
Fixpoint dumps (v : json) : string :=
  let quoted (s : string) :=
    String JsonText.dquote s +:+ String JsonText.dquote EmptyString in
  match v with
  | JNull => "null"
  | JBool true => "true"
  | JBool false => "false"
  | JInt z => str_int z
  | JFloat f => str_float f
  | JStr s => quoted s
  | JArr xs => "[" +:+ join ", " (map dumps xs) +:+ "]"
  | JObj kvs =>
      "{" +:+ join ", " (map (fun kv => quoted (fst kv) +:+ ": " +:+ dumps (snd kv)) kvs)
          +:+ "}"
  end.

Definition is_request (e : event) : bool :=
  match e with EvCreateResponse _ => true | _ => false end.

(** The decision model answers its n-th request with the n-th response of
    the script, and with an empty dict once the script is over.  No URL is
    blocked, the clock advances by one at each reading, and the prompt is
    the title and the URL. *)
Definition world (responses : list dict) : Externals := {|
  json_loads := JsonText.loads;
  create_response history _ :=
    nth (length (List.filter is_request history)) responses [];
  check_blocklisted_url _ := None;
  now n := Z.of_nat n;
  render_prompt requirement start_url :=
    Ok (Requirements.title requirement +:+ " at " +:+ start_url)
|}.

(** A desktop environment with the eight actions. *)
Definition desktop : Computer := {|
  attrs := ["click"; "double_click"; "scroll"; "type"; "keypress"; "move";
            "drag"; "wait"; "screenshot"; "get_environment"; "get_dimensions"];
  get_environment := "linux";
  screenshot history := "png" +:+ str_int (Z.of_nat (length history));
  get_current_url _ := "about:blank"
|}.

Definition accept_all (message : json) : bool := true.
Definition refuse_all (message : json) : bool := false.

(** An assistant message with one text part. *)
Definition message (text : string) : json :=
  JObj [("type", JStr "message"); ("role", JStr "assistant");
        ("content", JArr [JObj [("type", JStr "output_text"); ("text", JStr text)]])].

(** A click requested by the model, with its pending safety checks. *)
Definition click (call_id : string) (checks : list string) : json :=
  JObj [("type", JStr "computer_call"); ("call_id", JStr call_id);
        ("action", JObj [("type", JStr "click"); ("x", JInt 10); ("y", JInt 20);
                         ("button", JStr "left")]);
        ("pending_safety_checks",
         JArr (map (fun m => JObj [("id", JStr "sc"); ("code", JStr "malicious_instructions");
                                   ("message", JStr m)]) checks));
        ("status", JStr "completed")].

Definition response (id : string) (output : list json) : dict :=
  [("id", JStr id);
   ("output", JArr output);
   ("usage", JObj [("input_tokens", JInt 100); ("output_tokens", JInt 20);
                   ("output_tokens_details", JObj [("reasoning_tokens", JInt 5)]);
                   ("total_tokens", JInt 120)])].

(** The entry of [acceptance_criteria_results] for a criterion. *)
Definition verdict (name : string) (met : bool) : json :=
  JObj [("criterion_name", JStr name); ("met", JBool met)].

Definition decision (results : list json) : json :=
  JObj [("status", JStr "met"); ("acceptance_criteria_results", JArr results)].

Definition requirement (names : list string) : Requirements.t :=
  Requirements.mk "req-1" "Sorting" "Products can be sorted by price"
    (map (fun n => AcceptanceCriterion.mk n "text" AC_UNPROCESSED) names).

Definition runner (cb : json -> bool) : Runner := new_runner desktop cb "runs/001".

End Script.

(** ** Vocabulary of the properties *)

(** How the loop of [_derive_status_from_acceptance] reads the [status] of
    an entry. *)
Definition status_raw (d : dict) : string :=
  lower (strip (str (get_default d "status" (JStr "")))).

(** The verdict an entry of [acceptance_criteria_results] carries: its
    boolean [met], or else its status word; none for an entry that is not a
    dict or carries neither. *)
Definition verdict_of (item : json) : option bool :=
  match item with
  | JObj d =>
      match getk d "met" with
      | JBool b => Some b
      | _ =>
          if in_words (status_raw d) met_words then Some true
          else if in_words (status_raw d) unmet_words then Some false
          else None
      end
  | _ => None
  end.

Definition is_met (item : json) : bool := bool_decide (verdict_of item = Some true).
Definition is_unmet (item : json) : bool := bool_decide (verdict_of item = Some false).

(** An entry that is recognized neither as met nor as unmet: it is not a
    dict, or it has no boolean [met] and its status word is in neither
    list. *)
Definition unrecognized (item : json) : Prop :=
  match item with
  | JObj d =>
      (forall b, getk d "met" <> JBool b) /\
      ~ In (status_raw d) met_words /\ ~ In (status_raw d) unmet_words
  | _ => True
  end.

(** The names a decision reports and the names it should report. *)
Definition reported_by (decision : dict) : gset string :=
  reported_names (getk decision "acceptance_criteria_results").

(** The record [finish_run] builds. *)
Definition result_record (requirement : Requirements.t) (start_url : string)
    (started_at finished_at : Z) (r : Runner) (status : VerificationStatus)
    (current_url parsed_json : json) (error : option string)
  : VerficationRunResult.t :=
  VerficationRunResult.mk requirement (Requirements.id requirement) status
    started_at finished_at (finished_at - started_at) start_url current_url
    (step_counter r - 2) (run_dir r) parsed_json error
    (build_interactions (_response_extras r))
    (match _usages r with [] => None | _ => Some (Usage.sum (_usages r)) end).

(** The runner when [finish_run] reads the decision: the browser has been
    cleaned up and the clock read. *)
Definition after_cleanup (r : Runner) : Runner :=
  let r := if hasattr (computer r) "cleanup_browser"
           then set_trace (trace r ++ [EvCleanupBrowser]) r else r in
  set_clock_reads (S (clock_reads r)) r.

Definition finished_at_of `{Externals} (r : Runner) : Z := now (clock_reads r).

Definition is_acknowledge (e : event) : bool :=
  match e with EvAcknowledge _ _ => true | _ => false end.

Definition is_action (e : event) : bool :=
  match e with EvAction _ _ => true | _ => false end.

(** Every acknowledgment in [events] comes before every action in it. *)
Definition acknowledged_before_action (events : list event) : Prop :=
  forall i j a b,
    events !! i = Some a -> is_acknowledge a = true ->
    events !! j = Some b -> is_action b = true ->
    (i < j)%nat.

(** Every action in [events] comes before every acknowledgment in it. *)
Definition action_before_acknowledgment (events : list event) : Prop :=
  forall i j a b,
    events !! i = Some a -> is_action a = true ->
    events !! j = Some b -> is_acknowledge b = true ->
    (i < j)%nat.

(** The status and the URL [finish_run] computes from what
    [_extract_json] returned, and the error string it stores. *)
Definition status_of (parsed_json : json) (parse_error : option string)
  : VerificationStatus :=
  if truthy parsed_json && is_dict parsed_json
  then _derive_status_from_acceptance parsed_json
  else if str_truthy parse_error then ERROR else UNMET.

Definition current_url_of (parsed_json : json) : json :=
  match parsed_json with
  | JObj d =>
      if truthy parsed_json
      then (let u := getk d "final_url" in if truthy u then u else JNull)
      else JNull
  | _ => JNull
  end.

Definition error_of (parse_error : option string) (last_json : string)
  : option string :=
  if str_truthy parse_error
  then (fun e => e +:+ "last_json: " +:+ last_json) <$> parse_error
  else parse_error.

(** The criterion names a decision carries, as they stand in the JSON, and
    the names of the requirement (for stating name validation without the
    normalisation the code applies). *)
Definition criterion_name_values (decision : dict) : list json :=
  match getk decision "acceptance_criteria_results" with
  | JArr items =>
      omap (fun item => match item with
                        | JObj e => dict_get "criterion_name" e
                        | _ => None
                        end) items
  | _ => []
  end.

Definition requirement_names (requirement : Requirements.t) : list json :=
  map (fun c => JStr (AcceptanceCriterion.name c))
    (Requirements.acceptance_criteria requirement).

Definition same_set {A} (l1 l2 : list A) : Prop := forall x, x ∈ l1 <-> x ∈ l2.

(** ** Example runs *)

Module Examples.
Import Script.

(** The model ends its first turn with an empty decision object. *)
Definition empty_decision_world : Externals :=
  world [response "resp_1" [message "{}"]].

(** The model ends its first turn with prose and no JSON. *)
Definition prose_world : Externals :=
  world [response "resp_1" [message "I could not complete the task."]].

(** The model ends its first turn with a message that has a refusal and no
    text. *)
Definition refusal : json :=
  JObj [("type", JStr "message"); ("role", JStr "assistant");
        ("content", JArr [JObj [("type", JStr "refusal"); ("refusal", JStr "no")]])].
Definition refusal_world : Externals := world [response "resp_1" [refusal]].

(** The model ends its first turn with JSON that does not parse. *)
Definition malformed_world : Externals :=
  world [response "resp_1" [message "{status: met}"]].

(** The model clicks once, then reports on [AC-1] only. *)
Definition ac1_decision : dict :=
  [("status", JStr "met");
   ("acceptance_criteria_results", JArr [verdict "AC-1" true])].
Definition ac1_world : Externals :=
  world [response "resp_1" [click "call_1" []];
         response "resp_2" [message (dumps (JObj ac1_decision))]].

(** The model reports on a criterion it names with a trailing space. *)
Definition padded_decision : dict :=
  [("acceptance_criteria_results", JArr [verdict "AC-1 " true])].
Definition padded_world : Externals :=
  world [response "resp_1" [message (dumps (JObj padded_decision))]].

(** The model clicks for ever. *)
Definition clicking_world : Externals :=
  world [response "resp_1" [click "call_1" []];
         response "resp_2" [click "call_2" []];
         response "resp_3" [click "call_3" []]].

(** The model asks for one click that carries two pending safety checks. *)
Definition guarded_click : json :=
  click "call_1" ["The page asks for a password"; "Unknown site"].
Definition guarded_world : Externals :=
  world [response "resp_1" [guarded_click];
         response "resp_2" [message (dumps (JObj ac1_decision))]].

(** Two requirements verified by the same runner ([run_all]); the model
    answers the first with a click and then a message, and the second with
    one message. *)
Definition two_runs_world : Externals :=
  world [response "resp_1" [click "call_1" []];
         response "resp_2" [message (dumps (JObj ac1_decision))];
         response "resp_3" [message (dumps (JObj ac1_decision))]].

(** The default pool of the web application, with three displays. *)
Definition pool3 : DisplayPool.t := DisplayPool.mk 99 3 "displays" 120.
Definition pool1 : DisplayPool.t := DisplayPool.mk 99 1 "displays" 120.

End Examples.

(** [m] leaves the field [f] of the runner as it is. *)
Definition keeps {A B} (f : Runner -> B) (m : M A) : Prop :=
  forall r, f (m r).2 = f r.

(** The acknowledgments asked of the callback [cb] for the pending checks:
    one per message, in order, up to and including the first refusal (or up
    to a check without a message). *)
Fixpoint acknowledgments (cb : json -> bool) (checks : list json) : list event :=
  match checks with
  | [] => []
  | check :: rest =>
      match getitem check "message" with
      | Ok message =>
          EvAcknowledge message (cb message) ::
          (if cb message then acknowledgments cb rest else [])
      | _ => []
      end
  end.

(** The pending safety checks of a [computer_call] item. *)
Definition pending_checks_of (item : json) : list json :=
  match item with
  | JObj d =>
      match iter (get_default d "pending_safety_checks" (JArr [])) with
      | Ok checks => checks
      | _ => []
      end
  | _ => []
  end.

(** The interactions built from the turns that follow a first one:
    [turn_idx] interactions exist already and [prev] is the screenshot of
    the turn before. *)
Fixpoint interactions_from (turn_idx : Z) (prev : option string)
    (extras : list Extra.t) : list Interaction.t :=
  match extras with
  | [] => []
  | extra :: rest =>
      Interaction.create (turn_idx + 1) (Extra.started_at extra)
        (Extra.finished_at extra) (Extra.elapsed_s extra)
        (Extra.response_id extra) (Extra.reasoning_summary extra)
        (Extra.message_text extra) prev (Extra.usage extra) (Extra.action extra)
      :: interactions_from (turn_idx + 1) (Extra.screenshot_path extra) rest
  end.

(** The displays among [idxs] that have no live lease record. *)
Definition without_lease (self : DisplayPool.t) (s : Redis) (idxs : list nat)
  : list nat :=
  List.filter
    (fun i => negb (DisplayPool.has_lease self s (DisplayPool.display self i))) idxs.

(** ** The display pool in use *)

(** The displays of a pool, in the order of [range(self.size)]. *)
Definition displays (self : DisplayPool.t) : list string :=
  map (DisplayPool.display self) (DisplayPool.indices self).

(** Consecutive calls [acquire(run_id, block_timeout=0)], one per run
    identifier, as [run_verification_task] makes them. *)
Fixpoint acquire_each (self : DisplayPool.t) (run_ids : list Z) (s : Redis)
  : list (DisplayPool.outcome string) * Redis :=
  match run_ids with
  | [] => ([], s)
  | run_id :: rest =>
      let '(o, s) := DisplayPool.acquire self run_id 0 s in
      let '(os, s) := acquire_each self rest s in
      (o :: os, s)
  end.

(** The two commands [acquire] sends to the server, after seeding: the
    [BLMOVE], and the [SET] of the lease record of the display that was
    moved.  The server executes each command atomically and may serve other
    clients between the two. *)
Definition acquire_move (self : DisplayPool.t) (block_timeout : Z) (s : Redis)
  : RedisCmd.blmove_reply * Redis :=
  RedisCmd.blmove_right_left (DisplayPool._key self "free")
    (DisplayPool._key self "leased") block_timeout
    (DisplayPool.seed_if_needed self s).

Definition acquire_lease (self : DisplayPool.t) (run_id : Z) (disp : string)
    (s : Redis) : option string * Redis :=
  RedisCmd.set_ex (DisplayPool._key self ("lease:" +:+ disp)) (str_int run_id)
    (DisplayPool.lease_ttl self) s.

(** The displays of the pool that have no live lease record. *)
Definition unleased (self : DisplayPool.t) (s : Redis) : list string :=
  map (DisplayPool.display self) (without_lease self s (DisplayPool.indices self)).

(** [l] without the elements of [gone]. *)
Definition without (gone l : list string) : list string :=
  List.filter (fun x => negb (bool_decide (x ∈ gone))) l.

(** The server once the displays [gone] have been reclaimed: they head the
    free list, last reclaimed first, and are in neither list elsewhere. *)
Definition reclaimed (self : DisplayPool.t) (gone : list string) (s : Redis) : Redis :=
  match gone with
  | [] => s
  | _ =>
      RedisCmd.set_list (DisplayPool._key self "free")
        (rev gone ++ without gone (DisplayPool.free self s))
        (RedisCmd.set_list (DisplayPool._key self "leased")
           (without gone (DisplayPool.leased self s)) s)
  end.

(** ** The runner: what a run adds up *)

(** The items [handle_item] counts as a step: messages, function calls and
    computer calls. *)
Definition is_step (item : json) : bool :=
  match getitem item "type" with
  | Ok type =>
      eq_str type "message" || eq_str type "function_call"
      || eq_str type "computer_call"
  | _ => false
  end.

(** The output items of a response. *)
Definition outputs_of (response : dict) : list json :=
  match dict_get "output" response with
  | Some output => match iter output with Ok outs => outs | _ => [] end
  | None => []
  end.

(** The number of steps in the output items of [responses]. *)
Definition steps_of (responses : list dict) : Z :=
  Z.of_nat (length (List.filter is_step (concat (map outputs_of responses)))).

(** [m], when it returns, has advanced the step counter by [n]. *)
Definition advances {A} (n : Z) (m : M A) : Prop :=
  forall r a r', m r = (Ok a, r') -> step_counter r' = step_counter r + n.

(** ** Decision extraction: the text read *)

(** [c in s] for a character. *)
Fixpoint has_char (c : ascii) (s : string) : bool :=
  match s with
  | String x r => Ascii.eqb x c || has_char c r
  | EmptyString => false
  end.

(** What [_extract_json] returns once it has its [candidate] text. *)
Definition read_candidate `{Externals} (candidate : string) : extract_ret :=
  let json_like := json_like_of candidate in
  match last json_like with
  | None => Ret2 JNull (Some "no_json_output")
  | Some last =>
      match json_loads last with
      | inl parsed => Ret3 parsed None last
      | inr e =>
          Ret3 JNull
            (Some ("json_parse_error: " +:+ e +:+ "; json_like="
                   +:+ repr_strs json_like))
            last
      end
  end.

(** The text of the messages among [items], as [_extract_json] joins it;
    none when no message has text, or when a text is not a [str]. *)
Definition full_text_of (items : list json) : option string :=
  match text_segments_of items with
  | Ok (segment :: segments) =>
      join (newline +:+ newline) <$> strings_of (segment :: segments)
  | _ => None
  end.


(** ** Constructing runners: the list of tools

    The parameter [tools] of [VerficationRunner.__init__] has the default
    [[]]: one list, created when the [def] is executed, and bound to the
    parameter in every call that passes no [tools].  [self.tools = tools]
    binds the field to the list passed, and [self.tools += [...]] extends
    that list in place.  The lists of the program are kept in a heap, by
    address. *)

Module Init.

Abbreviation heap := (gmap nat (list json)).

(** The address of the default of [tools]. *)
Definition default_tools : nat := 0%nat.

Definition list_at (h : heap) (address : nat) : list json :=
  default [] (h !! address).

(** The entry [__init__] appends for a computer of the given dimensions. *)
Definition computer_tool (c : Computer) (dimensions : Z * Z) : json :=
  JObj [("type", JStr "computer-preview");
        ("display_width", JInt dimensions.1);
        ("display_height", JInt dimensions.2);
        ("environment", JStr (get_environment c))].

(** The statements of [__init__] on [self.tools], for the [tools] passed (an
    address, or nothing) and the [computer] passed (with what its
    [get_dimensions] returns, or [None]): the address bound to [self.tools],
    and the heap afterwards. *)
Definition init_tools (tools : option nat) (computer : option (Computer * (Z * Z)))
    (h : heap) : nat * heap :=
  let self_tools := default default_tools tools in
  match computer with
  | Some (c, dimensions) =>
      (self_tools,
       <[self_tools := list_at h self_tools ++ [computer_tool c dimensions]]> h)
  | None => (self_tools, h)
  end.

(** Runners constructed one after the other with
    [VerficationRunner(computer=computer, ...)], no [tools] passed: the
    addresses bound to their [self.tools], and the heap afterwards. *)
Fixpoint construct (computers : list (Computer * (Z * Z))) (h : heap)
  : list nat * heap :=
  match computers with
  | [] => ([], h)
  | computer :: rest =>
      let '(self_tools, h) := init_tools None (Some computer) h in
      let '(others, h) := construct rest h in
      (self_tools :: others, h)
  end.

End Init.


(** ** Batches of requirements
    ([gui_spector/evaluation/evaluation_run_app.py]) *)

Module Evaluation.

(** [range(start, total, step)] for a positive [step]; [fuel] bounds the
    number of elements, and [total] is enough of it. *)
Fixpoint range_from (fuel start total step : nat) : list nat :=
  match fuel with
  | O => []
  | S fuel' =>
      if (start <? total)%nat
      then start :: range_from fuel' (start + step) total step
      else []
  end.

(** [l[start:end]] with [0 <= start <= end] *)
Definition slice {A} (l : list A) (start end_ : nat) : list A :=
  firstn (end_ - start) (skipn start l).

Definition split_into_batches {A} (requirements : list A) (num_batches : Z)
  : list (list A) :=
  if num_batches <=? 0 then [requirements]
  else
    let total := length requirements in
    if (total =? 0)%nat then repeat [] (Z.to_nat num_batches)
    else
      let batch_size := Z.to_nat ((Z.of_nat total + num_batches - 1) / num_batches) in
      let batches :=
        map (fun start => slice requirements start (start + batch_size))
          (range_from total 0 total batch_size) in
      let batches :=
        if Z.of_nat (length batches) <? num_batches
        then batches ++ repeat [] (Z.to_nat (num_batches - Z.of_nat (length batches)))
        else batches in
      firstn (Z.to_nat num_batches) batches.

End Evaluation.


(** ** The desktop in a container
    ([gui_spector/computers/docker.py], class [DockerComputer])

    The methods the runner calls by name for the actions of the model.  A
    method hands shell commands to [_exec], one after the other; what a call
    does is the list of the commands it has handed over, in order, and how
    it ends.  A command is assumed to run without error. *)

Module DockerComputer.

Record t := mk {
  container_name : string;
  display : string;
  scroll_scale : Z
}.

Inductive ending :=
| Returns
| ZeroDivisionError
| KeyError (key : string)
| TypeError.

(** [f"DISPLAY={self.display} xdotool ..."] *)
Definition xdotool (self : t) (arguments : string) : string :=
  "DISPLAY=" +:+ display self +:+ " xdotool " +:+ arguments.

(** [max(1, min(10, abs(scroll_y) // self.scroll_scale))]: the first command
    has been handed over when the division is made. *)
Definition scroll (self : t) (x y scroll_x scroll_y : Z) : list string * ending :=
  let move := xdotool self ("mousemove " +:+ str_int x +:+ " " +:+ str_int y) in
  if scroll_scale self =? 0 then ([move], ZeroDivisionError)
  else
    let clicks := Z.max 1 (Z.min 10 (Z.abs scroll_y / scroll_scale self)) in
    let button := if scroll_y <? 0 then 4 else 5 in
    ([move;
      xdotool self ("click --repeat " +:+ str_int clicks +:+ " " +:+ str_int button)],
     Returns).





End DockerComputer.

Module DockerExamples.
Import DockerComputer.

Definition screen : t := mk "agent" ":99" 100.


End DockerExamples.


(** ** The states of the acceptance criteria
    ([webapp/setups/tasks.py], [_update_acceptance_states_from_decision])

    After a run the task copies the verdicts of the decision to the rows of
    the acceptance criteria of the requirement.  The rows are the list
    [requirement.criteria.all()] gives, in its order; a row is named by its
    place in the list.  The calls of the database are assumed not to
    raise. *)

Module Tasks.

(** [AcceptanceCriterion.State] *)
Inductive State := UNPROCESSED | MET | UNMET.

#[global] Instance State_eq_dec : EqDecision State.
Proof. solve_decision. Defined.

Record AcceptanceCriterion := mk {
  name : string;
  text : string;
  state : State
}.

Definition upper_char (c : ascii) : ascii :=
  let n := nat_of_ascii c in
  if ((97 <=? n)%nat && (n <=? 122)%nat) then ascii_of_nat (n - 32) else c.

(** [s.upper()], on code points below 128 *)
Fixpoint upper (s : string) : string :=
  match s with
  | String c r => String (upper_char c) (upper r)
  | EmptyString => EmptyString
  end.

(** [a or b] *)
Definition or_ (a b : json) : json := if truthy a then a else b.

(** The loop that fills [by_name]: a later row takes the place of an
    earlier one of the same name. *)
Fixpoint index_by_name (i : nat) (criteria : list AcceptanceCriterion)
    (by_name : gmap string nat) : gmap string nat :=
  match criteria with
  | [] => by_name
  | c :: rest =>
      let n := upper (strip (name c)) in
      index_by_name (S i) rest
        (if String.eqb n "" then by_name else <[n := i]> by_name)
  end.

(** The state an item reports; [None] where the loop goes on to the next
    item. *)
Definition new_state (item : dict) : option State :=
  match getk item "met" with
  | JBool met_val => Some (if met_val then MET else UNMET)
  | _ =>
      let status_raw := lower (strip (str (get_default item "status" (JStr "")))) in
      if bool_decide (status_raw ∈ ["met"; "pass"; "true"; "yes"; "1"]) then Some MET
      else if bool_decide (status_raw ∈ ["unmet"; "fail"; "false"; "no"; "0"]) then Some UNMET
      else None
  end.

(** The key under which an item looks its criterion up; [None] where the
    loop goes on to the next item. *)
Definition name_key (item : dict) : option string :=
  let name_raw :=
    or_ (or_ (getk item "criterion_name") (getk item "name")) (getk item "criterion") in
  if truthy name_raw then
    let name_key := upper (strip (str name_raw)) in
    if String.eqb name_key "" then None else Some name_key
  else None.

(** The body of the loop over [results]: the entry it appends to
    [updates], if any.  [target.state] is the state the row had when the
    rows were read. *)
Definition update_of (criteria : list AcceptanceCriterion) (by_name : gmap string nat)
    (item : json) : option (nat * State) :=
  match item with
  | JObj item =>
      key ← name_key item;
      target ← by_name !! key;
      st ← new_state item;
      c ← criteria !! target;
      if decide (state c = st) then None else Some (target, st)
  | _ => None
  end.

(** [obj.state = st; obj.save(update_fields=["state"])] *)
Definition save (rows : list AcceptanceCriterion) (update : nat * State)
    : list AcceptanceCriterion :=
  alter (fun c => mk (name c) (text c) update.2) update.1 rows.

(** The rows after the call, from the rows before it. *)
Definition _update_acceptance_states_from_decision
    (criteria : list AcceptanceCriterion) (decision : json) : list AcceptanceCriterion :=
  match decision with
  | JObj d =>
      match or_ (getk d "acceptance_criteria_results") (JArr []) with
      | JArr [] => criteria
      | JArr results =>
          let by_name := index_by_name 0 criteria ∅ in
          let updates := omap (update_of criteria by_name) results in
          fold_left save updates criteria
      | _ => criteria
      end
  | _ => criteria
  end.

(** The states the items of [results] report for the key [key], in the
    order of the items. *)
Definition verdicts (key : string) (results : list json) : list State :=
  omap (fun item => match item with
                    | JObj item => if decide (name_key item = Some key)
                                   then new_state item else None
                    | _ => None
                    end) results.

(** The key of a row. *)
Definition key_of (c : AcceptanceCriterion) : string := upper (strip (name c)).

(** The place [by_name] gives for a key: the last row of that key. *)
Fixpoint last_row (key : string) (rows : list AcceptanceCriterion) : option nat :=
  match rows with
  | [] => None
  | c :: rest =>
      match last_row key rest with
      | Some j => Some (S j)
      | None => if decide (key_of c = key /\ key <> "") then Some 0%nat else None
      end
  end.

(** The states the updates hold for the row [i]. *)
Definition states_for (i : nat) (updates : list (nat * State)) : list State :=
  omap (fun u => if decide (u.1 = i) then Some u.2 else None) updates.

Definition with_state (c : AcceptanceCriterion) (st : State) : AcceptanceCriterion :=
  mk (name c) (text c) st.

(** The results a decision holds, as the function reads them. *)
Definition results_of (decision : json) : list json :=
  match decision with
  | JObj d => match getk d "acceptance_criteria_results" with
              | JArr results => results
              | _ => []
              end
  | _ => []
  end.

End Tasks.

Module TasksExamples.
Import Tasks.

Definition criteria : list AcceptanceCriterion :=
  [mk "AC-1" "The form opens" MET; mk "AC-2" "The form saves" UNPROCESSED].

Definition verdict (name : string) (met : bool) : json :=
  JObj [("criterion_name", JStr name); ("met", JBool met)].

Definition decision : json :=
  JObj [("acceptance_criteria_results",
         JArr [verdict "ac-1" false; verdict " AC-2 " false;
               verdict "AC-1" true; verdict "AC-2" true])].

End TasksExamples.


(** ** The criteria of an extracted requirement
    ([gui_spector/processor/requirements_processor.py],
    [RequirementsProcessor._coerce_criteria_list])

    The value is what the answer of the model holds under
    [acceptance_criteria]. *)

Module RequirementsProcessor.

(** The loop over [list(maybe_list)], from the value of [index]. *)
Fixpoint coerce_from (index : Z) (items : list json) : list AcceptanceCriterion.t :=
  match items with
  | [] => []
  | it :: rest =>
      let text := strip (str it) in
      if String.eqb text "" then coerce_from (index + 1) rest
      else AcceptanceCriterion.mk ("AC-" +:+ str_int index) text AC_UNPROCESSED
             :: coerce_from (index + 1) rest
  end.

Definition _coerce_criteria_list (maybe_list : json) : result (list AcceptanceCriterion.t) :=
  if truthy maybe_list then
    match iter maybe_list with
    | Ok items => Ok (coerce_from 1 items)
    | Raise e => Raise e
    | OutOfFuel => OutOfFuel
    end
  else Ok [].

End RequirementsProcessor.


(** ** The optional sections of the prompt
    ([gui_spector/verfication/agent.py], [replace_optional_block] in
    [VerficationRunner._render_prompt])

    When a requirement has no title, source, tags, priority, criteria or
    inputs, the section of the template between [[SECTION_X]] and
    [[/SECTION_X]] is cut out.  The text is a list of characters here, to
    count positions in it. *)

Module Prompt.

(** [f"[SECTION_{block_name}]"] and [f"[/SECTION_{block_name}]"] *)
Definition start_tag (block_name : string) : list ascii :=
  list_ascii_of_string ("[SECTION_" +:+ block_name +:+ "]").
Definition end_tag (block_name : string) : list ascii :=
  list_ascii_of_string ("[/SECTION_" +:+ block_name +:+ "]").

(** [s.startswith(sub)] *)
Fixpoint starts_with (sub s : list ascii) : bool :=
  match sub, s with
  | [], _ => true
  | a :: sub', b :: s' => Ascii.eqb a b && starts_with sub' s'
  | _ :: _, [] => false
  end.

(** [s.find(sub)]: the place of the first [sub] in [s].  [sub in s] holds
    when there is one, and [s.index(sub)] is that place. *)
Fixpoint find (sub s : list ascii) : option nat :=
  if starts_with sub s then Some 0%nat
  else match s with
       | [] => None
       | _ :: s' => S <$> find sub s'
       end.

(** The [while] loop of the branch that drops the section. *)
Fixpoint drop_section (fuel : nat) (block_name : string) (rendered : list ascii)
    : result (list ascii) :=
  match find (start_tag block_name) rendered, find (end_tag block_name) rendered with
  | Some start_idx, Some idx =>
      match fuel with
      | O => OutOfFuel
      | S fuel =>
          let end_idx := (idx + length (end_tag block_name))%nat in
          drop_section fuel block_name (take start_idx rendered ++ drop end_idx rendered)
      end
  | _, _ => Ok rendered
  end.

(** A block name without brackets, as the six names of [_render_prompt]. *)
Definition plain (block_name : string) : Prop :=
  ("["%char ∉ list_ascii_of_string block_name) /\
  ("]"%char ∉ list_ascii_of_string block_name).

(** The loop of [_render_prompt] over [rendered.splitlines()] that fills
    [normalized_lines]; [previous_blank] is [False] at first. *)
Fixpoint normalize_lines (previous_blank : bool) (lines : list string) : list string :=
  match lines with
  | [] => []
  | line :: rest =>
      if String.eqb (strip line) ""
      then (if previous_blank then [] else [""]) ++ normalize_lines true rest
      else rstrip line :: normalize_lines false rest
  end.

End Prompt.

Module PromptExamples.
Import Prompt.

(** A template with a title section, and one in which the end tag of the
    section comes first. *)
Definition with_title : list ascii :=
  list_ascii_of_string "Verify. [SECTION_TITLE]Title: {{TITLE}}[/SECTION_TITLE] Done.".
Definition closed_before_opened : list ascii :=
  list_ascii_of_string "Goal [/SECTION_TITLE] of [SECTION_TITLE]x".

End PromptExamples.


(** ** The runner: the files of a turn *)

(** [self.responses_dir / f"{n:03d}_response.json"] and
    [self.interactions_dir / f"{n:03d}_interaction.json"] *)
Definition response_file (dir : string) (n : Z) : string :=
  dir +:+ "/responses/" +:+ pad3 n +:+ "_response.json".
Definition interaction_file (dir : string) (n : Z) : string :=
  dir +:+ "/interactions/" +:+ pad3 n +:+ "_interaction.json".

(** [m] only adds to the trace. *)
Definition grows {A} (m : M A) : Prop :=
  forall r, exists events, trace (m r).2 = trace r ++ events.

Module FileExamples.
Import Script Examples.

(** The model thinks in its first response, without a message or a call,
    and reports in its second. *)
Definition reasoning : json :=
  JObj [("type", JStr "reasoning"); ("summary", JArr [])].
Definition thinking_world : Externals :=
  world [response "resp_1" [reasoning];
         response "resp_2" [message (dumps (JObj ac1_decision))]].

End FileExamples.


(** ** The totals of token usage ([gui_spector/models/usage.py]) *)

(** The sum of a field over usages. *)
Definition total_of (field : Usage.t -> Z) (usages : list Usage.t) : Z :=
  foldr Z.add 0 (map field usages).


(** * Properties *)

(** ** Status derivation *)

Lemma scan_result_verdict a u item :
  scan_result (a, u) item =
    match verdict_of item with
    | Some true => (true, u)
    | Some false => (a, true)
    | None => (a, u)
    end.
Proof.
  destruct item as [| | | | |xs|d]; try reflexivity.
  unfold scan_result, verdict_of. fold (status_raw d).
  destruct (getk d "met") as [|[]| | | | |];
    try (destruct (in_words (status_raw d) met_words);
         [reflexivity|destruct (in_words (status_raw d) unmet_words); reflexivity]).
  - by rewrite orb_true_r, orb_false_r.
  - by rewrite orb_true_r, orb_false_r.
Qed.

Lemma fold_scan_result results : forall a u,
  fold_left scan_result results (a, u) =
    (a || existsb is_met results, u || existsb is_unmet results).
Proof.
  induction results as [|item results IH]; intros a u; cbn [fold_left existsb].
  - by rewrite !orb_false_r.
  - rewrite scan_result_verdict. unfold is_met, is_unmet.
    destruct (verdict_of item) as [[]|]; rewrite IH; cbn;
      by rewrite ?orb_true_r, ?orb_false_r.
Qed.

(** On a non-empty list the status depends only on whether some entry is
    met and whether some entry is unmet. *)
Lemma derive_status_nonempty d item results :
  getk d "acceptance_criteria_results" = JArr (item :: results) ->
  _derive_status_from_acceptance (JObj d) =
    if existsb is_met (item :: results) && existsb is_unmet (item :: results)
    then PARTIALLY_MET
    else if existsb is_met (item :: results) then MET else UNMET.
Proof.
  intros Hget. unfold _derive_status_from_acceptance. rewrite Hget.
  cbn [truthy]. rewrite fold_scan_result. cbn [orb].
  destruct (existsb is_met _), (existsb is_unmet _); reflexivity.
Qed.

Lemma derive_status_missing d :
  dict_get "acceptance_criteria_results" d = None ->
  _derive_status_from_acceptance (JObj d) = ERROR.
Proof.
  intros Hget. unfold _derive_status_from_acceptance, getk. by rewrite Hget.
Qed.

Lemma derive_status_empty d :
  getk d "acceptance_criteria_results" = JArr [] ->
  _derive_status_from_acceptance (JObj d) = ERROR.
Proof.
  intros Hget. unfold _derive_status_from_acceptance. by rewrite Hget.
Qed.

Lemma existsb_Forall_false {A} (f : A -> bool) (l : list A) :
  Forall (fun x => f x = false) l -> existsb f l = false.
Proof.
  induction 1 as [|x l Hx _ IH]; cbn; [done|]. by rewrite Hx, IH.
Qed.

Lemma existsb_Forall_true {A} (f : A -> bool) (x : A) (l : list A) :
  Forall (fun x => f x = true) (x :: l) -> existsb f (x :: l) = true.
Proof. intros Hall. inversion Hall as [|?? Hx _]; subst. cbn. by rewrite Hx. Qed.

(** The rules of the derivation: an empty or missing list gives [ERROR];
    on a non-empty list, all entries met gives [MET], all entries unmet gives
    [UNMET], and a met entry together with an unmet one gives
    [PARTIALLY_MET]. *)
Lemma derive_status_rules d :
  (dict_get "acceptance_criteria_results" d = None ->
   _derive_status_from_acceptance (JObj d) = ERROR) /\
  (getk d "acceptance_criteria_results" = JArr [] ->
   _derive_status_from_acceptance (JObj d) = ERROR) /\
  (forall item results,
     getk d "acceptance_criteria_results" = JArr (item :: results) ->
     (Forall (fun e => verdict_of e = Some true) (item :: results) ->
      _derive_status_from_acceptance (JObj d) = MET) /\
     (Forall (fun e => verdict_of e = Some false) (item :: results) ->
      _derive_status_from_acceptance (JObj d) = UNMET) /\
     (Exists (fun e => verdict_of e = Some true) (item :: results) ->
      Exists (fun e => verdict_of e = Some false) (item :: results) ->
      _derive_status_from_acceptance (JObj d) = PARTIALLY_MET)).
Proof.
  split; [apply derive_status_missing|].
  split; [apply derive_status_empty|].
  intros item results Hget. rewrite (derive_status_nonempty _ _ _ Hget).
  split; [|split].
  - intros Hall.
    rewrite (existsb_Forall_true is_met), (existsb_Forall_false is_unmet); [done| |].
    + eapply Forall_impl; [exact Hall|]. intros e He. unfold is_unmet.
      rewrite He. by apply bool_decide_eq_false.
    + eapply Forall_impl; [exact Hall|]. intros e He. unfold is_met.
      by apply bool_decide_eq_true.
  - intros Hall.
    rewrite (existsb_Forall_false is_met); [done|].
    eapply Forall_impl; [exact Hall|]. intros e He. unfold is_met.
    rewrite He. by apply bool_decide_eq_false.
  - intros Hmet Hunmet.
    assert (existsb is_met (item :: results) = true) as ->.
    { apply existsb_exists. apply Exists_exists in Hmet as (e & Hin & He).
      exists e. split; [by apply list_elem_of_In|]. by apply bool_decide_eq_true. }
    assert (existsb is_unmet (item :: results) = true) as ->; [|done].
    apply existsb_exists. apply Exists_exists in Hunmet as (e & Hin & He).
    exists e. split; [by apply list_elem_of_In|]. by apply bool_decide_eq_true.
Qed.

Lemma in_words_false s words : ~ In s words -> in_words s words = false.
Proof.
  intros Hnot. unfold in_words. apply not_true_is_false. intros Hex.
  apply existsb_exists in Hex as (w & Hin & Heq).
  apply String.eqb_eq in Heq. by subst.
Qed.

Lemma unrecognized_verdict item : unrecognized item -> verdict_of item = None.
Proof.
  destruct item as [| | | | |xs|d]; try reflexivity.
  intros (Hmet & Hnm & Hnu). unfold verdict_of.
  rewrite (in_words_false _ _ Hnm), (in_words_false _ _ Hnu).
  destruct (getk d "met") as [|b| | | | |] eqn:E; try reflexivity.
  by destruct (Hmet b).
Qed.

(** C10 (implicit status fallback): when [acceptance_criteria_results] is a
    non-empty list none of whose entries is recognized as met or as unmet,
    the derived status is [UNMET], not [ERROR]. *)
Theorem derive_status_unrecognized_is_unmet (d : dict) (results : list json) :
  getk d "acceptance_criteria_results" = JArr results ->
  results <> [] ->
  Forall unrecognized results ->
  _derive_status_from_acceptance (JObj d) = UNMET
  /\ _derive_status_from_acceptance (JObj d) <> ERROR.
Proof.
  intros Hget Hne Hall.
  destruct results as [|item results]; [done|].
  rewrite (derive_status_nonempty _ _ _ Hget).
  rewrite (existsb_Forall_false is_met); [done|].
  eapply Forall_impl; [exact Hall|]. intros e He. unfold is_met.
  rewrite (unrecognized_verdict _ He). by apply bool_decide_eq_false.
Qed.

Lemma derive_status_unrecognized_is_unmet_witness :
  _derive_status_from_acceptance
    (JObj [("acceptance_criteria_results",
            JArr [JObj [("criterion_name", JStr "AC-1"); ("status", JStr "Maybe ")];
                  JObj [("met", JStr "true"); ("status", JNull)];
                  JStr "met"])]) = UNMET
  /\ _derive_status_from_acceptance
    (JObj [("acceptance_criteria_results",
            JArr [JObj [("criterion_name", JStr "AC-1"); ("status", JStr "Maybe ")];
                  JObj [("met", JStr "true"); ("status", JNull)];
                  JStr "met"])]) <> ERROR.
Proof.
  apply (derive_status_unrecognized_is_unmet _
           [JObj [("criterion_name", JStr "AC-1"); ("status", JStr "Maybe ")];
            JObj [("met", JStr "true"); ("status", JNull)];
            JStr "met"]).
  - reflexivity.
  - discriminate.
  - repeat constructor; try discriminate;
      vm_compute; intuition discriminate.
Defined.

(** ** The state transformers *)

Section Steps.
Context `{Externals}.
Local Open Scope runner_scope.

Lemma bind_ok {A B} (m : M A) (k : A -> M B) r a r' :
  m r = (Ok a, r') -> bind m k r = k a r'.
Proof. intros Hm. unfold bind. by rewrite Hm. Qed.

Lemma bind_raise {A B} (m : M A) (k : A -> M B) r e r' :
  m r = (Raise e, r') -> bind m k r = (Raise e, r').
Proof. intros Hm. unfold bind. by rewrite Hm. Qed.

Lemma bind_out_of_fuel {A B} (m : M A) (k : A -> M B) r r' :
  m r = (OutOfFuel, r') -> bind m k r = (OutOfFuel, r').
Proof. intros Hm. unfold bind. by rewrite Hm. Qed.

(** What [finish_run] does, by what [_extract_json] returns. *)
Lemma finish_run_eq req url t0 items r :
  finish_run req url t0 items r =
    let t1 := finished_at_of r in
    let r1 := after_cleanup r in
    match _extract_json items with
    | Ok (Ret3 parsed_json parse_error last_json) =>
        let res :=
          result_record req url t0 t1 r (status_of parsed_json parse_error)
            (current_url_of parsed_json) parsed_json
            (error_of parse_error last_json) in
        if truthy parsed_json then
          match _validate_acceptance_criteria_names parsed_json req with
          | Ok _ =>
              (Ok res,
               set_trace (trace r1 ++ [EvWriteFile (run_dir r +:+ "/result/result.json")]) r1)
          | Raise e => (Raise e, r1)
          | OutOfFuel => (OutOfFuel, r1)
          end
        else (Ok res, r1)
    | Ok (Ret2 _ _) =>
        (Raise (ValueError "not enough values to unpack (expected 3, got 2)"), r1)
    | Raise e => (Raise e, r1)
    | OutOfFuel => (OutOfFuel, r1)
    end.
Proof.
  unfold finish_run, after_cleanup, finished_at_of.
  unfold bind at 1. cbn [gets].
  destruct (hasattr (computer r) "cleanup_browser");
    unfold bind at 1; cbn [emit modify ret];
    unfold bind at 1; cbn [clock];
    (destruct (_extract_json items) as [[parsed err|parsed err last]|e|];
     unfold bind at 1; cbn [lift]; try reflexivity;
     unfold bind at 1; cbn [lift unpack3]; try reflexivity;
     unfold bind at 1; cbn [gets];
     unfold bind at 1; cbn [gets];
     unfold status_of, current_url_of, error_of, result_record;
     destruct parsed as [|b|z|f|s|xs|d]).
  all: try (destruct (truthy _) eqn:Etruthy).
  all: cbn [truthy is_dict andb] in *.
  all: try rewrite Etruthy.
  all: cbn [andb].
  all: try (unfold bind at 1; cbn [lift ret];
            destruct (_validate_acceptance_criteria_names _ req) as [[]|e|];
            try reflexivity).
  all: try discriminate.
  all: try reflexivity.
  all: destruct (str_truthy err); reflexivity.
Qed.

(** A run whose turn loop completes is [finish_run] on the conversation. *)
Lemma run_eq fuel req url ps si dbg cb mx r t0 items r1 out r2 :
  begin_run req url r = (Ok (t0, items), r1) ->
  run_full_turn fuel items ps dbg si cb mx r1 = (Ok out, r2) ->
  run fuel req url ps si dbg cb mx r = finish_run req url t0 (items ++ out) r2.
Proof.
  intros Hbegin Hloop. unfold run.
  rewrite (bind_ok _ _ _ _ _ Hbegin). cbn beta iota.
  by rewrite (bind_ok _ _ _ _ _ Hloop).
Qed.

(** [_extract_json] returns a pair exactly on its two early exits. *)
Lemma extract_json_pair items parsed error :
  _extract_json items = Ok (Ret2 parsed error) ->
  parsed = JNull /\
  (error = Some "no_assistant_text" \/ error = Some "no_json_output").
Proof.
  unfold _extract_json.
  destruct (text_segments_of items) as [[|t ts]|e|]; try discriminate.
  - intros [= <- <-]. auto.
  - destruct (strings_of (t :: ts)); [|discriminate].
    destruct (last (json_like_of _)); [|intros [= <- <-]; auto].
    destruct (json_loads _); discriminate.
Qed.

(** [_extract_json] returns an error in a triple exactly when the JSON found
    does not parse; the error is then a non-empty text and nothing is
    parsed. *)
Lemma extract_json_error items parsed e last_json :
  _extract_json items = Ok (Ret3 parsed (Some e) last_json) ->
  parsed = JNull /\ str_truthy (Some e) = true /\
  exists msg, json_loads last_json = inr msg.
Proof.
  unfold _extract_json.
  destruct (text_segments_of items) as [[|t ts]|?|]; try discriminate.
  destruct (strings_of (t :: ts)); [|discriminate].
  destruct (last (json_like_of _)) as [found|]; [|discriminate].
  destruct (json_loads found) as [v|msg] eqn:Hloads; [discriminate|].
  intros [= <- <- <-]. split; [done|]. split; [reflexivity|]. by exists msg.
Qed.

(** When the conversation has no assistant text or no JSON object, the run
    does not return: unpacking the pair raises. *)
Lemma run_raises_without_json fuel req url ps si dbg cb mx r t0 items r1 out r2
    parsed error :
  begin_run req url r = (Ok (t0, items), r1) ->
  run_full_turn fuel items ps dbg si cb mx r1 = (Ok out, r2) ->
  _extract_json (items ++ out) = Ok (Ret2 parsed error) ->
  run fuel req url ps si dbg cb mx r =
    (Raise (ValueError "not enough values to unpack (expected 3, got 2)"),
     after_cleanup r2).
Proof.
  intros Hbegin Hloop Hext.
  rewrite (run_eq _ _ _ _ _ _ _ _ _ _ _ _ _ _ Hbegin Hloop), finish_run_eq.
  cbn zeta. by rewrite Hext.
Qed.

(** When the JSON of the conversation does not parse, the run returns with
    status [ERROR] and the parse error. *)
Lemma run_returns_on_malformed_json fuel req url ps si dbg cb mx r t0 items r1
    out r2 e last :
  begin_run req url r = (Ok (t0, items), r1) ->
  run_full_turn fuel items ps dbg si cb mx r1 = (Ok out, r2) ->
  _extract_json (items ++ out) = Ok (Ret3 JNull (Some e) last) ->
  exists res,
    run fuel req url ps si dbg cb mx r = (Ok res, after_cleanup r2) /\
    VerficationRunResult.status res = ERROR /\
    VerficationRunResult.error res = Some (e +:+ "last_json: " +:+ last).
Proof.
  intros Hbegin Hloop Hext.
  destruct (extract_json_error _ _ _ _ Hext) as (_ & Htruthy & _).
  rewrite (run_eq _ _ _ _ _ _ _ _ _ _ _ _ _ _ Hbegin Hloop), finish_run_eq.
  cbn zeta. rewrite Hext. cbn [truthy]. eexists. split; [reflexivity|].
  unfold result_record, status_of, error_of.
  cbn [VerficationRunResult.status VerficationRunResult.error truthy andb].
  by rewrite Htruthy.
Qed.

(** When the decision parses to a non-empty object whose names pass
    validation, the run returns and stores the derived status. *)
Lemma run_stores_derived_status fuel req url ps si dbg cb mx r t0 items r1 out
    r2 kv d last :
  begin_run req url r = (Ok (t0, items), r1) ->
  run_full_turn fuel items ps dbg si cb mx r1 = (Ok out, r2) ->
  _extract_json (items ++ out) = Ok (Ret3 (JObj (kv :: d)) None last) ->
  expected_names req = reported_by (kv :: d) ->
  exists res r3,
    run fuel req url ps si dbg cb mx r = (Ok res, r3) /\
    VerficationRunResult.status res = _derive_status_from_acceptance (JObj (kv :: d)) /\
    VerficationRunResult.model_decision res = JObj (kv :: d) /\
    VerficationRunResult.error res = None.
Proof.
  intros Hbegin Hloop Hext Hnames.
  rewrite (run_eq _ _ _ _ _ _ _ _ _ _ _ _ _ _ Hbegin Hloop), finish_run_eq.
  cbn zeta. rewrite Hext. cbn [truthy].
  unfold _validate_acceptance_criteria_names. cbn [get].
  fold (reported_by (kv :: d)). rewrite bool_decide_eq_false_2; [|by intros []].
  eexists _, _. split; [reflexivity|]. by repeat split.
Qed.

Lemma sorted_spec (s : gset string) :
  Sorted String.le (sorted s) /\ NoDup (sorted s) /\
  forall n, n ∈ sorted s <-> n ∈ s.
Proof.
  unfold sorted. split; [|split].
  - apply (Sorted_merge_sort String.le).
  - rewrite merge_sort_Permutation. apply NoDup_elements.
  - intros n. rewrite merge_sort_Permutation. apply elem_of_elements.
Qed.

(** C3, as amended (name validation): when the decision parses to a
    non-empty object and the set of names it reports (the [criterion_name]
    of each entry that is a dict and has a non-null one, as text and without
    surrounding white space) differs from the set of names of the
    requirement's acceptance criteria (without surrounding white space),
    the run raises [AcceptanceCriteriaMismatchException] with the missing
    names (expected, not reported) and the extra names (reported, not
    expected), each in ascending order without repetition. *)
Theorem names_mismatch_raises fuel req url ps si dbg cb mx r t0 items r1 out r2
    kv d last :
  begin_run req url r = (Ok (t0, items), r1) ->
  run_full_turn fuel items ps dbg si cb mx r1 = (Ok out, r2) ->
  _extract_json (items ++ out) = Ok (Ret3 (JObj (kv :: d)) None last) ->
  expected_names req <> reported_by (kv :: d) ->
  let missing := sorted (expected_names req ∖ reported_by (kv :: d)) in
  let extra := sorted (reported_by (kv :: d) ∖ expected_names req) in
  run fuel req url ps si dbg cb mx r =
    (Raise (AcceptanceCriteriaMismatchException missing extra), after_cleanup r2)
  /\ Sorted String.le missing /\ NoDup missing
  /\ (forall n, n ∈ missing <-> n ∈ expected_names req /\ n ∉ reported_by (kv :: d))
  /\ Sorted String.le extra /\ NoDup extra
  /\ (forall n, n ∈ extra <-> n ∈ reported_by (kv :: d) /\ n ∉ expected_names req).
Proof.
  intros Hbegin Hloop Hext Hnames missing extra.
  destruct (sorted_spec (expected_names req ∖ reported_by (kv :: d)))
    as (Hs1 & Hn1 & He1).
  destruct (sorted_spec (reported_by (kv :: d) ∖ expected_names req))
    as (Hs2 & Hn2 & He2).
  split.
  { rewrite (run_eq _ _ _ _ _ _ _ _ _ _ _ _ _ _ Hbegin Hloop), finish_run_eq.
    cbn zeta. rewrite Hext. cbn [truthy].
    unfold _validate_acceptance_criteria_names. cbn [get].
    fold (reported_by (kv :: d)). by rewrite bool_decide_eq_true_2. }
  split; [done|]. split; [done|].
  split; [intros n; subst missing; by rewrite He1, elem_of_difference|].
  split; [done|]. split; [done|].
  intros n; subst extra; by rewrite He2, elem_of_difference.
Qed.

End Steps.

(** ** The decision of a run, on examples *)

Import Script Examples.

(** C1 (status derivation), at the input where the code departs from it: the
    model's decision is the empty object.  Its derived status is [ERROR]
    (the list of results is missing), but the run returns a result whose
    status is [UNMET], with no error and without validating the names. *)
Theorem empty_decision_is_stored_as_unmet :
  _derive_status_from_acceptance (JObj []) = ERROR /\
  exists res r',
    @run empty_decision_world 10 (requirement ["AC-1"]) "http://shop"
      true false false false None (runner accept_all) = (Ok res, r') /\
    VerficationRunResult.model_decision res = JObj [] /\
    VerficationRunResult.status res = UNMET /\
    VerficationRunResult.error res = None.
Proof.
  split; [reflexivity|]. eexists _, _. split; [vm_compute; reflexivity|].
  by repeat split.
Qed.

(** The scenario of the specification does end with [ERROR]: no criteria,
    and a decision whose list of results is empty. *)
Example empty_results_give_error :
  exists res r',
    @run (world [response "resp_1"
                   [message (dumps (JObj [("acceptance_criteria_results", JArr [])]))]])
      10 (requirement []) "http://shop" true false false false None
      (runner accept_all) = (Ok res, r') /\
    VerficationRunResult.status res = ERROR.
Proof. eexists _, _. split; [vm_compute; reflexivity|]. reflexivity. Qed.

(** C2 (decision extraction is non-fatal), at the inputs where the code
    departs from it: when the final message is prose without JSON, and when
    it carries no text at all, [_extract_json] returns a pair and the run
    raises [ValueError] instead of returning a result with status [ERROR]. *)
Theorem run_raises_on_prose_and_on_no_text :
  (@run prose_world 10 (requirement ["AC-1"]) "http://shop"
     true false false false None (runner accept_all)).1
  = Raise (ValueError "not enough values to unpack (expected 3, got 2)")
  /\
  (@run refusal_world 10 (requirement ["AC-1"]) "http://shop"
     false false false false None (runner accept_all)).1
  = Raise (ValueError "not enough values to unpack (expected 3, got 2)")
  /\
  @_extract_json prose_world [message "I could not complete the task."]
  = Ok (Ret2 JNull (Some "no_json_output"))
  /\
  @_extract_json refusal_world [refusal]
  = Ok (Ret2 JNull (Some "no_assistant_text")).
Proof. repeat split; vm_compute; reflexivity. Qed.

(** The third case of C2 holds: JSON that does not parse gives a result
    with status [ERROR] and the parse error. *)
Example malformed_json_gives_error :
  exists res r' msg,
    @run malformed_world 10 (requirement ["AC-1"]) "http://shop"
      true false false false None (runner accept_all) = (Ok res, r') /\
    VerficationRunResult.status res = ERROR /\
    VerficationRunResult.model_decision res = JNull /\
    VerficationRunResult.error res =
      Some ("json_parse_error: " +:+ msg +:+ "; json_like=['{status: met}']" +:+
            "last_json: {status: met}").
Proof.
  eexists _, _, "Expecting value". split; [vm_compute; reflexivity|]. by repeat split.
Qed.

Lemma names_mismatch_raises_witness :
  (@run ac1_world 10 (requirement ["AC-1"; "AC-2"]) "http://shop"
     true false false false None (runner accept_all)).1
  = Raise (AcceptanceCriteriaMismatchException ["AC-2"] []).
Proof.
  edestruct (@names_mismatch_raises ac1_world 10 (requirement ["AC-1"; "AC-2"])
               "http://shop" true false false false None (runner accept_all))
    as [Hrun _].
  - vm_compute. reflexivity.
  - vm_compute. reflexivity.
  - vm_compute. reflexivity.
  - refine (proj1 (bool_decide_eq_true _) _). vm_compute. reflexivity.
  - rewrite Hrun. vm_compute. reflexivity.
Defined.

(** C3 as stated fails: the decision names its criterion ["AC-1 "], the
    requirement names it ["AC-1"]; the two sets of names differ, and the run
    returns a result instead of raising. *)
Lemma names_mismatch_counterexample :
  ~ same_set (criterion_name_values padded_decision)
             (requirement_names (requirement ["AC-1"])) /\
  exists res r',
    @run padded_world 10 (requirement ["AC-1"]) "http://shop"
      true false false false None (runner accept_all) = (Ok res, r') /\
    VerficationRunResult.model_decision res = JObj padded_decision /\
    VerficationRunResult.status res = MET.
Proof.
  split.
  - intros Hsame. destruct (Hsame (JStr "AC-1 ")) as [Hin _].
    assert (JStr "AC-1 " ∈ requirement_names (requirement ["AC-1"])) as Hbad.
    { apply Hin. vm_compute. left. }
    vm_compute in Hbad. apply list_elem_of_singleton in Hbad. discriminate.
  - eexists _, _. split; [vm_compute; reflexivity|]. by split.
Qed.

(** ** What a turn leaves unchanged, and the step budget *)

Section Turns.
Context `{Externals}.
Local Open Scope runner_scope.

Lemma keeps_ret {A B} (f : Runner -> B) (a : A) : keeps f (ret a).
Proof. by intros r. Qed.
Lemma keeps_raise {A B} (f : Runner -> B) e : keeps f (@raise A e).
Proof. by intros r. Qed.
Lemma keeps_lift {A B} (f : Runner -> B) (x : result A) : keeps f (lift x).
Proof. by intros r. Qed.
Lemma keeps_gets {B C} (f : Runner -> B) (g : Runner -> C) : keeps f (gets g).
Proof. by intros r. Qed.
Lemma keeps_modify {B} (f : Runner -> B) g :
  (forall r, f (g r) = f r) -> keeps f (modify g).
Proof. intros Hg r. apply Hg. Qed.
Lemma keeps_bind {A B C} (f : Runner -> C) (m : M A) (k : A -> M B) :
  keeps f m -> (forall a, keeps f (k a)) -> keeps f (bind m k).
Proof.
  intros Hm Hk r. unfold bind. specialize (Hm r).
  destruct (m r) as [[a| |] r1]; cbn in *; try done.
  by rewrite Hk.
Qed.

Section Field.
Context {B : Type} (f : Runner -> B).
Hypothesis f_step_counter : forall v r, f (set_step_counter v r) = f r.
Hypothesis f_trace : forall v r, f (set_trace v r) = f r.
Hypothesis f_last_action : forall v r, f (set_last_action v r) = f r.
Hypothesis f_last_screenshot_path : forall v r, f (set_last_screenshot_path v r) = f r.

Ltac keeps_step :=
  match goal with
  | |- keeps _ (bind _ _) => apply keeps_bind; [|intros ?]
  | |- keeps _ (ret _) => apply keeps_ret
  | |- keeps _ (raise _) => apply keeps_raise
  | |- keeps _ (lift _) => apply keeps_lift
  | |- keeps _ (gets _) => apply keeps_gets
  | |- keeps _ (emit _) => apply keeps_modify; intros; apply f_trace
  | |- keeps _ incr_step_counter => apply keeps_modify; intros; apply f_step_counter
  | |- keeps _ (modify _) => apply keeps_modify; intros; auto
  | |- keeps _ (if ?b then _ else _) => destruct b
  | |- keeps _ (match ?x with _ => _ end) => destruct x
  end.

Lemma keeps_emit e : keeps f (emit e).
Proof. apply keeps_modify. intros r. apply f_trace. Qed.

Lemma keeps_incr_step_counter : keeps f incr_step_counter.
Proof. apply keeps_modify. intros r. apply f_step_counter. Qed.

Lemma keeps_acknowledge_all checks : keeps f (acknowledge_all checks).
Proof.
  induction checks as [|check checks IH]; cbn [acknowledge_all].
  - apply keeps_ret.
  - apply keeps_bind; [apply keeps_lift|intros message].
    apply keeps_bind; [apply keeps_gets|intros cb].
    apply keeps_bind; [apply keeps_emit|intros _].
    destruct (cb message); [exact IH|apply keeps_raise].
Qed.

Lemma keeps_handle_item item : keeps f (handle_item item).
Proof.
  unfold handle_item, handle_message, handle_function_call, handle_computer_call.
  repeat first [ apply keeps_acknowledge_all | keeps_step ].
Qed.

Lemma keeps_handle_items items : keeps f (handle_items items).
Proof.
  induction items as [|item items IH]; cbn [handle_items].
  - apply keeps_ret.
  - apply keeps_bind; [apply keeps_handle_item|intros out].
    apply keeps_bind; [exact IH|intros outs]. apply keeps_ret.
Qed.
End Field.

Lemma record_usage_and_id_keeps {B} (f : Runner -> B) response r :
  (forall v r, f (set_usages v r) = f r) ->
  (forall v r, f (set_last_response_id v r) = f r) ->
  f (record_usage_and_id response r) = f r.
Proof.
  intros Hu Hi. unfold record_usage_and_id.
  destruct (getk response "usage"); try destruct (usage_of_dict _);
    destruct (dict_get "id" response); by rewrite ?Hi, ?Hu.
Qed.

Lemma record_usage_and_id_id response r1 r2 :
  _last_response_id r1 = _last_response_id r2 ->
  _last_response_id (record_usage_and_id response r1) =
  _last_response_id (record_usage_and_id response r2).
Proof.
  intros Hsame. unfold record_usage_and_id.
  destruct (getk response "usage") as [| | | | | |u];
    try destruct (usage_of_dict u);
    by destruct (dict_get "id" response).
Qed.

(** The response id a turn records is the [id] of its response, as text,
    when the response has one and its usage, if any, is well formed. *)
Lemma record_usage_and_id_of_response response r v :
  dict_get "id" response = Some v ->
  (forall u, getk response "usage" = JObj u -> is_Some (usage_of_dict u)) ->
  _last_response_id (record_usage_and_id response r) = Some (str v).
Proof.
  intros Hid Husage. unfold record_usage_and_id. rewrite Hid.
  destruct (getk response "usage") as [| | | | | |u]; try reflexivity.
  destruct (Husage u eq_refl) as [usage ->]. reflexivity.
Qed.

(** What a completed turn records: one more response and one more entry
    of [_response_extras], made from that response. *)
Lemma one_turn_records input new_items cb r new_items' r' :
  one_turn input new_items cb r = (Ok new_items', r') ->
  let response := create_response (trace r) (input ++ new_items) in
  exists extra outs,
    _response_extras r' = _response_extras r ++ [extra] /\
    _responses r' = _responses r ++ [response] /\
    (exists output,
       getitem (JObj response) "output" = Ok output /\ iter output = Ok outs) /\
    Extra.usage extra = usage_obj_of response /\
    (Extra.reasoning_summary extra, Extra.message_text extra)
      = scan_outputs outs JNull JNull /\
    Extra.response_id extra = _last_response_id (record_usage_and_id response r) /\
    Extra.started_at extra = now (clock_reads r) /\
    Extra.finished_at extra = now (S (clock_reads r)) /\
    Extra.screenshot_path extra = _last_screenshot_path r' /\
    Extra.action extra = _last_action r'.
Proof.
  unfold one_turn.
  unfold bind at 1. cbn [clock].
  unfold bind at 1. cbn [gets].
  unfold bind at 1. cbn [emit modify].
  unfold bind at 1. cbn [modify].
  unfold bind at 1. cbn [modify].
  unfold bind at 1. cbn [modify].
  unfold bind at 1. cbn [modify].
  unfold bind at 1. cbn [gets].
  match goal with |- context [if ?c then raise _ else _] => destruct c end;
    [discriminate|].
  unfold bind at 1. cbn [gets].
  unfold bind at 1. cbn [gets].
  unfold bind at 1. cbn [emit modify].
  unfold bind at 1. cbn [lift].
  cbn [trace set_clock_reads].
  destruct (getitem _ "output") as [output| |] eqn:Houtput; try discriminate.
  unfold bind at 1. cbn [lift].
  destruct (iter output) as [outs| |] eqn:Hiter; try discriminate.
  unfold bind at 1.
  match goal with |- context [handle_items outs ?ra] =>
    pose proof (keeps_handle_items _response_extras
                  ltac:(done) ltac:(done) ltac:(done) ltac:(done) outs ra) as Hextras;
    pose proof (keeps_handle_items _responses
                  ltac:(done) ltac:(done) ltac:(done) ltac:(done) outs ra) as Hresponses;
    pose proof (keeps_handle_items _last_response_id
                  ltac:(done) ltac:(done) ltac:(done) ltac:(done) outs ra) as Hid;
    pose proof (keeps_handle_items clock_reads
                  ltac:(done) ltac:(done) ltac:(done) ltac:(done) outs ra) as Hclock;
    destruct (handle_items outs ra) as [[handled| |] rb]; try discriminate
  end.
  cbn [snd _response_extras _responses _last_response_id clock_reads set_trace
       set_responses set_last_action set_last_screenshot_path set_clock_reads]
    in Hextras, Hresponses, Hid, Hclock.
  rewrite record_usage_and_id_keeps in Hextras by done.
  rewrite record_usage_and_id_keeps in Hresponses by done.
  rewrite (record_usage_and_id_keeps clock_reads) in Hclock by done.
  cbn [_response_extras _responses trace clock_reads set_trace set_clock_reads]
    in Hextras, Hresponses, Hclock.
  assert (_last_response_id rb =
          _last_response_id
            (record_usage_and_id
               (create_response (trace r) (input ++ new_items)) r)) as Hid'.
  { rewrite Hid. by apply record_usage_and_id_id. }
  destruct (scan_outputs outs JNull JNull) as [reasoning_summary message_text]
    eqn:Hscan.
  unfold bind at 1. cbn [clock].
  unfold bind at 1. cbn [gets].
  unfold bind at 1. cbn [emit modify].
  unfold bind at 1. cbn [modify].
  unfold bind at 1.
  destruct cb; cbn [emit modify ret]; intros [= <- <-]; eexists _, outs;
    (split; [cbn; rewrite Hextras; reflexivity|]);
    (split; [cbn; exact Hresponses|]);
    (split; [by exists output|]);
    (split; [reflexivity|]);
    (split; [cbn; by rewrite Hscan|]);
    (split; [exact Hid'|]);
    (split; [reflexivity|]);
    (split; [cbn; by rewrite Hclock|]);
    split; reflexivity.
Qed.

Lemma turns_records k : forall input new_items cb r items r',
  turns k input new_items cb r = Some (items, r') ->
  length (_response_extras r') = (length (_response_extras r) + k)%nat /\
  length (_responses r') = (length (_responses r) + k)%nat.
Proof.
  induction k as [|k IH]; intros input new_items cb r items r'; cbn [turns].
  - intros [= _ <-]. lia.
  - destruct (keep_looping new_items) as [[]| |]; try discriminate.
    destruct (one_turn input new_items cb r) as [[new_items1| |] r1] eqn:Hturn;
      try discriminate.
    intros Hrest. apply IH in Hrest as [He Hr].
    apply one_turn_records in Hturn as (extra & outs & He1 & Hr1 & _).
    rewrite He, Hr, He1, Hr1, !length_app. cbn. lia.
Qed.

Lemma turn_loop_budget k : forall fuel input new_items done_ cb M r items r',
  (1 <= k)%nat -> (k <= fuel)%nat -> 0 <= done_ -> done_ + Z.of_nat k = M ->
  turns k input new_items cb r = Some (items, r') ->
  turn_loop fuel input new_items done_ cb (Some M) r =
    (Raise (MaximumReasoningStepsReachedException M), r').
Proof.
  induction k as [|k IH]; intros fuel input new_items done_ cb M r items r'
    Hk Hfuel Hdone HM; [lia|].
  destruct fuel as [|fuel]; [lia|].
  cbn [turns turn_loop].
  destruct (keep_looping new_items) as [[]| |]; try discriminate.
  unfold bind at 1. cbn [lift].
  destruct (one_turn input new_items cb r) as [[new_items1| |] r1] eqn:Hturn;
    try discriminate.
  intros Hrest. rewrite (bind_ok _ _ _ _ _ Hturn).
  unfold budget_reached.
  destruct k as [|k].
  - cbn [turns] in Hrest. injection Hrest as <- <-.
    replace (0 <? M) with true by (symmetry; apply Z.ltb_lt; lia).
    replace (M <=? done_ + 1) with true by (symmetry; apply Z.leb_le; lia).
    reflexivity.
  - replace (M <=? done_ + 1) with false by (symmetry; apply Z.leb_gt; lia).
    rewrite andb_false_r.
    apply (IH fuel input new_items1 (done_ + 1) cb M r1 items r'); try lia.
    exact Hrest.
Qed.

(** C5 (step budget): with a maximum of [M >= 1] completed turns, if each
    of the first [M] turns is started (no assistant message is last before
    it) and runs to its end, the turn loop raises
    [MaximumReasoningStepsReachedException] in the state reached after
    exactly [M] turns: [M] responses of the model have been received and
    recorded, no more and no less. *)
Theorem step_budget_exceeded (M : Z) (fuel : nat) input ps dbg si cb r items r' :
  1 <= M ->
  (Z.to_nat M <= fuel)%nat ->
  turns (Z.to_nat M) input [] cb (set_flags ps dbg si r) = Some (items, r') ->
  run_full_turn fuel input ps dbg si cb (Some M) r =
    (Raise (MaximumReasoningStepsReachedException M), r')
  /\ Z.of_nat (length (_responses r')) = Z.of_nat (length (_responses r)) + M
  /\ Z.of_nat (length (_response_extras r')) =
       Z.of_nat (length (_response_extras r)) + M.
Proof.
  intros HM Hfuel Hturns. split.
  - unfold run_full_turn. unfold bind at 1. cbn [modify].
    apply (turn_loop_budget (Z.to_nat M) fuel input [] 0 cb M _ items r');
      try lia. exact Hturns.
  - apply turns_records in Hturns as [He Hr]. cbn in He, Hr. lia.
Qed.
End Turns.

Lemma step_budget_exceeded_witness :
  (@run_full_turn clicking_world 1
     [JObj [("role", JStr "user"); ("content", JStr "Check the sorting")]]
     true false false false (Some 1) (runner accept_all)).1
  = Raise (MaximumReasoningStepsReachedException 1)
  /\ length (_responses
       (@run_full_turn clicking_world 1
          [JObj [("role", JStr "user"); ("content", JStr "Check the sorting")]]
          true false false false (Some 1) (runner accept_all)).2) = 1%nat.
Proof.
  edestruct (@step_budget_exceeded clicking_world 1 1
               [JObj [("role", JStr "user"); ("content", JStr "Check the sorting")]]
               true false false false (runner accept_all))
    as (Hrun & Hresponses & _).
  - lia.
  - simpl. lia.
  - vm_compute. reflexivity.
  - rewrite Hrun. split; [reflexivity|].
    cbn [snd]. apply Nat2Z.inj. rewrite Hresponses. reflexivity.
Defined.

(** ** Safety checks *)

Section Safety.
Context `{Externals}.
Local Open Scope runner_scope.

Lemma set_trace_id r : set_trace (trace r) r = r.
Proof. by destruct r. Qed.

Lemma acknowledge_all_spec checks : forall r out r',
  acknowledge_all checks r = (out, r') ->
  let acks := acknowledgments (acknowledge_safety_check_callback r) checks in
  r' = set_trace (trace r ++ acks) r /\
  Forall (fun e => is_acknowledge e = true) acks /\
  (out = Ok tt ->
   Forall2 (fun c e => exists m, getitem c "message" = Ok m /\ e = EvAcknowledge m true)
     checks acks) /\
  (forall m, EvAcknowledge m false ∈ acks -> exists msg, out = Raise (ValueError msg)).
Proof.
  induction checks as [|check checks IH]; intros r out r'; cbn [acknowledge_all acknowledgments].
  - intros [= <- <-]. rewrite app_nil_r, set_trace_id.
    repeat split; try constructor. intros m Hin. by apply elem_of_nil in Hin.
  - unfold bind at 1. cbn [lift].
    destruct (getitem check "message") as [message|e|] eqn:Hmessage.
    + unfold bind at 1. cbn [gets].
      unfold bind at 1. cbn [emit modify].
      destruct (acknowledge_safety_check_callback r message) eqn:Hcb.
      * intros Hrest. apply IH in Hrest. cbn zeta in Hrest.
        destruct Hrest as (-> & Hacks & Hok & Hbad).
        cbn [acknowledge_safety_check_callback set_trace trace] in *.
        split; [by rewrite <- app_assoc|].
        split; [by constructor|].
        split.
        -- intros Hout. constructor; [by eexists|auto].
        -- intros m Hin. apply elem_of_cons in Hin as [Heq|Hin]; [discriminate|].
           by apply (Hbad m).
      * cbn [raise]. intros [= <- <-].
        split; [reflexivity|]. split; [by repeat constructor|].
        split; [discriminate|]. intros m _. by eexists.
    + intros [= <- <-]. rewrite app_nil_r, set_trace_id.
      repeat split; try constructor; try discriminate.
      intros m Hin. by apply elem_of_nil in Hin.
    + intros [= <- <-]. rewrite app_nil_r, set_trace_id.
      repeat split; try constructor; try discriminate.
      intros m Hin. by apply elem_of_nil in Hin.
Qed.

Lemma getitem_returns v k : getitem v k <> OutOfFuel.
Proof. destruct v; try discriminate. cbn. by destruct (dict_get k kvs). Qed.

Lemma iter_returns v : iter v <> OutOfFuel.
Proof. by destruct v. Qed.

Ltac mstep := unfold bind at 1; cbn [lift gets modify emit ret raise incr_step_counter].

(** Closes a branch of [handle_computer_call] that ends after the action,
    with [tail] as the events that follow the acknowledgments. *)
Ltac finish_with tail refusal :=
  intros [= <- <-]; right; eexists _, _, _, tail; cbn zeta;
  cbn [acknowledgments trace set_trace _last_action set_step_counter
       set_last_action set_last_screenshot_path];
  split; [by rewrite ?app_nil_r, <- ?app_assoc|];
  split; [first [done|constructor]|];
  split; [first [by left|by right]|];
  split; [first [done|discriminate]|];
  let m := fresh "m" in let Hin := fresh "Hin" in
  intros m Hin; refusal m Hin.

Lemma handle_computer_call_spec item r out r' :
  handle_computer_call item r = (out, r') ->
  (trace r' = trace r /\ (exists e, out = Raise e) /\ _last_action r' = _last_action r)
  \/
  (exists ty args path tail,
     let acks := acknowledgments (acknowledge_safety_check_callback r)
                   (pending_checks_of item) in
     trace r' = trace r ++ [EvAction ty args; EvScreenshot; EvWriteFile path] ++ acks ++ tail /\
     Forall (fun e => is_acknowledge e = true) acks /\
     (tail = [] \/ tail = [EvGetCurrentUrl]) /\
     (forall outs, out = Ok outs ->
        Forall2 (fun c e => exists m, getitem c "message" = Ok m /\ e = EvAcknowledge m true)
          (pending_checks_of item) acks) /\
     (forall m, EvAcknowledge m false ∈ acks ->
        (exists msg, out = Raise (ValueError msg)) /\ tail = [] /\
        _last_action r' = _last_action r)).
Proof.
  unfold handle_computer_call.
  mstep. destruct (getitem item "action") as [action|e|] eqn:Haction;
    [|intros [= <- <-]; left; eauto|by destruct (getitem_returns _ _ Haction)].
  assert (exists d, item = JObj d) as [d ->].
  { destruct item; try discriminate. eauto. }
  mstep. destruct (getitem action "type") as [action_type|e|] eqn:Htype;
    [|intros [= <- <-]; left; eauto|by destruct (getitem_returns _ _ Htype)].
  mstep. mstep.
  destruct action_type as [| | | |method| |];
    try (unfold bind at 1; cbn [raise]; intros [= <- <-]; left; eauto; fail).
  destruct (hasattr (computer r) method) eqn:Hattr;
    [|unfold bind at 1; cbn [raise]; intros [= <- <-]; left; eauto].
  mstep. mstep. mstep. mstep. mstep. mstep. mstep.
  cbn [pending_checks_of].
  mstep. destruct (iter (get_default d "pending_safety_checks" (JArr []))) as [checks|e|] eqn:Hiter;
    [|finish_with (@nil event) ltac:(fun m Hin => by apply elem_of_nil in Hin)
     |by destruct (iter_returns _ Hiter)].
  unfold bind at 1.
  match goal with |- context [acknowledge_all checks ?ra] =>
    destruct (acknowledge_all checks ra) as [ack rb] eqn:Hack
  end.
  apply acknowledge_all_spec in Hack. cbn zeta in Hack.
  destruct Hack as (-> & Hacks & Hok & Hbad).
  cbn [acknowledge_safety_check_callback set_step_counter set_trace trace] in *.
  destruct ack as [[]|e|].
  3:{ finish_with (@nil event) ltac:(fun m Hin => apply Hbad in Hin as [? ?]; discriminate). }
  2:{ finish_with (@nil event)
        ltac:(fun m Hin => apply Hbad in Hin as [msg [= ->]]; eauto). }
  specialize (Hok eq_refl).
  assert (forall m, EvAcknowledge m false ∈
            acknowledgments (acknowledge_safety_check_callback r) checks -> False)
    as Hnone.
  { intros m Hin. apply Hbad in Hin as [? ?]. discriminate. }
  clear Hbad.
  mstep. destruct (getitem (JObj d) "call_id") as [call_id|e|] eqn:Hcall;
    [|finish_with (@nil event) ltac:(fun m Hin => by destruct (Hnone m))
     |by destruct (getitem_returns _ _ Hcall)].
  unfold bind at 1.
  destruct (String.eqb (get_environment (computer r)) "browser").
  - mstep. mstep.
    destruct (check_blocklisted_url _) as [e|].
    + cbn [raise].
      finish_with [EvGetCurrentUrl] ltac:(fun m Hin => by destruct (Hnone m)).
    + cbn [ret].
      unfold bind at 1.
      match goal with |- context [(if ?c then lift ?x else ret []) ?ra] =>
        destruct ((if c then lift x else ret []) ra) as [[msgs|e|] rc] eqn:Hmsgs;
        assert (rc = ra) as -> by (destruct c; unfold lift, ret in Hmsgs; congruence)
      end;
      [|finish_with [EvGetCurrentUrl] ltac:(fun m Hin => by destruct (Hnone m))..].
      mstep. cbn [get]. mstep. mstep. mstep.
      finish_with [EvGetCurrentUrl] ltac:(fun m Hin => by destruct (Hnone m)).
  - cbn [ret].
    unfold bind at 1.
    match goal with |- context [(if ?c then lift ?x else ret []) ?ra] =>
      destruct ((if c then lift x else ret []) ra) as [[msgs|e|] rc] eqn:Hmsgs;
      assert (rc = ra) as -> by (destruct c; unfold lift, ret in Hmsgs; congruence)
    end;
    [|finish_with (@nil event) ltac:(fun m Hin => by destruct (Hnone m))..].
    mstep. cbn [get]. mstep. mstep. mstep.
    finish_with (@nil event) ltac:(fun m Hin => by destruct (Hnone m)).
Qed.

Lemma handle_item_computer_call item r :
  getitem item "type" = Ok (JStr "computer_call") ->
  handle_item item r = handle_computer_call item r.
Proof.
  intros Htype. unfold handle_item. unfold bind at 1. cbn [lift]. by rewrite Htype.
Qed.

Lemma acknowledgments_are_acknowledgments cb checks :
  Forall (fun e => is_acknowledge e = true) (acknowledgments cb checks).
Proof.
  induction checks as [|check checks IH]; cbn [acknowledgments]; [constructor|].
  destruct (getitem check "message"); try constructor; [done|].
  destruct (cb a); [exact IH|constructor].
Qed.

Lemma filter_acknowledgments acks :
  Forall (fun e => is_acknowledge e = true) acks ->
  List.filter is_acknowledge acks = acks.
Proof.
  induction 1 as [|e acks He _ IH]; cbn [List.filter]; [done|].
  by rewrite He, IH.
Qed.

Lemma action_then_acknowledgments ty args path acks tail :
  Forall (fun e => is_acknowledge e = true) acks ->
  tail = [] \/ tail = [EvGetCurrentUrl] ->
  let events := [EvAction ty args; EvScreenshot; EvWriteFile path] ++ acks ++ tail in
  action_before_acknowledgment events /\
  List.filter is_acknowledge events = acks.
Proof.
  intros Hacks Htail events. split.
  - intros i j a b Ha Haction Hb Hack.
    destruct i as [|i].
    + destruct j as [|[|[|j]]]; cbn in Hb; simplify_eq; try discriminate. lia.
    + exfalso. subst events. cbn in Ha.
      destruct i as [|[|i]]; cbn in Ha; simplify_eq; try discriminate.
      apply lookup_app_Some in Ha as [Ha|[_ Ha]].
      * apply list_elem_of_lookup_2 in Ha.
        rewrite Forall_forall in Hacks. apply Hacks in Ha.
        destruct a; discriminate.
      * destruct Htail as [-> | ->]; [by rewrite lookup_nil in Ha|].
        apply list_elem_of_lookup_2, list_elem_of_singleton in Ha. by subst.
  - subst events. cbn [app List.filter is_acknowledge].
    rewrite List.filter_app, (filter_acknowledgments _ Hacks).
    destruct Htail as [-> | ->]; cbn; by rewrite app_nil_r.
Qed.

(** C4, as amended (safety checks): for every [computer_call] item, the GUI
    action is carried out against the environment and the screenshot taken
    before the acknowledgment callback is asked anything.  The callback is
    then asked about the pending safety-check messages in order, up to the
    first it refuses.  A refusal raises [ValueError], which ends the run;
    then no output item is returned and the action is not recorded as the
    action of the turn.  When the item is handled to its end, every pending
    message has been acknowledged. *)
Theorem safety_checks_follow_action item r out r' :
  getitem item "type" = Ok (JStr "computer_call") ->
  handle_item item r = (out, r') ->
  exists events,
    trace r' = trace r ++ events /\
    action_before_acknowledgment events /\
    (forall e, e ∈ events -> is_acknowledge e = true ->
       exists ty args, events !! 0%nat = Some (EvAction ty args) /\
                       events !! 1%nat = Some EvScreenshot) /\
    (events <> [] ->
     List.filter is_acknowledge events =
       acknowledgments (acknowledge_safety_check_callback r) (pending_checks_of item)) /\
    (forall m, EvAcknowledge m false ∈ events ->
       (exists msg, out = Raise (ValueError msg)) /\
       _last_action r' = _last_action r) /\
    (forall outs, out = Ok outs ->
       Forall2 (fun c e => exists m, getitem c "message" = Ok m /\ e = EvAcknowledge m true)
         (pending_checks_of item) (List.filter is_acknowledge events)).
Proof.
  intros Htype Hhandle. rewrite (handle_item_computer_call _ _ Htype) in Hhandle.
  apply handle_computer_call_spec in Hhandle
    as [(Htrace & [e ->] & Hlast)|(ty & args & path & tail & Hspec)].
  - exists []. rewrite app_nil_r. split; [done|].
    split; [intros i j a b Ha; by rewrite lookup_nil in Ha|].
    split; [intros ? Hin; by apply elem_of_nil in Hin|].
    split; [done|].
    split; [intros ? Hin; by apply elem_of_nil in Hin|]. discriminate.
  - cbn zeta in Hspec. destruct Hspec as (Htrace & Hacks & Htail & Hok & Hbad).
    destruct (action_then_acknowledgments ty args path _ tail Hacks Htail)
      as [Horder Hfilter].
    eexists. split; [exact Htrace|]. split; [exact Horder|].
    split; [intros; by eexists _, _|].
    split; [intros _; exact Hfilter|].
    split.
    + intros m Hin.
      assert (EvAcknowledge m false ∈
                acknowledgments (acknowledge_safety_check_callback r)
                  (pending_checks_of item)) as Hin'.
      { rewrite <- Hfilter. apply list_elem_of_In, filter_In.
        split; [by apply list_elem_of_In|done]. }
      destruct (Hbad m Hin') as (Hraise & _ & Hlast). by split.
    + intros outs Hout. rewrite Hfilter. by apply (Hok outs).
Qed.
End Safety.


Lemma safety_checks_follow_action_witness :
  exists events,
    trace (@handle_item guarded_world guarded_click (runner refuse_all)).2 = events /\
    action_before_acknowledgment events /\
    (@handle_item guarded_world guarded_click (runner refuse_all)).1
    = Raise (ValueError ("Safety check failed: The page asks for a password. " +:+
                         "Cannot continue with unacknowledged safety checks.")).
Proof.
  destruct (@safety_checks_follow_action guarded_world guarded_click
              (runner refuse_all)
              (@handle_item guarded_world guarded_click (runner refuse_all)).1
              (@handle_item guarded_world guarded_click (runner refuse_all)).2)
    as (events & Htrace & Horder & _).
  - reflexivity.
  - vm_compute. reflexivity.
  - exists events. split; [exact Htrace|]. split; [exact Horder|].
    vm_compute. reflexivity.
Defined.

(** C4 as stated fails: on a click with two pending safety checks, the
    action is the first thing done and the acknowledgments are the last, so
    the acknowledgments do not come before the action; and when the callback
    refuses, the click has been carried out all the same. *)
Lemma acknowledgment_before_action_counterexample :
  trace (@handle_item guarded_world guarded_click (runner accept_all)).2
  = [EvAction "click" [("x", JInt 10); ("y", JInt 20); ("button", JStr "left")];
     EvScreenshot;
     EvWriteFile "runs/001/images/001.png";
     EvAcknowledge (JStr "The page asks for a password") true;
     EvAcknowledge (JStr "Unknown site") true]
  /\ ~ acknowledged_before_action
         (trace (@handle_item guarded_world guarded_click (runner accept_all)).2)
  /\ trace (@handle_item guarded_world guarded_click (runner refuse_all)).2
  = [EvAction "click" [("x", JInt 10); ("y", JInt 20); ("button", JStr "left")];
     EvScreenshot;
     EvWriteFile "runs/001/images/001.png";
     EvAcknowledge (JStr "The page asks for a password") false].
Proof.
  split; [vm_compute; reflexivity|]. split; [|vm_compute; reflexivity].
  intros Hbefore.
  assert (3 < 0)%nat as Habsurd; [|lia].
  eapply (Hbefore 3%nat 0%nat); vm_compute; reflexivity.
Qed.

(** ** Interactions *)

Lemma fold_interaction_step extras : forall k acc turn_idx prev,
  fold_left interaction_step (combine (seq (S k) (length extras)) extras)
    (acc, turn_idx, prev) =
  (acc ++ interactions_from turn_idx prev extras,
   turn_idx + Z.of_nat (length extras),
   match last extras with Some e => Extra.screenshot_path e | None => prev end).
Proof.
  induction extras as [|extra extras IH]; intros k acc turn_idx prev.
  - cbn. by rewrite app_nil_r, Z.add_0_r.
  - cbn [length seq combine fold_left interaction_step Nat.eqb interactions_from].
    rewrite IH, <- app_assoc. cbn [app].
    replace (turn_idx + 1 + Z.of_nat (length extras))
      with (turn_idx + Z.of_nat (S (length extras))) by lia.
    f_equal. rewrite last_cons. by destruct (last extras).
Qed.

Lemma build_interactions_eq extras :
  build_interactions extras =
    match extras with
    | [] => []
    | first :: rest => interactions_from 0 (Extra.screenshot_path first) rest
    end.
Proof.
  unfold build_interactions, enumerate. destruct extras as [|first rest]; [done|].
  cbn [length seq combine fold_left interaction_step Nat.eqb].
  by rewrite fold_interaction_step.
Qed.

Lemma interactions_from_length extras : forall turn_idx prev,
  length (interactions_from turn_idx prev extras) = length extras.
Proof. induction extras; intros; cbn; [done|]. by rewrite IHextras. Qed.

Lemma interactions_from_lookup extras : forall turn_idx prev i cur,
  extras !! i = Some cur ->
  interactions_from turn_idx prev extras !! i =
    Some (Interaction.create (turn_idx + Z.of_nat i + 1) (Extra.started_at cur)
            (Extra.finished_at cur) (Extra.elapsed_s cur) (Extra.response_id cur)
            (Extra.reasoning_summary cur) (Extra.message_text cur)
            (match i with
             | O => prev
             | S j => match extras !! j with
                      | Some before => Extra.screenshot_path before
                      | None => None
                      end
             end)
            (Extra.usage cur) (Extra.action cur)).
Proof.
  induction extras as [|extra extras IH]; intros turn_idx prev i cur Hcur;
    [by rewrite lookup_nil in Hcur|].
  destruct i as [|i]; cbn in Hcur |- *.
  - injection Hcur as ->. do 2 f_equal. lia.
  - rewrite (IH _ _ _ _ Hcur). do 2 f_equal; [lia|].
    destruct i as [|i]; [done|]. done.
Qed.

(** The interactions built from the recorded turns: one per turn after the
    first, numbered from 1; the N-th has the screenshot of turn N-1 and
    everything else from turn N (turns counted from 0). *)
Lemma build_interactions_spec extras :
  length (build_interactions extras) = (length extras - 1)%nat /\
  forall N before cur,
    extras !! N = Some before -> extras !! S N = Some cur ->
    build_interactions extras !! N =
      Some (Interaction.create (Z.of_nat (S N)) (Extra.started_at cur)
              (Extra.finished_at cur) (Extra.elapsed_s cur) (Extra.response_id cur)
              (Extra.reasoning_summary cur) (Extra.message_text cur)
              (Extra.screenshot_path before) (Extra.usage cur) (Extra.action cur)).
Proof.
  rewrite build_interactions_eq. destruct extras as [|first rest].
  - split; [done|]. intros N before cur Hb. by rewrite lookup_nil in Hb.
  - split; [rewrite interactions_from_length; cbn; lia|].
    intros N before cur Hb Hc. rewrite lookup_cons in Hc.
    rewrite (interactions_from_lookup _ _ _ _ _ Hc).
    destruct N as [|N]; rewrite lookup_cons in Hb; cbn iota.
    + injection Hb as ->. do 2 f_equal.
    + rewrite Hb. do 2 f_equal. lia.
Qed.

Section Interactions.
Context `{Externals}.
Local Open Scope runner_scope.

Lemma bind_ok_inv {A B} (m : M A) (k : A -> M B) r b r' :
  bind m k r = (Ok b, r') ->
  exists a r1, m r = (Ok a, r1) /\ k a r1 = (Ok b, r').
Proof.
  unfold bind. destruct (m r) as [[a|e|] r1]; try discriminate. eauto.
Qed.

Lemma turn_loop_returns fuel : forall input new_items done_ cb mx r items r',
  turn_loop fuel input new_items done_ cb mx r = (Ok items, r') ->
  exists k, turns k input new_items cb r = Some (items, r').
Proof.
  induction fuel as [|fuel IH]; intros input new_items done_ cb mx r items r';
    cbn [turn_loop]; unfold bind at 1; cbn [lift];
    destruct (keep_looping new_items) as [[]| |] eqn:Hkeep; try discriminate.
  - intros [= <- <-]. by exists 0%nat.
  - intros Hloop. apply bind_ok_inv in Hloop as (new_items1 & r1 & Hturn & Hrest).
    destruct (budget_reached mx (done_ + 1)); [discriminate|].
    apply IH in Hrest as [k Hk]. exists (S k). cbn [turns]. by rewrite Hkeep, Hturn.
  - intros [= <- <-]. by exists 0%nat.
Qed.

Lemma begin_run_keeps {B} (f : Runner -> B) req url r :
  (forall v r, f (set_clock_reads v r) = f r) ->
  (forall v r, f (set_usages v r) = f r) ->
  (forall v r, f (set_last_response_id v r) = f r) ->
  (forall v r, f (set_last_action v r) = f r) ->
  (forall v r, f (set_last_screenshot_path v r) = f r) ->
  (forall v r, f (set_trace v r) = f r) ->
  f (begin_run req url r).2 = f r.
Proof.
  intros Hc Hu Hi Ha Hs Ht. unfold begin_run.
  unfold bind at 1. cbn [clock].
  do 4 (unfold bind at 1; cbn [modify]).
  unfold bind at 1. cbn [gets].
  unfold bind at 1.
  destruct (negb _ && hasattr _ _); cbn [emit modify ret];
    unfold bind at 1; cbn [lift];
    destruct (render_prompt req url); cbn [snd ret];
    by rewrite ?Ht, ?Hs, ?Ha, ?Hi, ?Hu, ?Hc.
Qed.

(** The interactions of a result are built from all the turns the runner
    has recorded, those of earlier runs included; the run itself adds as
    many turns as it receives responses. *)
Lemma run_interactions fuel req url ps si dbg cb mx r res r' :
  run fuel req url ps si dbg cb mx r = (Ok res, r') ->
  VerficationRunResult.interactions res = build_interactions (_response_extras r') /\
  exists T,
    length (_responses r') = (length (_responses r) + T)%nat /\
    length (_response_extras r') = (length (_response_extras r) + T)%nat.
Proof.
  unfold run. intros Hrun.
  apply bind_ok_inv in Hrun as ([t0 items] & r1 & Hbegin & Hrun).
  apply bind_ok_inv in Hrun as (out & r2 & Hloop & Hfinish).
  pose proof (begin_run_keeps _response_extras req url r) as He1.
  pose proof (begin_run_keeps _responses req url r) as Hr1.
  rewrite Hbegin in He1, Hr1. cbn [snd] in He1, Hr1.
  unfold run_full_turn in Hloop.
  apply bind_ok_inv in Hloop as ([] & r1' & [= <-] & Hloop).
  apply turn_loop_returns in Hloop as [T HT].
  apply turns_records in HT as [He2 Hr2]. cbn in He2, Hr2.
  rewrite finish_run_eq in Hfinish. cbn zeta in Hfinish.
  assert (VerficationRunResult.interactions res = build_interactions (_response_extras r2)
          /\ _response_extras r' = _response_extras r2
          /\ _responses r' = _responses r2) as (Hi & He3 & Hr3).
  { destruct (_extract_json _) as [[|parsed err last]|e|]; try discriminate.
    destruct (truthy parsed).
    - destruct (_validate_acceptance_criteria_names _ _) as [[]|e|]; try discriminate.
      injection Hfinish as <- <-. unfold after_cleanup.
      by destruct (hasattr _ _).
    - injection Hfinish as <- <-. unfold after_cleanup.
      by destruct (hasattr _ _). }
  split; [by rewrite Hi, He3|].
  exists T. rewrite He3, Hr3, He2, Hr2, He1, Hr1 by done. done.
Qed.

(** On a runner that has recorded no turn yet, a run that receives [T]
    responses returns [T - 1] interactions, the N-th with the screenshot of
    response N-1 and the other fields of response N. *)
Lemma fresh_run_interactions fuel req url ps si dbg cb mx r res r' :
  _response_extras r = [] ->
  run fuel req url ps si dbg cb mx r = (Ok res, r') ->
  exists T,
    length (_responses r') = (length (_responses r) + T)%nat /\
    length (_response_extras r') = T /\
    length (VerficationRunResult.interactions res) = (T - 1)%nat /\
    forall N before cur,
      _response_extras r' !! N = Some before ->
      _response_extras r' !! S N = Some cur ->
      VerficationRunResult.interactions res !! N =
        Some (Interaction.create (Z.of_nat (S N)) (Extra.started_at cur)
                (Extra.finished_at cur) (Extra.elapsed_s cur)
                (Extra.response_id cur) (Extra.reasoning_summary cur)
                (Extra.message_text cur) (Extra.screenshot_path before)
                (Extra.usage cur) (Extra.action cur)).
Proof.
  intros Hfresh Hrun.
  apply run_interactions in Hrun as (Hi & T & Hr & He).
  rewrite Hfresh in He. cbn in He.
  destruct (build_interactions_spec (_response_extras r')) as [Hlen Hlookup].
  exists T. rewrite Hi. split; [done|]. split; [done|].
  split; [by rewrite Hlen, He|]. exact Hlookup.
Qed.
End Interactions.

(** C6 (interaction off-by-one), at the input where the code departs from
    it: [run_all] verifies two requirements with one runner.  The first run
    receives two responses and returns one interaction.  The second run
    receives one response and should return none; it returns two, the first
    left by the run before it and the second made from its own first
    response, because [run] does not reset [self._response_extras]. *)
Theorem second_run_inherits_interactions :
  exists res1 res2 r',
    @run_all two_runs_world 10 [requirement ["AC-1"]; requirement ["AC-1"]]
      "http://shop" true false false false (runner accept_all)
    = (Ok [res1; res2], r') /\
    map Interaction.model_response_id (VerficationRunResult.interactions res1)
    = [Some "resp_2"] /\
    map Interaction.model_response_id (VerficationRunResult.interactions res2)
    = [Some "resp_2"; Some "resp_3"] /\
    length (_responses r') = 3%nat.
Proof.
  eexists _, _, _. split; [vm_compute; reflexivity|].
  repeat split; reflexivity.
Qed.


(** * The display pool *)

Module PoolProperties.
Import RedisCmd DisplayPool.

(** ** The server *)

Lemma list_at_set_list_eq key l s : list_at (set_list key l s) key = l.
Proof.
  unfold list_at, set_list. cbn [lists].
  destruct l; [by rewrite lookup_delete_eq|by rewrite lookup_insert_eq].
Qed.

Lemma list_at_set_list_ne key key' l s :
  key <> key' -> list_at (set_list key l s) key' = list_at s key'.
Proof.
  intros Hne. unfold list_at, set_list. cbn [lists].
  destruct l; [by rewrite lookup_delete_ne|by rewrite lookup_insert_ne].
Qed.

Lemma exists_set_list key l s key' : exists_ (set_list key l s) key' = exists_ s key'.
Proof. reflexivity. Qed.

Lemma list_at_set_string key entry s key' :
  list_at (set_string key entry s) key' = list_at s key'.
Proof. reflexivity. Qed.

Lemma list_at_del key s key' : list_at (del key s) key' = list_at s key'.
Proof. reflexivity. Qed.

Lemma exists_set_string_ne key entry s key' :
  key <> key' -> exists_ (set_string key entry s) key' = exists_ s key'.
Proof.
  intros Hne. unfold exists_, live, set_string. cbn [strings time].
  by rewrite lookup_insert_ne.
Qed.

Lemma exists_set_ex key value seconds s :
  0 < seconds ->
  exists_ (set_string key (value, Some (time s + seconds)) s) key = true.
Proof.
  intros Hpos. unfold exists_, live, set_string. cbn [strings time].
  rewrite lookup_insert_eq.
  replace (time s <? time s + seconds) with true by (symmetry; apply Z.ltb_lt; lia).
  by apply bool_decide_eq_true.
Qed.

(** ** The keys of a pool *)

Lemma key_inj self a b : _key self a = _key self b -> a = b.
Proof.
  unfold _key. intros Heq. apply (inj (String.app (ns self))) in Heq.
  by injection Heq.
Qed.

Lemma free_not_leased self : _key self "free" <> _key self "leased".
Proof. intros Heq. apply key_inj in Heq. discriminate. Qed.

Lemma lease_not_initialized self disp :
  _key self ("lease:" +:+ disp) <> _key self "initialized".
Proof. intros Heq. apply key_inj in Heq. discriminate. Qed.

Lemma display_inj self i j : display self i = display self j -> i = j.
Proof.
  unfold display, str_int. intros Heq. injection Heq as Heq.
  apply pretty_Z_inj in Heq. lia.
Qed.

(** ** Seeding and acquiring *)

Lemma seed_if_needed_done self s :
  exists_ s (_key self "initialized") = true -> seed_if_needed self s = s.
Proof. intros Hinit. unfold seed_if_needed, set_nx. by rewrite Hinit. Qed.

Lemma seed_fold self idxs : forall s,
  let s' := fold_left (fun s i => rpush (_key self "free") (display self i) s) idxs s in
  free self s' = free self s ++ map (display self) idxs /\
  leased self s' = leased self s /\
  strings s' = strings s /\ time s' = time s.
Proof.
  induction idxs as [|i idxs IH]; intros s; cbn [fold_left map].
  - by rewrite app_nil_r.
  - destruct (IH (rpush (_key self "free") (display self i) s)) as (Hf & Hl & Hs & Ht).
    cbn zeta. rewrite Hf, Hl, Hs, Ht. unfold free, leased, rpush.
    rewrite list_at_set_list_eq, list_at_set_list_ne by apply free_not_leased.
    by rewrite <- app_assoc.
Qed.

Lemma seed_if_needed_fresh self s :
  exists_ s (_key self "initialized") = false ->
  let s' := seed_if_needed self s in
  exists_ s' (_key self "initialized") = true /\
  free self s' = free self s ++ map (display self) (indices self) /\
  leased self s' = leased self s /\
  time s' = time s.
Proof.
  intros Hinit. unfold seed_if_needed, set_nx. rewrite Hinit. cbn [negb].
  destruct (seed_fold self (indices self)
              (set_string (_key self "initialized") ("1", None) s))
    as (Hf & Hl & Hs & Ht).
  cbn zeta in *. split; [|by rewrite Hf, Hl, Ht].
  unfold exists_, live. rewrite Hs, Ht. cbn [set_string strings time].
  rewrite lookup_insert_eq. by apply bool_decide_eq_true.
Qed.

Lemma acquire_takes_last self run_id block_timeout s l disp :
  exists_ s (_key self "initialized") = true ->
  free self s = l ++ [disp] ->
  0 <= block_timeout ->
  0 < lease_ttl self ->
  exists s',
    acquire self run_id block_timeout s = (Returns disp, s') /\
    exists_ s' (_key self "initialized") = true /\
    free self s' = l /\
    leased self s' = disp :: leased self s /\
    has_lease self s' disp = true /\
    time s' = time s.
Proof.
  intros Hinit Hfree Htimeout Httl. unfold acquire.
  rewrite (seed_if_needed_done _ _ Hinit). unfold blmove_right_left.
  replace (block_timeout <? 0) with false by (symmetry; apply Z.ltb_ge; lia).
  unfold free in Hfree. rewrite Hfree, rev_app_distr. cbn [rev app].
  rewrite rev_involutive. unfold set_ex.
  replace (0 <? lease_ttl self) with true by (symmetry; apply Z.ltb_lt; lia).
  eexists. split; [reflexivity|].
  split.
  { rewrite exists_set_string_ne by apply lease_not_initialized. exact Hinit. }
  split.
  { unfold free. rewrite list_at_set_string.
    rewrite list_at_set_list_ne by (apply not_eq_sym, free_not_leased).
    apply list_at_set_list_eq. }
  split.
  { unfold leased. rewrite list_at_set_string, list_at_set_list_eq.
    by rewrite list_at_set_list_ne by apply free_not_leased. }
  split; [|reflexivity].
  unfold has_lease. by apply exists_set_ex.
Qed.

Lemma acquire_on_empty self run_id block_timeout s :
  exists_ s (_key self "initialized") = true ->
  free self s = [] ->
  (block_timeout = 0 -> acquire self run_id block_timeout s = (BlocksForever, s)) /\
  (0 < block_timeout ->
   acquire self run_id block_timeout s =
     (Raises (TimeoutError "No display available"), elapse block_timeout s)).
Proof.
  intros Hinit Hfree. unfold acquire.
  rewrite (seed_if_needed_done _ _ Hinit). unfold blmove_right_left.
  unfold free in Hfree. rewrite Hfree. cbn [rev].
  split.
  - intros ->. reflexivity.
  - intros Hpos.
    replace (block_timeout <? 0) with false by (symmetry; apply Z.ltb_ge; lia).
    replace (block_timeout =? 0) with false by (symmetry; apply Z.eqb_neq; lia).
    reflexivity.
Qed.

(** C7, as amended (acquire distinctness and timeout): on a pool of three
    displays with a positive lease time, seeded on a server that holds none
    of its keys, three consecutive acquisitions return three pairwise
    distinct displays.  A fourth acquisition with a positive [block_timeout]
    raises [TimeoutError] once the timeout has elapsed; with [block_timeout]
    0, the value the callers pass to wait without limit, it does not raise:
    the caller stays blocked for as long as no display is released. *)
Theorem three_acquires_then_no_display self s run1 run2 run3 run4 t1 t2 t3 :
  size self = 3 ->
  0 < lease_ttl self ->
  exists_ s (_key self "initialized") = false ->
  free self s = [] ->
  0 <= t1 -> 0 <= t2 -> 0 <= t3 ->
  exists d1 d2 d3 s1 s2 s3,
    acquire self run1 t1 (seed_if_needed self s) = (Returns d1, s1) /\
    acquire self run2 t2 s1 = (Returns d2, s2) /\
    acquire self run3 t3 s2 = (Returns d3, s3) /\
    d1 <> d2 /\ d1 <> d3 /\ d2 <> d3 /\
    (forall t4, 0 < t4 ->
       acquire self run4 t4 s3 =
         (Raises (TimeoutError "No display available"), elapse t4 s3)) /\
    acquire self run4 0 s3 = (BlocksForever, s3).
Proof.
  intros Hsize Httl Hinit Hfree Ht1 Ht2 Ht3.
  destruct (seed_if_needed_fresh self s Hinit) as (Hinit0 & Hfree0 & _ & _).
  cbn zeta in *. rewrite Hfree in Hfree0. unfold indices in Hfree0.
  rewrite Hsize in Hfree0. cbn in Hfree0.
  destruct (acquire_takes_last self run1 t1 _ [display self 0; display self 1]
              (display self 2) Hinit0 Hfree0 Ht1 Httl)
    as (s1 & Ha1 & Hinit1 & Hfree1 & _).
  destruct (acquire_takes_last self run2 t2 s1 [display self 0]
              (display self 1) Hinit1 Hfree1 Ht2 Httl)
    as (s2 & Ha2 & Hinit2 & Hfree2 & _).
  destruct (acquire_takes_last self run3 t3 s2 []
              (display self 0) Hinit2 Hfree2 Ht3 Httl)
    as (s3 & Ha3 & Hinit3 & Hfree3 & _).
  destruct (acquire_on_empty self run4 0 s3 Hinit3 Hfree3) as [Hblock _].
  exists (display self 2), (display self 1), (display self 0), s1, s2, s3.
  repeat split; try done.
  - intros Heq. by apply display_inj in Heq.
  - intros Heq. by apply display_inj in Heq.
  - intros Heq. by apply display_inj in Heq.
  - intros t4 Ht4. by apply (acquire_on_empty self run4 t4 s3 Hinit3 Hfree3).
  - by apply Hblock.
Qed.

(** ** Releasing *)

Lemma release_frees self disp s :
  free self (release self disp s) = disp :: free self s.
Proof.
  unfold release, free, lpush, lrem_1. rewrite list_at_del, list_at_set_list_eq.
  by rewrite list_at_set_list_ne by (apply not_eq_sym, free_not_leased).
Qed.

(** A second release is not a no-op: the display enters the free list once
    more. *)
Lemma release_twice_differs self disp s :
  release self disp (release self disp s) <> release self disp s.
Proof.
  intros Heq. apply (f_equal (fun s => length (free self s))) in Heq.
  rewrite !release_frees in Heq. cbn in Heq. lia.
Qed.

(** ** Reaping *)

Lemma has_lease_ext self s s' disp :
  strings s' = strings s -> time s' = time s ->
  has_lease self s' disp = has_lease self s disp.
Proof. intros Hs Ht. unfold has_lease, exists_, live. by rewrite Hs, Ht. Qed.

Lemma reap_fold self idxs : forall reclaimed s,
  (fold_left (reap_step self) idxs (reclaimed, s)).1 =
    reclaimed + Z.of_nat (length (without_lease self s idxs)) /\
  strings (fold_left (reap_step self) idxs (reclaimed, s)).2 = strings s /\
  time (fold_left (reap_step self) idxs (reclaimed, s)).2 = time s.
Proof.
  induction idxs as [|i idxs IH]; intros reclaimed s;
    cbn [fold_left without_lease List.filter].
  - cbn. split; [lia|done].
  - unfold reap_step at 2 4 6. fold (has_lease self s (display self i)).
    destruct (has_lease self s (display self i)) eqn:Hlease; cbn [negb].
    + apply IH.
    + match goal with |- context [fold_left _ idxs (_, ?s1)] =>
        destruct (IH (reclaimed + 1) s1) as (Hc & Hs & Ht);
        assert (without_lease self s1 idxs = without_lease self s idxs) as Hsame
      end.
      { unfold without_lease. apply filter_ext. intros j.
        by rewrite (has_lease_ext self s _ (display self j)). }
      rewrite Hc, Hs, Ht, Hsame. cbn [length]. unfold without_lease.
      split; [lia|done].
Qed.

(** [reap_expired] returns the number of displays of the pool that have no
    live lease record, whether they are in the free list or not. *)
Lemma reap_expired_count self s :
  (reap_expired self s).1 = Z.of_nat (length (without_lease self s (indices self))).
Proof. unfold reap_expired. by rewrite (proj1 (reap_fold _ _ _ _)). Qed.

(** A second call, with no lease record changed in between, returns what
    the first call returned. *)
Lemma reap_expired_twice_same_count self s :
  (reap_expired self (reap_expired self s).2).1 = (reap_expired self s).1.
Proof.
  rewrite !reap_expired_count. unfold reap_expired.
  destruct (reap_fold self (indices self) 0 s) as (_ & Hs & Ht).
  do 2 f_equal. unfold without_lease. apply filter_ext. intros j.
  by rewrite (has_lease_ext self s _ (display self j)).
Qed.

Lemma exists_del_ne key s key' :
  key <> key' -> exists_ (del key s) key' = exists_ s key'.
Proof.
  intros Hne. unfold exists_, live, del. cbn [strings time].
  by rewrite lookup_delete_ne.
Qed.

(** A released display can be acquired again. *)
Lemma released_display_is_acquired self run_id block_timeout disp s :
  exists_ s (_key self "initialized") = true ->
  free self s = [] ->
  0 <= block_timeout ->
  0 < lease_ttl self ->
  (acquire self run_id block_timeout (release self disp s)).1 = Returns disp.
Proof.
  intros Hinit Hfree Htimeout Httl.
  destruct (acquire_takes_last self run_id block_timeout (release self disp s) []
              disp) as (s' & -> & _); try done.
  - unfold release. rewrite exists_del_ne by apply lease_not_initialized.
    exact Hinit.
  - by rewrite release_frees, Hfree.
Qed.

Lemma three_acquires_then_no_display_witness :
  exists d1 d2 d3 s1 s2 s3,
    acquire pool3 1 0 (seed_if_needed pool3 fresh_redis) = (Returns d1, s1) /\
    acquire pool3 2 0 s1 = (Returns d2, s2) /\
    acquire pool3 3 0 s2 = (Returns d3, s3) /\
    d1 <> d2 /\ d1 <> d3 /\ d2 <> d3 /\
    (forall t4, 0 < t4 ->
       acquire pool3 4 t4 s3 =
         (Raises (TimeoutError "No display available"), elapse t4 s3)) /\
    acquire pool3 4 0 s3 = (BlocksForever, s3).
Proof.
  apply (three_acquires_then_no_display pool3 fresh_redis 1 2 3 4 0 0 0).
  - reflexivity.
  - reflexivity.
  - vm_compute. reflexivity.
  - vm_compute. reflexivity.
  - lia.
  - lia.
  - lia.
Defined.

(** C7 as stated fails: after three acquisitions on the pool of three
    displays, a fourth acquisition with [block_timeout] 0 does not fail with
    a timeout; it blocks. *)
Lemma fourth_acquire_blocks_counterexample :
  let s3 := (acquire pool3 3 0
               (acquire pool3 2 0
                  (acquire pool3 1 0 (seed_if_needed pool3 fresh_redis)).2).2).2 in
  free pool3 s3 = [] /\
  leased pool3 s3 = [":99"; ":100"; ":101"] /\
  (acquire pool3 4 0 s3).1 = BlocksForever /\
  (acquire pool3 4 0 s3).1 <> Raises (TimeoutError "No display available").
Proof.
  cbn zeta. split; [vm_compute; reflexivity|]. split; [vm_compute; reflexivity|].
  assert ((acquire pool3 4 0
             (acquire pool3 3 0
                (acquire pool3 2 0
                   (acquire pool3 1 0 (seed_if_needed pool3 fresh_redis)).2).2).2).1
          = BlocksForever) as Hblocks by (vm_compute; reflexivity).
  split; [exact Hblocks|]. rewrite Hblocks. discriminate.
Qed.

(** C8 (release idempotence and round trip), at the input where the code
    departs from it: the only display of a pool is acquired and then released
    twice.  The second release changes the server: the display is in the
    free list twice, and the next two acquisitions both return it, so that
    two runs hold the same display. *)
Theorem double_release_leases_display_twice :
  let s1 := (acquire pool1 1 0 fresh_redis).2 in
  let s2 := release pool1 ":99" (release pool1 ":99" s1) in
  (acquire pool1 1 0 fresh_redis).1 = Returns ":99" /\
  free pool1 (release pool1 ":99" s1) = [":99"] /\
  s2 <> release pool1 ":99" s1 /\
  free pool1 s2 = [":99"; ":99"] /\
  (acquire pool1 2 0 s2).1 = Returns ":99" /\
  (acquire pool1 3 0 (acquire pool1 2 0 s2).2).1 = Returns ":99" /\
  leased pool1 (acquire pool1 3 0 (acquire pool1 2 0 s2).2).2 = [":99"; ":99"].
Proof.
  cbn zeta. split; [vm_compute; reflexivity|]. split; [vm_compute; reflexivity|].
  split; [apply release_twice_differs|].
  repeat split; vm_compute; reflexivity.
Qed.

(** C9 (reap idempotence), at the input where the code departs from it: a
    pool of three displays has just been seeded, so that all three are free
    and none has a lease record.  The first call of [reap_expired] returns
    3, although no display was out of the free list, and a second call
    returns 3 again, not 0. *)
Theorem second_reap_reclaims_again :
  let s := seed_if_needed pool3 fresh_redis in
  free pool3 s = [":99"; ":100"; ":101"] /\
  leased pool3 s = [] /\
  (reap_expired pool3 s).1 = 3 /\
  free pool3 (reap_expired pool3 s).2 = [":101"; ":100"; ":99"] /\
  (reap_expired pool3 (reap_expired pool3 s).2).1 = 3 /\
  free pool3 (reap_expired pool3 (reap_expired pool3 s).2).2 = [":101"; ":100"; ":99"].
Proof. cbn zeta. repeat split; vm_compute; reflexivity. Qed.

End PoolProperties.

(** * The display pool in use *)

Module PoolLife.
Import RedisCmd DisplayPool PoolProperties.

Ltac keys_differ :=
  first [apply free_not_leased | apply not_eq_sym, free_not_leased].

(** ** Observations on the server after each call *)

Lemma has_lease_set_string_ne self key entry s disp :
  key <> _key self ("lease:" +:+ disp) ->
  has_lease self (set_string key entry s) disp = has_lease self s disp.
Proof. intros Hne. unfold has_lease. by apply exists_set_string_ne. Qed.

Lemma acquire_seeds_first self run_id block_timeout s :
  acquire self run_id block_timeout (seed_if_needed self s) =
  acquire self run_id block_timeout s.
Proof.
  unfold acquire. f_equal.
  destruct (exists_ s (_key self "initialized")) eqn:Hinit.
  - by rewrite !(seed_if_needed_done _ _ Hinit).
  - destruct (seed_if_needed_fresh self s Hinit) as (Hdone & _).
    by rewrite (seed_if_needed_done _ _ Hdone).
Qed.

(** What an acquisition leaves of the lease records of the other
    displays. *)
Lemma acquire_keeps_leases self run_id block_timeout s l disp s' other :
  exists_ s (_key self "initialized") = true ->
  free self s = l ++ [disp] ->
  0 <= block_timeout ->
  0 < lease_ttl self ->
  acquire self run_id block_timeout s = (Returns disp, s') ->
  other <> disp ->
  has_lease self s' other = has_lease self s other.
Proof.
  intros Hinit Hfree Htimeout Httl Hacq Hne. revert Hacq. unfold acquire.
  rewrite (seed_if_needed_done _ _ Hinit). unfold blmove_right_left.
  replace (block_timeout <? 0) with false by (symmetry; apply Z.ltb_ge; lia).
  unfold free in Hfree. rewrite Hfree, rev_app_distr. cbn [rev app].
  unfold set_ex.
  replace (0 <? lease_ttl self) with true by (symmetry; apply Z.ltb_lt; lia).
  intros [= <-]. rewrite has_lease_set_string_ne; [reflexivity|].
  intros Heq. apply key_inj in Heq. injection Heq as Heq.
  change (disp = other) in Heq. congruence.
Qed.

Lemma snoc_or_nil {A} (l : list A) : l = [] \/ exists l' x, l = l' ++ [x].
Proof. induction l using rev_ind; eauto. Qed.

Lemma acquire_each_takes self run_ids : forall taken s rest,
  0 < lease_ttl self ->
  exists_ s (_key self "initialized") = true ->
  free self s = rest ++ taken ->
  length run_ids = length taken ->
  (acquire_each self run_ids s).1 = map Returns (rev taken) /\
  exists_ (acquire_each self run_ids s).2 (_key self "initialized") = true /\
  free self (acquire_each self run_ids s).2 = rest /\
  leased self (acquire_each self run_ids s).2 = taken ++ leased self s /\
  time (acquire_each self run_ids s).2 = time s.
Proof.
  induction run_ids as [|run_id run_ids IH]; intros taken s rest Httl Hinit Hfree Hlen.
  - destruct taken; [|discriminate]. cbn. by rewrite app_nil_r in Hfree.
  - destruct (snoc_or_nil taken) as [->|(taken' & disp & ->)];
      [discriminate|].
    rewrite length_app in Hlen. cbn in Hlen.
    rewrite app_assoc in Hfree.
    destruct (acquire_takes_last self run_id 0 s (rest ++ taken') disp
                Hinit Hfree ltac:(lia) Httl)
      as (s1 & Hacq & Hinit1 & Hfree1 & Hleased1 & _ & Htime1).
    cbn [acquire_each]. rewrite Hacq.
    destruct (IH taken' s1 rest Httl Hinit1 Hfree1 ltac:(lia))
      as (Houts & Hinit2 & Hfree2 & Hleased2 & Htime2).
    destruct (acquire_each self run_ids s1) as [outs s2]. cbn [fst snd] in *.
    rewrite rev_app_distr. cbn [rev app map].
    rewrite Houts, Hleased2, Hleased1, Htime2, Htime1, <- app_assoc.
    done.
Qed.

(** ** Overwriting and commuting list keys *)

Lemma set_list_set_list_eq key l l0 s :
  set_list key l (set_list key l0 s) = set_list key l s.
Proof.
  unfold set_list. cbn [strings lists time]. f_equal.
  destruct l, l0;
    by rewrite ?delete_delete_eq, ?delete_insert_eq, ?insert_delete_eq,
               ?insert_insert_eq.
Qed.

Lemma set_list_commute key key' l l' s :
  key <> key' ->
  set_list key l (set_list key' l' s) = set_list key' l' (set_list key l s).
Proof.
  intros Hne. unfold set_list. cbn [strings lists time]. f_equal.
  destruct l, l'.
  - apply delete_delete.
  - by rewrite delete_insert_ne.
  - by rewrite insert_delete_ne.
  - by rewrite insert_insert_ne.
Qed.

(** ** Lists without some elements *)

Lemma elem_of_rev {A} (x : A) l : x ∈ rev l <-> x ∈ l.
Proof. rewrite !list_elem_of_In. symmetry. apply in_rev. Qed.

Lemma without_nil l : without [] l = l.
Proof.
  unfold without. induction l as [|x l IH]; [done|]. cbn [List.filter].
  rewrite bool_decide_eq_false_2 by apply not_elem_of_nil. cbn [negb].
  by rewrite IH.
Qed.

Lemma without_cons d gone l : without (d :: gone) l = without gone (remove_all d l).
Proof.
  unfold without, remove_all. induction l as [|x l IH]; [done|].
  cbn [List.filter]. destruct (String.eqb x d) eqn:Hxd; cbn [negb].
  - apply String.eqb_eq in Hxd as ->.
    rewrite bool_decide_eq_true_2 by apply list_elem_of_here. exact IH.
  - apply String.eqb_neq in Hxd. cbn [List.filter].
    destruct (bool_decide (x ∈ gone)) eqn:Hx.
    + apply bool_decide_eq_true in Hx.
      rewrite bool_decide_eq_true_2 by (by apply list_elem_of_further).
      exact IH.
    + apply bool_decide_eq_false in Hx.
      rewrite bool_decide_eq_false_2 by (rewrite elem_of_cons; tauto).
      cbn [negb]. by rewrite IH.
Qed.

Lemma without_skip d gone l :
  d ∉ gone -> without gone (d :: l) = d :: without gone l.
Proof.
  intros Hd. unfold without. cbn [List.filter].
  by rewrite bool_decide_eq_false_2.
Qed.

Lemma without_app gone l1 l2 :
  without gone (l1 ++ l2) = without gone l1 ++ without gone l2.
Proof. apply List.filter_app. Qed.

Lemma without_all gone l : (forall x, x ∈ l -> x ∈ gone) -> without gone l = [].
Proof.
  intros Hin. unfold without. induction l as [|x l IH]; [done|].
  cbn [List.filter]. rewrite bool_decide_eq_true_2 by (apply Hin; left).
  cbn [negb]. apply IH. intros y Hy. apply Hin. by right.
Qed.

Lemma without_without gone l : without gone (without gone l) = without gone l.
Proof.
  unfold without. induction l as [|x l IH]; [done|]. cbn [List.filter].
  destruct (bool_decide (x ∈ gone)) eqn:Hx; cbn [negb]; [exact IH|].
  cbn [List.filter]. rewrite Hx. cbn [negb]. by rewrite IH.
Qed.

Lemma elem_of_without gone l x : x ∈ without gone l <-> x ∈ l /\ x ∉ gone.
Proof.
  unfold without. rewrite !list_elem_of_In, List.filter_In, <- !list_elem_of_In.
  rewrite negb_true_iff, bool_decide_eq_false. tauto.
Qed.

(** ** Reaping, display by display *)

Lemma reap_step_skips self n s i :
  has_lease self s (display self i) = true -> reap_step self (n, s) i = (n, s).
Proof. unfold reap_step, has_lease. by intros ->. Qed.

Lemma reap_step_reclaims self n s i :
  has_lease self s (display self i) = false ->
  reap_step self (n, s) i =
    (n + 1,
     set_list (_key self "free")
       (display self i :: remove_all (display self i) (free self s))
       (set_list (_key self "leased")
          (remove_all (display self i) (leased self s)) s)).
Proof.
  unfold reap_step, has_lease. intros ->. cbn [negb]. f_equal.
  unfold lpush, lrem_0, free, leased.
  rewrite list_at_set_list_eq, set_list_set_list_eq.
  by rewrite list_at_set_list_ne by keys_differ.
Qed.

Lemma reclaimed_ne self gone s :
  gone <> [] ->
  reclaimed self gone s =
    set_list (_key self "free") (rev gone ++ without gone (free self s))
      (set_list (_key self "leased") (without gone (leased self s)) s).
Proof. by destruct gone. Qed.

Lemma without_lease_cons self s i idxs :
  without_lease self s (i :: idxs) =
    if has_lease self s (display self i) then without_lease self s idxs
    else i :: without_lease self s idxs.
Proof.
  unfold without_lease. cbn [List.filter].
  by destruct (has_lease self s (display self i)).
Qed.

Lemma reap_fold_state self idxs : forall n s,
  NoDup idxs ->
  (fold_left (reap_step self) idxs (n, s)).2 =
    reclaimed self (map (display self) (without_lease self s idxs)) s.
Proof.
  induction idxs as [|i idxs IH]; intros n s Hnodup; [done|].
  apply NoDup_cons in Hnodup as [Hi Hnodup].
  cbn [fold_left]. rewrite without_lease_cons.
  destruct (has_lease self s (display self i)) eqn:Hlease.
  - rewrite reap_step_skips by done. by apply IH.
  - rewrite reap_step_reclaims by done.
    set (d := display self i). set (F := free self s). set (L := leased self s).
    set (s1 := set_list _ (d :: _) _).
    assert (without_lease self s1 idxs = without_lease self s idxs) as Hsame.
    { unfold without_lease. apply filter_ext. intros j.
      by rewrite (has_lease_ext self s s1 (display self j)). }
    rewrite IH, Hsame by done. cbn [map]. fold d.
    set (gone := map (display self) (without_lease self s idxs)).
    assert (d ∉ gone) as Hd.
    { unfold gone, without_lease.
      change (map (display self) ?l) with (display self <$> l).
      rewrite list_elem_of_fmap.
      intros (j & Heq & Hj). apply display_inj in Heq as <-.
      apply list_elem_of_In, List.filter_In in Hj as [Hj _].
      by apply Hi, list_elem_of_In. }
    rewrite (reclaimed_ne self (d :: gone)) by done. fold F L.
    destruct (decide (gone = [])) as [Hnil|Hne].
    + rewrite Hnil. cbn [reclaimed rev app]. unfold s1.
      by rewrite !without_cons, !without_nil.
    + rewrite reclaimed_ne by done.
      assert (free self s1 = d :: remove_all d F) as ->.
      { unfold s1, free. apply list_at_set_list_eq. }
      assert (leased self s1 = remove_all d L) as ->.
      { unfold s1, leased.
        rewrite list_at_set_list_ne by keys_differ.
        apply list_at_set_list_eq. }
      unfold s1.
      rewrite (set_list_commute (_key self "leased") (_key self "free"))
        by keys_differ.
      rewrite !set_list_set_list_eq.
      rewrite without_skip, <- !without_cons by done.
      cbn [rev]. by rewrite <- app_assoc.
Qed.

Lemma NoDup_unleased self s : NoDup (unleased self s).
Proof.
  unfold unleased, without_lease.
  change (map (display self) ?l) with (display self <$> l). apply NoDup_fmap_2.
  - intros i j. apply display_inj.
  - apply NoDup_ListNoDup, List.NoDup_filter, NoDup_ListNoDup, NoDup_seq.
Qed.

Lemma strings_reclaimed self gone s : strings (reclaimed self gone s) = strings s.
Proof. by destruct gone. Qed.

Lemma time_reclaimed self gone s : time (reclaimed self gone s) = time s.
Proof. by destruct gone. Qed.

Lemma free_reclaimed self gone s :
  free self (reclaimed self gone s) = rev gone ++ without gone (free self s).
Proof.
  destruct (decide (gone = [])) as [->|Hne]; [by rewrite without_nil|].
  rewrite reclaimed_ne by done. unfold free. apply list_at_set_list_eq.
Qed.

Lemma leased_reclaimed self gone s :
  leased self (reclaimed self gone s) = without gone (leased self s).
Proof.
  destruct (decide (gone = [])) as [->|Hne]; [by rewrite without_nil|].
  rewrite reclaimed_ne by done. unfold leased.
  rewrite list_at_set_list_ne by keys_differ. apply list_at_set_list_eq.
Qed.

Lemma reap_expired_state self s :
  (reap_expired self s).2 = reclaimed self (unleased self s) s.
Proof. unfold reap_expired, unleased. apply reap_fold_state, NoDup_seq. Qed.

Lemma unleased_ext self s s' :
  strings s' = strings s -> time s' = time s -> unleased self s' = unleased self s.
Proof.
  intros Hs Ht. unfold unleased, without_lease. f_equal. apply filter_ext.
  intros j. by rewrite (has_lease_ext self s s').
Qed.

Lemma elem_of_unleased self s d :
  d ∈ unleased self s <->
  exists i, (i < Z.to_nat (size self))%nat /\ d = display self i /\
            has_lease self s d = false.
Proof.
  unfold unleased, without_lease, indices.
  change (map (display self) ?l) with (display self <$> l).
  rewrite list_elem_of_fmap. split.
  - intros (i & -> & Hi). apply list_elem_of_In, List.filter_In in Hi as [Hi Hl].
    apply in_seq in Hi. exists i. apply negb_true_iff in Hl. split; [lia|done].
  - intros (i & Hi & -> & Hl). exists i. split; [done|].
    apply list_elem_of_In, List.filter_In. split; [apply in_seq; lia|].
    by rewrite Hl.
Qed.

(** ** Acquiring: the server afterwards *)

Lemma acquire_returns self run_id block_timeout s l disp :
  exists_ s (_key self "initialized") = true ->
  free self s = l ++ [disp] ->
  0 <= block_timeout ->
  0 < lease_ttl self ->
  acquire self run_id block_timeout s =
    (Returns disp,
     set_string (_key self ("lease:" +:+ disp))
       (str_int run_id, Some (time s + lease_ttl self))
       (set_list (_key self "leased") (disp :: leased self s)
          (set_list (_key self "free") l s))).
Proof.
  intros Hinit Hfree Htimeout Httl. unfold acquire.
  rewrite (seed_if_needed_done _ _ Hinit). unfold blmove_right_left.
  replace (block_timeout <? 0) with false by (symmetry; apply Z.ltb_ge; lia).
  unfold free in Hfree. rewrite Hfree, rev_app_distr. cbn [rev app].
  rewrite rev_involutive. unfold set_ex.
  replace (0 <? lease_ttl self) with true by (symmetry; apply Z.ltb_lt; lia).
  unfold leased. by rewrite list_at_set_list_ne by keys_differ.
Qed.

Lemma has_lease_until self key s disp v deadline dt :
  key = _key self ("lease:" +:+ disp) ->
  has_lease self (elapse dt (set_string key (v, Some deadline) s)) disp =
    bool_decide (time s + dt < deadline).
Proof.
  intros ->. unfold has_lease, exists_, live, elapse, set_string.
  cbn [strings time]. rewrite lookup_insert_eq.
  destruct (Z.ltb_spec (time s + dt) deadline).
  - rewrite bool_decide_eq_true_2 by done. by rewrite bool_decide_eq_true_2.
  - rewrite bool_decide_eq_false_2 by (by intros [? [=]]).
    by rewrite bool_decide_eq_false_2 by lia.
Qed.

Lemma acquire_each_seeds_first self run_ids s :
  run_ids <> [] ->
  acquire_each self run_ids (seed_if_needed self s) = acquire_each self run_ids s.
Proof.
  destruct run_ids as [|run_id rest]; [done|]. intros _. cbn [acquire_each].
  by rewrite acquire_seeds_first.
Qed.

Lemma exists_release_ne self disp s key :
  key = _key self "initialized" ->
  exists_ (release self disp s) key = exists_ s key.
Proof.
  intros ->. unfold release.
  by rewrite exists_del_ne by apply lease_not_initialized.
Qed.

(** ** Seeding and acquiring *)

(** Seeding twice is seeding once: the second call finds the marker
    [initialized] and leaves the server as it is, whatever the server held
    before the first call. *)
Theorem seed_if_needed_idempotent self s :
  seed_if_needed self (seed_if_needed self s) = seed_if_needed self s.
Proof.
  destruct (exists_ s (_key self "initialized")) eqn:Hinit.
  - by rewrite !(seed_if_needed_done _ _ Hinit).
  - destruct (seed_if_needed_fresh self s Hinit) as (Hdone & _).
    by rewrite (seed_if_needed_done _ _ Hdone).
Qed.

(** On a server that holds none of the keys of the pool, as many
    acquisitions as the pool has displays return each display once, from the
    last display to the first; the free list is then empty, the leased list
    holds the displays, and one more acquisition blocks. *)
Theorem acquisitions_take_each_display_once self s run_ids :
  0 < lease_ttl self ->
  exists_ s (_key self "initialized") = false ->
  free self s = [] ->
  length run_ids = length (displays self) ->
  let s' := (acquire_each self run_ids (seed_if_needed self s)).2 in
  (acquire_each self run_ids (seed_if_needed self s)).1
    = map Returns (rev (displays self)) /\
  NoDup (displays self) /\
  free self s' = [] /\
  leased self s' = displays self ++ leased self s /\
  forall run_id, acquire self run_id 0 s' = (BlocksForever, s').
Proof.
  intros Httl Hinit Hfree Hlen.
  destruct (seed_if_needed_fresh self s Hinit) as (Hinit0 & Hfree0 & Hleased0 & _).
  cbn zeta in *. rewrite Hfree in Hfree0. cbn [app] in Hfree0.
  destruct (acquire_each_takes self run_ids (displays self)
              (seed_if_needed self s) [] Httl Hinit0 Hfree0 Hlen)
    as (Houts & Hinit1 & Hfree1 & Hleased1 & _).
  split; [exact Houts|]. split.
  { unfold displays, indices.
    change (map (display self) ?l) with (display self <$> l).
    apply NoDup_fmap_2; [intros i j; apply display_inj|apply NoDup_seq]. }
  split; [exact Hfree1|]. split; [by rewrite Hleased1, Hleased0|].
  intros run_id. by apply (acquire_on_empty self run_id 0 _ Hinit1 Hfree1).
Qed.

(** A released display goes to the far end of the free list: it is handed
    out again only after every display that was free when it was
    released. *)
Theorem released_display_is_reused_last self disp s run_ids :
  0 < lease_ttl self ->
  exists_ s (_key self "initialized") = true ->
  length run_ids = S (length (free self s)) ->
  (acquire_each self run_ids (release self disp s)).1
    = map Returns (rev (free self s) ++ [disp]).
Proof.
  intros Httl Hinit Hlen.
  destruct (acquire_each_takes self run_ids (disp :: free self s)
              (release self disp s) [] Httl) as (Houts & _).
  - by rewrite exists_release_ne.
  - by rewrite release_frees.
  - exact Hlen.
  - exact Houts.
Qed.

(** ** Leases in time *)

(** A lease lasts [lease_ttl] seconds from the acquisition.  While it
    lasts, [reap_expired] leaves the display in the leased list; once it has
    run out, [reap_expired] takes the display out of the leased list and
    puts it back into the free list, whether or not the run that acquired it
    has released it. *)
Theorem unrenewed_lease_is_reclaimed self run_id s l i :
  (i < Z.to_nat (size self))%nat ->
  exists_ s (_key self "initialized") = true ->
  free self s = l ++ [display self i] ->
  0 < lease_ttl self ->
  exists s1,
    acquire self run_id 0 s = (Returns (display self i), s1) /\
    forall dt, 0 <= dt ->
      let s2 := (reap_expired self (elapse dt s1)).2 in
      (dt < lease_ttl self ->
         has_lease self (elapse dt s1) (display self i) = true /\
         display self i ∈ leased self s2) /\
      (lease_ttl self <= dt ->
         has_lease self (elapse dt s1) (display self i) = false /\
         (display self i ∉ leased self s2) /\
         display self i ∈ free self s2).
Proof.
  intros Hi Hinit Hfree Httl. eexists. split.
  { by apply (acquire_returns self run_id 0 s l). }
  intros dt Hdt. cbn zeta. rewrite reap_expired_state.
  rewrite free_reclaimed, leased_reclaimed.
  rewrite (has_lease_until self _ _ (display self i)) by done.
  split.
  - intros Hlt. rewrite bool_decide_eq_true_2 by (cbn [time set_list]; lia).
    split; [done|].
    apply elem_of_without. split.
    + unfold leased.
      change (list_at (elapse dt (set_string ?k ?e ?x)) ?key) with (list_at x key).
      rewrite list_at_set_list_eq. apply list_elem_of_here.
    + rewrite elem_of_unleased. intros (j & _ & _ & Hl).
      rewrite (has_lease_until self _ _ (display self i)) in Hl by done.
      by rewrite bool_decide_eq_true_2 in Hl by (cbn [time set_list]; lia).
  - intros Hge. rewrite bool_decide_eq_false_2 by (cbn [time set_list]; lia).
    split; [done|].
    assert (display self i ∈
              unleased self (elapse dt
                (set_string (_key self ("lease:" +:+ display self i))
                   (str_int run_id, Some (time s + lease_ttl self))
                   (set_list (_key self "leased") (display self i :: leased self s)
                      (set_list (_key self "free") l s))))) as Hgone.
    { apply elem_of_unleased. exists i. split; [done|]. split; [done|].
      rewrite (has_lease_until self _ _ (display self i)) by done.
      by rewrite bool_decide_eq_false_2 by (cbn [time set_list]; lia). }
    split.
    + rewrite elem_of_without. tauto.
    + apply elem_of_app. left. by apply elem_of_rev.
Qed.

(** A heartbeat renews a live lease for [lease_ttl] seconds from now, and
    does nothing when the lease has run out or was never there: it cannot
    bring a lease back. *)
Theorem heartbeat_renews_only_a_live_lease self disp s :
  0 < lease_ttl self ->
  (has_lease self s disp = false ->
     forall extend_seconds, heartbeat self disp extend_seconds s = s) /\
  (has_lease self s disp = true ->
     forall dt,
       has_lease self (elapse dt (heartbeat self disp None s)) disp
         = bool_decide (dt < lease_ttl self)).
Proof.
  intros Httl. unfold has_lease, heartbeat, expire, exists_. split.
  - intros Hdead extend_seconds.
    destruct (live s (_key self ("lease:" +:+ disp))) as [v|]; [|done].
    by rewrite bool_decide_eq_true_2 in Hdead.
  - intros Hlive dt.
    destruct (live s (_key self ("lease:" +:+ disp))) as [v|] eqn:Hv;
      [|by rewrite bool_decide_eq_false_2 in Hlive by (by intros [? [=]])].
    replace (0 <? lease_ttl self) with true by (symmetry; apply Z.ltb_lt; lia).
    fold (exists_ (elapse dt (set_string (_key self ("lease:" +:+ disp))
                               (v, Some (time s + lease_ttl self)) s))
            (_key self ("lease:" +:+ disp))).
    fold (has_lease self (elapse dt (set_string (_key self ("lease:" +:+ disp))
                               (v, Some (time s + lease_ttl self)) s)) disp).
    rewrite (has_lease_until self _ _ disp) by done.
    apply bool_decide_ext. lia.
Qed.

(** ** Reaping *)

(** What [reap_expired] does to the server: the displays of the pool that
    have no live lease record leave both lists and then head the free list,
    each once; every other entry of the two lists stays where it is, and no
    lease record changes. *)
Theorem reap_expired_reclaims_unleased self s :
  let gone := unleased self s in
  let s' := (reap_expired self s).2 in
  NoDup gone /\
  free self s' = rev gone ++ without gone (free self s) /\
  leased self s' = without gone (leased self s) /\
  strings s' = strings s /\ time s' = time s.
Proof.
  cbn zeta. rewrite reap_expired_state.
  rewrite free_reclaimed, leased_reclaimed, strings_reclaimed, time_reclaimed.
  split; [apply NoDup_unleased|done].
Qed.

(** On the server, a second [reap_expired] changes nothing (the number it
    returns apart). *)
Theorem reap_expired_idempotent self s :
  (reap_expired self (reap_expired self s).2).2 = (reap_expired self s).2.
Proof.
  rewrite !reap_expired_state.
  rewrite (unleased_ext self s (reclaimed self (unleased self s) s))
    by (by rewrite ?strings_reclaimed, ?time_reclaimed).
  set (gone := unleased self s).
  destruct (decide (gone = [])) as [Hnil|Hne]; [by rewrite Hnil|].
  rewrite (reclaimed_ne self gone (reclaimed self gone s)) by done.
  rewrite free_reclaimed, leased_reclaimed, without_app, !without_without.
  rewrite (without_all gone (rev gone)) by (intros x; by rewrite elem_of_rev).
  cbn [app]. rewrite reclaimed_ne by done.
  rewrite (set_list_commute (_key self "leased") (_key self "free")) by keys_differ.
  by rewrite !set_list_set_list_eq.
Qed.

(** When [reap_expired] runs on a server that holds none of the keys of the
    pool (the periodic task runs before the first acquisition), it fills the
    free list without setting the marker [initialized]; the first
    acquisition then seeds the pool on top of that, so that every display is
    in the free list twice and twice as many acquisitions as there are
    displays return: each display is handed out to two runs. *)
Theorem reap_before_seed_doubles_the_pool self s run_ids :
  0 < lease_ttl self ->
  exists_ s (_key self "initialized") = false ->
  free self s = [] ->
  (forall disp, has_lease self s disp = false) ->
  length run_ids = (2 * length (displays self))%nat ->
  let s1 := (reap_expired self s).2 in
  free self s1 = rev (displays self) /\
  free self (seed_if_needed self s1) = rev (displays self) ++ displays self /\
  (acquire_each self run_ids s1).1
    = map Returns (rev (displays self) ++ displays self).
Proof.
  intros Httl Hinit Hfree Hnolease Hlen. cbn zeta.
  assert (unleased self s = displays self) as Hall.
  { unfold unleased, displays, without_lease. f_equal.
    induction (indices self) as [|i idxs IH]; [done|]. cbn [List.filter].
    by rewrite Hnolease, IH. }
  rewrite reap_expired_state, Hall.
  assert (exists_ (reclaimed self (displays self) s) (_key self "initialized")
          = false) as Hinit1.
  { unfold exists_, live. by rewrite strings_reclaimed, time_reclaimed. }
  destruct (seed_if_needed_fresh self _ Hinit1) as (Hinit2 & Hfree2 & _).
  cbn zeta in *. rewrite free_reclaimed, Hfree in *.
  unfold without at 1. cbn [List.filter]. rewrite app_nil_r.
  unfold without in Hfree2. cbn [List.filter] in Hfree2.
  rewrite app_nil_r in Hfree2. fold (displays self) in Hfree2.
  split; [done|]. split; [done|].
  destruct run_ids as [|run_id rest].
  { destruct (displays self); [done|discriminate]. }
  rewrite <- acquire_each_seeds_first by done.
  destruct (acquire_each_takes self (run_id :: rest)
              (rev (displays self) ++ displays self)
              (seed_if_needed self (reclaimed self (displays self) s)) []
              Httl Hinit2 Hfree2) as (Houts & _).
  { rewrite length_app, length_rev. lia. }
  by rewrite Houts, rev_app_distr, rev_involutive.
Qed.

(** [acquire] is its two commands in a row. *)
Lemma acquire_move_then_lease self run_id block_timeout s :
  acquire self run_id block_timeout s =
    match acquire_move self block_timeout s with
    | (Moved disp, s) =>
        match acquire_lease self run_id disp s with
        | (None, s) => (Returns disp, s)
        | (Some refusal, s) => (Raises (ResponseError refusal), s)
        end
    | (Nil, s) => (Raises (TimeoutError "No display available"), s)
    | (Blocked, s) => (BlocksForever, s)
    | (Refused msg, s) => (Raises (ResponseError msg), s)
    end.
Proof. reflexivity. Qed.

(** The two commands of [acquire] are separate: when [reap_expired] is
    served between them, it finds the display moved and without a lease
    record, and puts it back into the free list.  The acquisition then
    completes, and the display is in the free list while the run holds its
    lease. *)
Theorem reap_between_move_and_lease self run_id s l i :
  (i < Z.to_nat (size self))%nat ->
  exists_ s (_key self "initialized") = true ->
  free self s = l ++ [display self i] ->
  has_lease self s (display self i) = false ->
  0 < lease_ttl self ->
  exists s1 s3,
    acquire_move self 0 s = (Moved (display self i), s1) /\
    acquire_lease self run_id (display self i) (reap_expired self s1).2 = (None, s3) /\
    display self i ∈ free self s3 /\
    (display self i ∉ leased self s3) /\
    has_lease self s3 (display self i) = true.
Proof.
  intros Hi Hinit Hfree Hnolease Httl. unfold acquire_move, acquire_lease.
  rewrite (seed_if_needed_done _ _ Hinit). unfold blmove_right_left.
  cbn [Z.ltb Z.compare]. unfold free in Hfree. rewrite Hfree, rev_app_distr.
  cbn [rev app]. rewrite rev_involutive. unfold set_ex.
  replace (0 <? lease_ttl self) with true by (symmetry; apply Z.ltb_lt; lia).
  eexists _, _. split; [reflexivity|]. split; [reflexivity|].
  rewrite reap_expired_state.
  set (s1 := set_list (_key self "leased") _ _).
  assert (display self i ∈ unleased self s1) as Hgone.
  { apply elem_of_unleased. exists i. split; [done|]. split; [done|].
    by rewrite (has_lease_ext self s s1). }
  change (free self (set_string ?k ?e ?x)) with (free self x).
  change (leased self (set_string ?k ?e ?x)) with (leased self x).
  rewrite free_reclaimed, leased_reclaimed. split.
  { apply elem_of_app. left. by apply elem_of_rev. }
  split; [rewrite elem_of_without; tauto|].
  unfold has_lease. by apply exists_set_ex.
Qed.

(** ** The theorems at work on the pools of the examples *)

Lemma acquisitions_take_each_display_once_witness :
  (acquire_each Examples.pool3 [1; 2; 3] (seed_if_needed Examples.pool3 fresh_redis)).1
    = [Returns ":101"; Returns ":100"; Returns ":99"].
Proof.
  refine (proj1 (acquisitions_take_each_display_once Examples.pool3 fresh_redis
                   [1; 2; 3] _ _ _ _)).
  - reflexivity.
  - vm_compute. reflexivity.
  - vm_compute. reflexivity.
  - reflexivity.
Defined.

Lemma released_display_is_reused_last_witness :
  let s := (acquire Examples.pool3 1 0 fresh_redis).2 in
  (acquire_each Examples.pool3 [2; 3; 4] (release Examples.pool3 ":101" s)).1
    = [Returns ":100"; Returns ":99"; Returns ":101"].
Proof.
  refine (released_display_is_reused_last Examples.pool3 ":101"
            (acquire Examples.pool3 1 0 fresh_redis).2 [2; 3; 4] _ _ _).
  - reflexivity.
  - vm_compute. reflexivity.
  - vm_compute. reflexivity.
Defined.

Lemma unrenewed_lease_is_reclaimed_witness :
  exists s1,
    acquire Examples.pool3 1 0 (seed_if_needed Examples.pool3 fresh_redis)
      = (Returns ":101", s1) /\
    has_lease Examples.pool3 (elapse 119 s1) ":101" = true /\
    has_lease Examples.pool3 (elapse 120 s1) ":101" = false /\
    ":101" ∈ free Examples.pool3 (reap_expired Examples.pool3 (elapse 120 s1)).2.
Proof.
  destruct (unrenewed_lease_is_reclaimed Examples.pool3 1
              (seed_if_needed Examples.pool3 fresh_redis) [":99"; ":100"] 2)
    as (s1 & Hacq & Hlife).
  - vm_compute. lia.
  - vm_compute. reflexivity.
  - vm_compute. reflexivity.
  - reflexivity.
  - exists s1. split; [exact Hacq|].
    destruct (Hlife 119 ltac:(lia)) as [Hlive _].
    destruct (Hlife 120 ltac:(lia)) as [_ Hdead].
    destruct (Hlive ltac:(reflexivity)) as [Hl _].
    destruct (Hdead ltac:(cbn; lia)) as (Hd & _ & Hfree).
    by repeat split.
Defined.

Lemma heartbeat_renews_only_a_live_lease_witness :
  let s := (acquire Examples.pool3 1 0 fresh_redis).2 in
  heartbeat Examples.pool3 ":100" None s = s /\
  has_lease Examples.pool3
    (elapse 100 (heartbeat Examples.pool3 ":101" None (elapse 100 s))) ":101" = true.
Proof.
  cbn zeta. split.
  - refine (proj1 (heartbeat_renews_only_a_live_lease Examples.pool3 ":100"
                     (acquire Examples.pool3 1 0 fresh_redis).2 _) _ None).
    + reflexivity.
    + vm_compute. reflexivity.
  - refine (proj2 (heartbeat_renews_only_a_live_lease Examples.pool3 ":101"
                     (elapse 100 (acquire Examples.pool3 1 0 fresh_redis).2) _) _ 100).
    + reflexivity.
    + vm_compute. reflexivity.
Defined.

Lemma reap_before_seed_doubles_the_pool_witness :
  (acquire_each Examples.pool1 [1; 2] (reap_expired Examples.pool1 fresh_redis).2).1
    = [Returns ":99"; Returns ":99"].
Proof.
  refine (proj2 (proj2 (reap_before_seed_doubles_the_pool Examples.pool1 fresh_redis
                          [1; 2] _ _ _ _ _))).
  - reflexivity.
  - vm_compute. reflexivity.
  - vm_compute. reflexivity.
  - intros disp. unfold has_lease, exists_, live, fresh_redis. cbn [strings].
    rewrite lookup_empty. by apply bool_decide_eq_false_2; intros [? [=]].
  - reflexivity.
Defined.

Lemma reap_between_move_and_lease_witness :
  exists s1 s3,
    acquire_move Examples.pool3 0 (seed_if_needed Examples.pool3 fresh_redis)
      = (Moved ":101", s1) /\
    acquire_lease Examples.pool3 1 ":101" (reap_expired Examples.pool3 s1).2
      = (None, s3) /\
    ":101" ∈ free Examples.pool3 s3 /\
    (":101" ∉ leased Examples.pool3 s3) /\
    has_lease Examples.pool3 s3 ":101" = true.
Proof.
  apply (reap_between_move_and_lease Examples.pool3 1
           (seed_if_needed Examples.pool3 fresh_redis) [":99"; ":100"] 2).
  - vm_compute. lia.
  - vm_compute. reflexivity.
  - vm_compute. reflexivity.
  - vm_compute. reflexivity.
  - reflexivity.
Defined.

End PoolLife.

(** * The runner: what a run adds up *)

Section Accounts.
Context `{Externals}.
Local Open Scope runner_scope.

Lemma advances_ret {A} (a : A) : advances 0 (ret a).
Proof. intros r a' r' [= _ <-]. lia. Qed.

Lemma advances_raise {A} n e : advances n (@raise A e).
Proof. intros r a r' [=]. Qed.

Lemma advances_lift {A} (x : result A) : advances 0 (lift x).
Proof. intros r a r' [= _ <-]. lia. Qed.

Lemma advances_gets {A} (f : Runner -> A) : advances 0 (gets f).
Proof. intros r a r' [= _ <-]. lia. Qed.

Lemma advances_modify g :
  (forall r, step_counter (g r) = step_counter r) -> advances 0 (modify g).
Proof. intros Hg r a r' [= _ <-]. rewrite Hg. lia. Qed.

Lemma advances_emit e : advances 0 (emit e).
Proof. by apply advances_modify. Qed.

Lemma advances_clock : advances 0 clock.
Proof. intros r a r' [= _ <-]. cbn. lia. Qed.

Lemma advances_incr : advances 1 incr_step_counter.
Proof. intros r a r' [= _ <-]. reflexivity. Qed.

Lemma advances_bind {A B} n k (m : M A) (f : A -> M B) :
  advances n m -> (forall a, advances k (f a)) -> advances (n + k) (bind m f).
Proof.
  intros Hm Hf r b r'. unfold bind.
  destruct (m r) as [[a| |] r1] eqn:Hmr; try discriminate.
  intros Hfa. rewrite (Hf a r1 b r' Hfa), (Hm r a r1 Hmr). lia.
Qed.

Lemma advances_bind0 {A B} k (m : M A) (f : A -> M B) :
  advances 0 m -> (forall a, advances k (f a)) -> advances k (bind m f).
Proof. intros Hm Hf. by apply (advances_bind 0 k). Qed.

(** A step of a proof that a computation leaves the step counter alone. *)
Ltac still :=
  match goal with
  | |- advances _ (bind _ _) => apply advances_bind0; [|intros ?; cbv beta zeta]
  | |- advances _ (ret _) => apply advances_ret
  | |- advances _ (raise _) => apply advances_raise
  | |- advances _ (lift _) => apply advances_lift
  | |- advances _ (gets _) => apply advances_gets
  | |- advances _ (emit _) => apply advances_emit
  | |- advances _ clock => apply advances_clock
  | |- advances _ (modify _) => apply advances_modify; intros; reflexivity
  | |- advances _ (if ?b then _ else _) => destruct b
  | |- advances _ (match ?x with _ => _ end) => destruct x
  end.

Lemma advances_acknowledge_all checks : advances 0 (acknowledge_all checks).
Proof.
  induction checks as [|check checks IH]; cbn [acknowledge_all]; [apply advances_ret|].
  apply advances_bind0; [apply advances_lift|intros message].
  apply advances_bind0; [apply advances_gets|intros cb].
  apply advances_bind0; [apply advances_emit|intros _].
  destruct (cb message); [exact IH|apply advances_raise].
Qed.

Lemma advances_handle_message item : advances 1 (handle_message item).
Proof.
  unfold handle_message.
  apply advances_bind0; [apply advances_gets|intros ps].
  apply advances_bind0; [repeat still|intros _]. apply advances_incr.
Qed.

Lemma advances_handle_function_call item : advances 1 (handle_function_call item).
Proof.
  unfold handle_function_call.
  do 3 (apply advances_bind0; [apply advances_lift|intros ?]).
  apply (advances_bind 1 0); [apply advances_incr|intros _].
  repeat still.
Qed.

Lemma advances_handle_computer_call item : advances 1 (handle_computer_call item).
Proof.
  unfold handle_computer_call.
  do 2 (apply advances_bind0; [apply advances_lift|intros ?]). cbv zeta.
  apply advances_bind0; [apply advances_gets|intros c].
  apply advances_bind0; [repeat still|intros method].
  apply advances_bind0; [apply advances_emit|intros _].
  apply advances_bind0; [apply advances_gets|intros history].
  apply advances_bind0; [apply advances_emit|intros _].
  apply advances_bind0; [apply advances_gets|intros n].
  apply advances_bind0; [apply advances_gets|intros dir].
  apply advances_bind0; [apply advances_emit|intros _].
  apply (advances_bind 1 0); [apply advances_incr|intros _].
  apply advances_bind0; [apply advances_lift|intros checks].
  apply advances_bind0; [apply advances_acknowledge_all|intros _].
  repeat still.
Qed.

Lemma eq_str_exclusive type a b :
  a <> b -> eq_str type a = true -> eq_str type b = false.
Proof.
  destruct type; try discriminate. cbn. intros Hne Ha.
  apply String.eqb_eq in Ha as ->. by apply String.eqb_neq.
Qed.

Lemma advances_handle_item item :
  advances (if is_step item then 1 else 0) (handle_item item).
Proof.
  unfold handle_item, is_step. intros r out r'. unfold bind at 1. cbn [lift].
  destruct (getitem item "type") as [type| |]; try discriminate.
  destruct (eq_str type "message") eqn:Hm.
  - rewrite (eq_str_exclusive type "message" "function_call") by done.
    rewrite (eq_str_exclusive type "message" "computer_call") by done.
    cbn [orb]. intros Hrun. apply bind_ok_inv in Hrun as ([] & r1 & Hmsg & [= _ <-]).
    by apply advances_handle_message in Hmsg.
  - unfold bind at 1. cbn [ret orb].
    destruct (eq_str type "function_call") eqn:Hf; cbn [orb].
    + apply advances_handle_function_call.
    + destruct (eq_str type "computer_call").
      * apply advances_handle_computer_call.
      * apply advances_ret.
Qed.

Lemma advances_handle_items items :
  advances (Z.of_nat (length (List.filter is_step items))) (handle_items items).
Proof.
  induction items as [|item items IH]; cbn [handle_items List.filter];
    [apply advances_ret|].
  intros r out r' Hrun.
  apply bind_ok_inv in Hrun as (o1 & r1 & Hitem & Hrun).
  apply bind_ok_inv in Hrun as (o2 & r2 & Hitems & [= _ <-]).
  apply advances_handle_item in Hitem. apply IH in Hitems.
  rewrite Hitems, Hitem. destruct (is_step item); cbn [length]; lia.
Qed.

Lemma usages_record_usage_and_id response r :
  _usages (record_usage_and_id response r)
    = _usages r ++ option_list (usage_obj_of response).
Proof.
  unfold record_usage_and_id, usage_obj_of.
  destruct (getk response "usage") as [| | | | | |u];
    try (destruct (dict_get "id" response); cbn; by rewrite app_nil_r).
  destruct (usage_of_dict u); cbn; [|by rewrite app_nil_r].
  by destruct (dict_get "id" response).
Qed.

Lemma outputs_of_response response output outs :
  getitem (JObj response) "output" = Ok output ->
  iter output = Ok outs ->
  outputs_of response = outs.
Proof.
  unfold outputs_of. cbn [getitem].
  destruct (dict_get "output" response); [|discriminate].
  intros [= ->] Hiter. by rewrite Hiter.
Qed.

(** What a completed turn adds to the accounts of the runner. *)
Lemma one_turn_accounts input new_items cb r new_items' r' :
  one_turn input new_items cb r = (Ok new_items', r') ->
  let response := create_response (trace r) (input ++ new_items) in
  _responses r' = _responses r ++ [response] /\
  step_counter r' = step_counter r + steps_of [response] /\
  _usages r' = _usages r ++ option_list (usage_obj_of response).
Proof.
  intros Hturn. cbn zeta.
  pose proof (one_turn_records _ _ _ _ _ _ Hturn) as Hrec. cbn zeta in Hrec.
  destruct Hrec as (extra & outs & _ & Hresponses & (output & Houtput & Hiter) & _).
  split; [exact Hresponses|].
  unfold steps_of. cbn [map concat]. rewrite app_nil_r.
  rewrite (outputs_of_response _ _ _ Houtput Hiter).
  revert Hturn. unfold one_turn.
  unfold bind at 1. cbn [clock].
  unfold bind at 1. cbn [gets].
  unfold bind at 1. cbn [emit modify].
  unfold bind at 1. cbn [modify].
  unfold bind at 1. cbn [modify].
  unfold bind at 1. cbn [modify].
  unfold bind at 1. cbn [modify].
  unfold bind at 1. cbn [gets].
  match goal with |- context [if ?c then raise _ else _] => destruct c end;
    [discriminate|].
  unfold bind at 1. cbn [gets].
  unfold bind at 1. cbn [gets].
  unfold bind at 1. cbn [emit modify].
  unfold bind at 1. cbn [lift].
  cbn [trace set_clock_reads]. rewrite Houtput.
  unfold bind at 1. cbn [lift]. rewrite Hiter.
  unfold bind at 1.
  match goal with |- context [handle_items outs ?ra] =>
    pose proof (keeps_handle_items _usages
                  ltac:(done) ltac:(done) ltac:(done) ltac:(done) outs ra) as Husages;
    pose proof (advances_handle_items outs ra) as Hsteps;
    destruct (handle_items outs ra) as [[handled| |] rb]; try discriminate
  end.
  specialize (Hsteps handled rb eq_refl).
  cbn [snd _usages step_counter set_trace set_responses set_last_action
       set_last_screenshot_path set_clock_reads] in Husages, Hsteps.
  rewrite usages_record_usage_and_id in Husages.
  rewrite (record_usage_and_id_keeps step_counter) in Hsteps by done.
  cbn [_usages step_counter set_trace set_clock_reads] in Husages, Hsteps.
  destruct (scan_outputs outs JNull JNull) as [reasoning_summary message_text].
  unfold bind at 1. cbn [clock].
  unfold bind at 1. cbn [gets].
  unfold bind at 1. cbn [emit modify].
  unfold bind at 1. cbn [modify].
  unfold bind at 1.
  destruct cb; cbn [emit modify ret]; intros [= <- <-]; cbn; by rewrite Hsteps, Husages.
Qed.

Lemma omap_snoc {A B} (f : A -> option B) l x :
  omap f (l ++ [x]) = omap f l ++ option_list (f x).
Proof. rewrite omap_app. cbn. by destruct (f x). Qed.

Lemma steps_of_app l1 l2 : steps_of (l1 ++ l2) = steps_of l1 + steps_of l2.
Proof.
  unfold steps_of. rewrite map_app, concat_app, List.filter_app, length_app. lia.
Qed.

Lemma turns_accounts k : forall input new_items cb r items r',
  turns k input new_items cb r = Some (items, r') ->
  exists responses,
    length responses = k /\
    _responses r' = _responses r ++ responses /\
    step_counter r' = step_counter r + steps_of responses /\
    _usages r' = _usages r ++ omap usage_obj_of responses.
Proof.
  induction k as [|k IH]; intros input new_items cb r items r'; cbn [turns].
  - intros [= _ <-]. exists []. rewrite !app_nil_r. unfold steps_of. cbn.
    split; [done|]. split; [done|]. split; [lia|done].
  - destruct (keep_looping new_items) as [[]| |]; try discriminate.
    destruct (one_turn input new_items cb r) as [[new_items1| |] r1] eqn:Hturn;
      try discriminate.
    intros Hrest. apply IH in Hrest as (responses & Hlen & Hr & Hs & Hu).
    apply one_turn_accounts in Hturn as (Hr1 & Hs1 & Hu1).
    eexists (_ :: responses). split; [by rewrite <- Hlen|].
    rewrite Hr, Hs, Hu, Hr1, Hs1, Hu1, <- !app_assoc.
    split; [done|]. split.
    + match goal with |- context [steps_of (?x :: responses)] =>
        rewrite (steps_of_app [x] responses : steps_of (x :: responses) = _)
      end. lia.
    + f_equal. change (omap usage_obj_of (?x :: responses))
        with (match usage_obj_of x with
              | Some u => u :: omap usage_obj_of responses
              | None => omap usage_obj_of responses
              end).
      by destruct (usage_obj_of _).
Qed.

Lemma begin_run_usages req url r x r1 :
  begin_run req url r = (Ok x, r1) -> _usages r1 = [].
Proof.
  unfold begin_run.
  unfold bind at 1. cbn [clock].
  do 4 (unfold bind at 1; cbn [modify]).
  unfold bind at 1. cbn [gets].
  unfold bind at 1.
  destruct (negb _ && hasattr _ _); cbn [emit modify ret];
    unfold bind at 1; cbn [lift];
    destruct (render_prompt req url); cbn [ret]; intros [= _ <-]; reflexivity.
Qed.

(** The accounts of a run that returns a result: the responses it
    received, the steps they hold and the usages they report. *)
Lemma run_accounts fuel req url ps si dbg cb mx r res r' :
  run fuel req url ps si dbg cb mx r = (Ok res, r') ->
  exists responses,
    _responses r' = _responses r ++ responses /\
    step_counter r' = step_counter r + steps_of responses /\
    VerficationRunResult.steps_taken res = step_counter r' - 2 /\
    VerficationRunResult.usage_total res =
      match omap usage_obj_of responses with
      | [] => None
      | usages => Some (Usage.sum usages)
      end.
Proof.
  unfold run. intros Hrun.
  apply bind_ok_inv in Hrun as ([t0 items] & r1 & Hbegin & Hrun).
  apply bind_ok_inv in Hrun as (out & r2 & Hloop & Hfinish).
  pose proof (begin_run_keeps step_counter req url r) as Hs1.
  pose proof (begin_run_keeps _responses req url r) as Hr1.
  pose proof (begin_run_usages _ _ _ _ _ Hbegin) as Hu1.
  rewrite Hbegin in Hs1, Hr1. cbn [snd] in Hs1, Hr1.
  unfold run_full_turn in Hloop.
  apply bind_ok_inv in Hloop as ([] & r1' & [= <-] & Hloop).
  apply turn_loop_returns in Hloop as [T HT].
  apply turns_accounts in HT as (responses & _ & Hr2 & Hs2 & Hu2).
  cbn [_responses step_counter _usages set_flags] in Hr2, Hs2, Hu2.
  rewrite Hu1 in Hu2. cbn [app] in Hu2.
  rewrite Hr1 in Hr2 by done. rewrite Hs1 in Hs2 by done.
  rewrite finish_run_eq in Hfinish. cbn zeta in Hfinish.
  assert (_responses r' = _responses r2 /\ step_counter r' = step_counter r2 /\
          VerficationRunResult.steps_taken res = step_counter r2 - 2 /\
          VerficationRunResult.usage_total res =
            match _usages r2 with [] => None | _ => Some (Usage.sum (_usages r2)) end)
    as (Hr3 & Hs3 & Hsteps & Husage).
  { destruct (_extract_json _) as [[|parsed err last]|e|]; try discriminate.
    destruct (truthy parsed).
    - destruct (_validate_acceptance_criteria_names _ _) as [[]|e|]; try discriminate.
      injection Hfinish as <- <-. unfold after_cleanup.
      by destruct (hasattr _ _).
    - injection Hfinish as <- <-. unfold after_cleanup.
      by destruct (hasattr _ _). }
  exists responses. rewrite Hr3, Hs3, Hsteps, Husage, Hu2.
  split; [exact Hr2|]. split; [exact Hs2|]. split; [done|].
  by destruct (omap usage_obj_of responses).
Qed.

(** The number of steps a result reports is the number of messages,
    function calls and computer calls among the output items of the
    responses of its run, plus the step counter of the runner before the
    run, minus 2: on a new runner, whose counter is 1, one less than the
    number of items handled. *)
Theorem steps_taken_counts_the_items_handled fuel req url ps si dbg cb mx r res r' :
  run fuel req url ps si dbg cb mx r = (Ok res, r') ->
  exists responses,
    _responses r' = _responses r ++ responses /\
    VerficationRunResult.steps_taken res = step_counter r + steps_of responses - 2.
Proof.
  intros Hrun. apply run_accounts in Hrun as (responses & Hr & Hs & Hsteps & _).
  exists responses. split; [exact Hr|]. rewrite Hsteps, Hs. lia.
Qed.

(** The total usage of a result is the sum of the usages of the responses
    of its run that carry a well-formed usage, and none when no response
    does; responses of earlier runs of the same runner do not count. *)
Theorem usage_total_sums_the_responses fuel req url ps si dbg cb mx r res r' :
  run fuel req url ps si dbg cb mx r = (Ok res, r') ->
  exists responses,
    _responses r' = _responses r ++ responses /\
    VerficationRunResult.usage_total res =
      match omap usage_obj_of responses with
      | [] => None
      | usages => Some (Usage.sum usages)
      end.
Proof.
  intros Hrun. apply run_accounts in Hrun as (responses & Hr & _ & _ & Hu).
  by exists responses.
Qed.

(** [run_all] does not reset the step counter between its runs: the steps
    of a later result count the items of the runs before it as well. *)
Theorem run_all_steps_accumulate fuel req1 req2 url ps si dbg cb r res1 res2 r' :
  run_all fuel [req1; req2] url ps si dbg cb r = (Ok [res1; res2], r') ->
  exists responses1 responses2,
    _responses r' = _responses r ++ responses1 ++ responses2 /\
    VerficationRunResult.steps_taken res1
      = step_counter r + steps_of responses1 - 2 /\
    VerficationRunResult.steps_taken res2
      = VerficationRunResult.steps_taken res1 + steps_of responses2.
Proof.
  cbn [run_all]. intros Hall.
  apply bind_ok_inv in Hall as (x1 & r1 & Hrun1 & Hall).
  apply bind_ok_inv in Hall as (rest & r2 & Hall & Hret).
  injection Hret as -> -> ->. cbn [run_all] in Hall.
  apply bind_ok_inv in Hall as (x2 & r3 & Hrun2 & Hall).
  apply bind_ok_inv in Hall as (rest & r4 & Hnil & Hret).
  injection Hnil as <- <-. injection Hret as -> ->.
  apply run_accounts in Hrun1 as (responses1 & Hr1 & Hs1 & Hsteps1 & _).
  apply run_accounts in Hrun2 as (responses2 & Hr2 & Hs2 & Hsteps2 & _).
  exists responses1, responses2. rewrite Hr2, Hr1, <- app_assoc.
  split; [done|]. rewrite Hsteps1, Hsteps2, Hs2, Hs1. lia.
Qed.

End Accounts.

(** * Decision extraction: the text read *)

Section Extraction.
Context `{Externals}.

Lemma extract_json_of_full_text items text :
  full_text_of items = Some text ->
  _extract_json items = Ok (read_candidate (default text (fenced text))).
Proof.
  unfold full_text_of, _extract_json, read_candidate.
  destruct (text_segments_of items) as [[|segment segments]| |]; try discriminate.
  destruct (strings_of (segment :: segments)) as [strings|]; [|discriminate].
  intros [= <-]. cbn zeta.
  destruct (last (json_like_of _)); [|reflexivity].
  by destruct (json_loads s).
Qed.

Lemma strip_prefix_fence_no_backtick s :
  has_char "`" s = false -> after_first fence s = None.
Proof.
  induction s as [|c s IH]; [done|]. cbn [has_char].
  intros Hno. apply orb_false_elim in Hno as [Hc Hs].
  cbn [after_first]. unfold fence at 1. cbn [strip_prefix].
  rewrite Ascii.eqb_sym, Hc. by apply IH.
Qed.

Lemma fenced_no_backtick s : has_char "`" s = false -> fenced s = None.
Proof. intros Hno. unfold fenced. by rewrite strip_prefix_fence_no_backtick. Qed.

Lemma from_first_open_app before rest :
  has_char "{" before = false ->
  from_first_open (before +:+ "{" +:+ rest) = Some ("{" +:+ rest).
Proof.
  induction before as [|c before IH]; [done|]. cbn [has_char].
  intros Hno. apply orb_false_elim in Hno as [Hc Hs].
  change (String c before +:+ "{" +:+ rest) with (String c (before +:+ "{" +:+ rest)).
  cbn [from_first_open]. rewrite Hc. by apply IH.
Qed.

Lemma upto_last_close_none s : has_char "}" s = false -> upto_last_close s = None.
Proof.
  induction s as [|c s IH]; [done|]. cbn [has_char].
  intros Hno. apply orb_false_elim in Hno as [Hc Hs].
  cbn [upto_last_close]. by rewrite IH, Hc.
Qed.

Lemma upto_last_close_app x after :
  has_char "}" after = false ->
  upto_last_close (x +:+ "}" +:+ after) = Some (x +:+ "}").
Proof.
  intros Hno. induction x as [|c x IH].
  - change ("" +:+ "}" +:+ after) with (String "}" after).
    cbn [upto_last_close]. by rewrite upto_last_close_none.
  - change (String c x +:+ "}" +:+ after) with (String c (x +:+ "}" +:+ after)).
    cbn [upto_last_close]. by rewrite IH.
Qed.

(** The pattern that looks for the JSON object is greedy: what is parsed
    is the text from the first opening brace to the last closing brace of
    all the message text of the run, whatever lies between them. *)
Theorem extract_json_spans_first_open_to_last_close items before inside after :
  full_text_of items = Some (before +:+ "{" +:+ inside +:+ "}" +:+ after) ->
  has_char "`" (before +:+ "{" +:+ inside +:+ "}" +:+ after) = false ->
  has_char "{" before = false ->
  has_char "}" after = false ->
  let last := "{" +:+ inside +:+ "}" in
  _extract_json items =
    Ok (match json_loads last with
        | inl parsed => Ret3 parsed None last
        | inr e =>
            Ret3 JNull
              (Some ("json_parse_error: " +:+ e +:+ "; json_like="
                     +:+ repr_strs [last]))
              last
        end).
Proof.
  intros Htext Hfence Hopen Hclose. cbn zeta.
  rewrite (extract_json_of_full_text _ _ Htext), (fenced_no_backtick _ Hfence).
  cbn [default]. unfold read_candidate, json_like_of.
  rewrite (from_first_open_app _ _ Hopen). cbn [mbind option_bind].
  change ("{" +:+ inside +:+ "}" +:+ after)
    with (("{" +:+ inside) +:+ "}" +:+ after).
  rewrite (upto_last_close_app _ _ Hclose). reflexivity.
Qed.

Lemma string_app_cons c s t : String c s +:+ t = String c (s +:+ t).
Proof. reflexivity. Qed.

Lemma string_app_nil t : "" +:+ t = t.
Proof. reflexivity. Qed.

Lemma after_first_fence_app before rest :
  has_char "`" before = false ->
  after_first fence (before +:+ fence +:+ rest) = Some rest.
Proof.
  induction before as [|c before IH]; [done|]. cbn [has_char].
  intros Hno. apply orb_false_elim in Hno as [Hc Hs].
  rewrite string_app_cons. cbn [after_first]. unfold fence at 1.
  cbn [strip_prefix]. rewrite Ascii.eqb_sym, Hc. by apply IH.
Qed.

Lemma strip_prefix_json_app body rest :
  strip_prefix "json" (body +:+ String "`" rest)
    = (fun b => b +:+ String "`" rest) <$> strip_prefix "json" body.
Proof.
  destruct body as [|a [|b [|c [|d body]]]];
    rewrite ?string_app_cons, ?string_app_nil; cbn [strip_prefix];
    repeat match goal with
           | |- context [Ascii.eqb ?x ?y] =>
               destruct (Ascii.eqb_spec x y); try discriminate; try reflexivity
           end.
Qed.

Lemma lstrip_app b rest :
  lstrip (b +:+ String "`" rest) = lstrip b +:+ String "`" rest.
Proof.
  induction b as [|c b IH]; [done|]. rewrite string_app_cons. cbn [lstrip].
  destruct (is_space c); [exact IH|done].
Qed.

Lemma before_first_fence_app b rest :
  has_char "`" b = false ->
  before_first fence (b +:+ fence +:+ rest) = Some b.
Proof.
  induction b as [|c b IH]; [done|]. cbn [has_char].
  intros Hno. apply orb_false_elim in Hno as [Hc Hs].
  rewrite string_app_cons. cbn [before_first]. unfold fence at 1.
  cbn [is_prefix]. rewrite Ascii.eqb_sym, Hc. cbn [andb].
  by rewrite (IH Hs).
Qed.

Lemma has_char_strip_prefix c p s r :
  strip_prefix p s = Some r -> has_char c s = false -> has_char c r = false.
Proof.
  revert s. induction p as [|a p IH]; intros s; cbn [strip_prefix].
  - by intros [= ->].
  - destruct s as [|b s]; [done|]. destruct (Ascii.eqb a b); [|done].
    cbn [has_char]. intros Hr Hno. apply orb_false_elim in Hno as [_ Hs]. eauto.
Qed.

Lemma has_char_lstrip c s : has_char c s = false -> has_char c (lstrip s) = false.
Proof.
  induction s as [|x s IH]; [done|]. cbn [lstrip].
  destruct (is_space x); [|done]. cbn [has_char]. intros Hno.
  apply orb_false_elim in Hno as [_ Hs]. by apply IH.
Qed.

(** When the message text holds a code fence, only the first fenced block
    is read: the text before the opening fence and everything after the
    closing fence, later fenced blocks included, play no part. *)
Theorem extract_json_reads_the_first_fenced_block items before body after :
  full_text_of items = Some (before +:+ fence +:+ body +:+ fence +:+ after) ->
  has_char "`" before = false ->
  has_char "`" body = false ->
  _extract_json items =
    Ok (read_candidate (strip (default body (strip_prefix "json" body)))).
Proof.
  intros Htext Hbefore Hbody.
  rewrite (extract_json_of_full_text _ _ Htext). do 2 f_equal.
  unfold fenced. rewrite (after_first_fence_app _ _ Hbefore). cbn [mbind option_bind].
  change (fence +:+ after) with (String "`" ("``" +:+ after)).
  rewrite strip_prefix_json_app.
  assert (has_char "`" (default body (strip_prefix "json" body)) = false) as Hinner.
  { destruct (strip_prefix "json" body) as [inner|] eqn:Hjson; [|done].
    by apply (has_char_strip_prefix _ _ _ _ Hjson). }
  assert (default (body +:+ String "`" ("``" +:+ after))
            ((fun b => b +:+ String "`" ("``" +:+ after)) <$> strip_prefix "json" body)
          = default body (strip_prefix "json" body) +:+ String "`" ("``" +:+ after))
    as -> by (by destruct (strip_prefix "json" body)).
  rewrite lstrip_app.
  change (String "`" ("``" +:+ after)) with (fence +:+ after).
  rewrite before_first_fence_app by (by apply has_char_lstrip).
  reflexivity.
Qed.

End Extraction.

(** * Constructing runners: the list of tools *)

Module InitProperties.
Import Init.

Lemma list_at_insert h address l : list_at (<[address := l]> h) address = l.
Proof. unfold list_at. by rewrite lookup_insert_eq. Qed.

Lemma construct_spec computers : forall h,
  (construct computers h).1 = map (fun _ => default_tools) computers /\
  list_at (construct computers h).2 default_tools
    = list_at h default_tools ++ map (fun c => computer_tool c.1 c.2) computers.
Proof.
  induction computers as [|[c dimensions] computers IH]; intros h.
  - cbn. by rewrite app_nil_r.
  - cbn [construct init_tools default].
    destruct (IH (<[default_tools :=
                      list_at h default_tools ++ [computer_tool c dimensions]]> h))
      as [Haddr Hlist].
    destruct (construct computers _) as [others h']. cbn [fst snd map] in *.
    rewrite Haddr, Hlist, list_at_insert. by rewrite <- app_assoc.
Qed.

(** The runners constructed without a [tools] argument share one list of
    tools, the default of the parameter: each construction appends its
    computer tool to it, so that after [n] constructions every one of the
    runners, the first included, holds [n] computer tools on top of what the
    list held before. *)
Theorem runners_share_the_default_tools computers h self_tools :
  self_tools ∈ (construct computers h).1 ->
  self_tools = default_tools /\
  list_at (construct computers h).2 self_tools
    = list_at h default_tools ++ map (fun c => computer_tool c.1 c.2) computers /\
  length (list_at (construct computers h).2 self_tools)
    = (length (list_at h default_tools) + length computers)%nat.
Proof.
  destruct (construct_spec computers h) as [Haddr Hlist]. rewrite Haddr.
  intros Hin. apply list_elem_of_In, in_map_iff in Hin as (c & <- & _).
  split; [done|]. split; [exact Hlist|].
  by rewrite Hlist, length_app, length_map.
Qed.

Lemma runners_share_the_default_tools_witness :
  let made := construct [(Script.desktop, (1280, 720)); (Script.desktop, (1280, 720))] ∅ in
  made.1 = [default_tools; default_tools] /\
  length (list_at made.2 default_tools) = 2%nat.
Proof.
  cbn zeta. split; [reflexivity|].
  refine (proj2 (proj2 (runners_share_the_default_tools
            [(Script.desktop, (1280, 720)); (Script.desktop, (1280, 720))] ∅
            default_tools _))).
  vm_compute. apply list_elem_of_here.
Defined.

End InitProperties.

(** * Batches of requirements *)

Module EvaluationProperties.
Import Evaluation.

Lemma concat_repeat_nil {A} n : concat (repeat (@nil A) n) = [].
Proof. induction n; [done|]. cbn. exact IHn. Qed.

(** The slices taken at the positions of the range make up the list from
    the first position on. *)
Lemma concat_slices {A} (l : list A) step : forall fuel start,
  (1 <= step)%nat -> (length l <= start + fuel)%nat ->
  concat (map (fun start => slice l start (start + step))
            (range_from fuel start (length l) step))
  = skipn start l.
Proof.
  intros fuel. induction fuel as [|fuel IH]; intros start Hstep Hfuel;
    cbn [range_from].
  - cbn. symmetry. apply skipn_all2. lia.
  - destruct (Nat.ltb_spec start (length l)) as [Hlt|Hge].
    + cbn [map concat]. rewrite IH by lia. unfold slice.
      replace (start + step - start)%nat with step by lia.
      etransitivity; [|apply (firstn_skipn step)].
      f_equal. rewrite skipn_skipn. f_equal. lia.
    + cbn. symmetry. apply skipn_all2. lia.
Qed.

(** The positions of the range stay below the total. *)
Lemma range_from_last step total : forall fuel start,
  let k := length (range_from fuel start total step) in
  k = 0%nat \/ (start + (k - 1) * step < total)%nat.
Proof.
  intros fuel. induction fuel as [|fuel IH]; intros start; cbn [range_from];
    [by left|].
  destruct (Nat.ltb_spec start total) as [Hlt|Hge]; [|by left].
  right. cbn [length]. destruct (IH (start + step)%nat) as [->|Hrest]; [cbn; lia|].
  cbn zeta in Hrest.
  destruct (length (range_from fuel (start + step) total step)) as [|k]; [cbn; lia|].
  cbn [Nat.sub] in *. rewrite Nat.sub_0_r in *. lia.
Qed.

Lemma slices_are_short {A} (l : list A) step starts :
  Forall (fun b => (length b <= step)%nat)
    (map (fun start => slice l start (start + step)) starts).
Proof.
  apply Forall_forall. intros b Hb.
  apply list_elem_of_In, in_map_iff in Hb as (start & <- & _).
  unfold slice. rewrite length_firstn. lia.
Qed.

(** For a positive number of batches, [split_into_batches] returns exactly
    that many batches; put end to end they are the requirements, in order,
    none lost and none repeated; and no batch is longer than the batch size,
    the number of requirements divided by the number of batches, rounded
    up. *)
Theorem split_into_batches_partitions {A} (requirements : list A) num_batches :
  0 < num_batches ->
  let batches := split_into_batches requirements num_batches in
  length batches = Z.to_nat num_batches /\
  concat batches = requirements /\
  Forall (fun batch =>
            Z.of_nat (length batch)
            <= (Z.of_nat (length requirements) + num_batches - 1) / num_batches)
    batches.
Proof.
  intros Hn. cbn zeta. unfold split_into_batches.
  replace (num_batches <=? 0) with false by (symmetry; apply Z.leb_gt; lia).
  destruct (Nat.eqb_spec (length requirements) 0) as [Hempty|Hsome].
  { rewrite length_zero_iff_nil in Hempty. subst requirements.
    rewrite repeat_length, concat_repeat_nil. split; [done|]. split; [done|].
    apply Forall_forall. intros b Hb. apply list_elem_of_In, repeat_spec in Hb as ->.
    cbn [length]. apply Z.div_pos; lia. }
  set (total := length requirements) in *.
  set (q := (Z.of_nat total + num_batches - 1) / num_batches).
  assert (Z.of_nat total <= num_batches * q /\ 1 <= q) as [Hq Hq1].
  { unfold q.
    pose proof (Z.div_mod (Z.of_nat total + num_batches - 1) num_batches ltac:(lia)).
    pose proof (Z.mod_pos_bound (Z.of_nat total + num_batches - 1) num_batches Hn).
    split; [lia|]. apply Z.div_le_lower_bound; lia. }
  set (starts := range_from total 0 total (Z.to_nat q)).
  assert (Z.of_nat (length starts) <= num_batches) as Hcount.
  { pose proof (range_from_last (Z.to_nat q) total total 0) as Hlast.
    cbn zeta in Hlast. fold starts in Hlast. destruct Hlast as [Hz|Hlast]; [lia|].
    assert (Z.of_nat (length starts - 1) * q < num_batches * q) by nia.
    assert (Z.of_nat (length starts - 1) < num_batches) by nia. lia. }
  rewrite length_map.
  assert (forall l : list (list A),
            length l = length starts ->
            length (if Z.of_nat (length starts) <? num_batches
                    then l ++ repeat [] (Z.to_nat (num_batches - Z.of_nat (length starts)))
                    else l) = Z.to_nat num_batches) as Hpadded.
  { intros l Hl. destruct (Z.ltb_spec (Z.of_nat (length starts)) num_batches).
    - rewrite length_app, repeat_length. lia.
    - lia. }
  specialize (Hpadded _ (length_map
    (fun start => slice requirements start (start + Z.to_nat q)) starts)).
  rewrite firstn_all2 by lia.
  split; [exact Hpadded|]. split.
  - assert (concat (map (fun start => slice requirements start (start + Z.to_nat q))
                      starts) = requirements) as Hconcat.
    { unfold starts, total.
      apply (concat_slices requirements (Z.to_nat q) (length requirements) 0%nat); lia. }
    destruct (Z.of_nat (length starts) <? num_batches); [|exact Hconcat].
    by rewrite concat_app, concat_repeat_nil, app_nil_r.
  - assert (Forall (fun batch : list A => Z.of_nat (length batch) <= q)
              (map (fun start => slice requirements start (start + Z.to_nat q)) starts))
      as Hshort.
    { eapply Forall_impl; [apply slices_are_short|]. cbn beta. intros b Hb. lia. }
    destruct (Z.of_nat (length starts) <? num_batches); [|exact Hshort].
    apply Forall_app. split; [exact Hshort|].
    apply Forall_forall. intros b Hb. apply list_elem_of_In, repeat_spec in Hb as ->.
    cbn [length]. lia.
Qed.

Lemma split_into_batches_partitions_witness :
  split_into_batches [1; 2; 3; 4; 5; 6; 7] 3 = [[1; 2; 3]; [4; 5; 6]; [7]] /\
  concat (split_into_batches [1; 2; 3; 4; 5; 6; 7] 3) = [1; 2; 3; 4; 5; 6; 7].
Proof.
  split; [reflexivity|].
  refine (proj1 (proj2 (split_into_batches_partitions [1; 2; 3; 4; 5; 6; 7] 3 _))).
  lia.
Defined.

End EvaluationProperties.

(** * The desktop in a container *)

Module DockerComputerProperties.
Import DockerComputer DockerExamples.

(** [scroll] moves the pointer and then sends between 1 and 10 wheel
    clicks: at least one also when [scroll_y] is 0, upwards (button 4) when
    [scroll_y] is negative and downwards (button 5) otherwise.  The
    horizontal amount [scroll_x] plays no part. *)
Theorem scroll_sends_1_to_10_wheel_clicks self x y scroll_y :
  scroll_scale self <> 0 ->
  exists clicks,
    1 <= clicks <= 10 /\
    (0 < scroll_scale self ->
       (Z.abs scroll_y < 2 * scroll_scale self -> clicks = 1) /\
       (10 * scroll_scale self <= Z.abs scroll_y -> clicks = 10)) /\
    (forall scroll_x',
       scroll self x y scroll_x' scroll_y =
         ([xdotool self ("mousemove " +:+ str_int x +:+ " " +:+ str_int y);
           xdotool self ("click --repeat " +:+ str_int clicks +:+ " "
                         +:+ (if scroll_y <? 0 then "4" else "5"))],
          Returns)).
Proof.
  intros Hscale. exists (Z.max 1 (Z.min 10 (Z.abs scroll_y / scroll_scale self))).
  split; [lia|]. split.
  - intros Hpos. split.
    + intros Hsmall.
      assert (Z.abs scroll_y / scroll_scale self < 2)
        by (apply Z.div_lt_upper_bound; lia). lia.
    + intros Hlarge.
      assert (10 <= Z.abs scroll_y / scroll_scale self)
        by (apply Z.div_le_lower_bound; lia). lia.
  - intros scroll_x'. unfold scroll.
    replace (scroll_scale self =? 0) with false by (symmetry; by apply Z.eqb_neq).
    by destruct (scroll_y <? 0).
Qed.





Lemma scroll_sends_1_to_10_wheel_clicks_witness :
  scroll screen 640 360 0 0
  = (["DISPLAY=:99 xdotool mousemove 640 360"; "DISPLAY=:99 xdotool click --repeat 1 5"],
     Returns) /\
  scroll screen 640 360 0 (-5000)
  = (["DISPLAY=:99 xdotool mousemove 640 360"; "DISPLAY=:99 xdotool click --repeat 10 4"],
     Returns).
Proof.
  split.
  - destruct (scroll_sends_1_to_10_wheel_clicks screen 640 360 0)
      as (clicks & _ & Hclicks & Hscroll); [discriminate|].
    destruct Hclicks as [Hsmall _]; [reflexivity|].
    rewrite Hscroll, Hsmall; reflexivity.
  - destruct (scroll_sends_1_to_10_wheel_clicks screen 640 360 (-5000))
      as (clicks & _ & Hclicks & Hscroll); [discriminate|].
    destruct Hclicks as [_ Hlarge]; [reflexivity|].
    rewrite Hscroll, Hlarge; [reflexivity|discriminate].
Defined.



End DockerComputerProperties.

(** * The states of the acceptance criteria *)

Module TasksProperties.
Import Tasks TasksExamples.

Lemma index_by_name_lookup i0 rows by_name key :
  index_by_name i0 rows by_name !! key
  = match last_row key rows with
    | Some j => Some (i0 + j)%nat
    | None => by_name !! key
    end.
Proof.
  revert i0 by_name. induction rows as [|c rest IH]; intros i0 by_name; [done|].
  cbn [index_by_name last_row]. rewrite IH. fold (key_of c).
  destruct (last_row key rest) as [j|]; [f_equal; lia|].
  destruct (String.eqb_spec (key_of c) "") as [Hblank|Hblank].
  - rewrite decide_False; [done|]. intros [<- ?]. done.
  - destruct (decide (key_of c = key /\ key <> "")) as [[<- _]|Hne].
    + rewrite lookup_insert_eq. f_equal. lia.
    + rewrite lookup_insert_ne; [done|]. intros <-. by apply Hne.
Qed.

Lemma last_row_found key rows n c :
  rows !! n = Some c -> key_of c = key -> key <> "" -> last_row key rows <> None.
Proof.
  revert n. induction rows as [|x rows IH]; intros [|n] Hrow Hc Hkey; try done;
    cbn [last_row]; cbn in Hrow.
  - injection Hrow as ->. destruct (last_row key rows); [done|]. by rewrite decide_True.
  - specialize (IH n Hrow Hc Hkey). by destruct (last_row key rows).
Qed.

Lemma last_row_Some key rows j :
  last_row key rows = Some j ->
  key <> "" /\
  (exists c, rows !! j = Some c /\ key_of c = key) /\
  (forall j' c', (j < j')%nat -> rows !! j' = Some c' -> key_of c' <> key).
Proof.
  revert j. induction rows as [|c rest IH]; intros j; [done|]. cbn [last_row].
  destruct (last_row key rest) as [k|] eqn:Hrest.
  - intros [= <-]. destruct (IH k eq_refl) as (Hkey & Hrow & Hlater).
    split; [done|]. split; [done|].
    intros [|j'] c' Hlt; [lia|]. cbn. apply Hlater. lia.
  - destruct (decide _) as [[Hc Hkey]|]; [|done]. intros [= <-].
    split; [done|]. split; [by exists c|].
    intros [|j'] c' Hlt; [lia|]. cbn. intros Hrow Hc'.
    by apply (last_row_found key rest j' c').
Qed.

Lemma last_row_of_last key rows j c :
  rows !! j = Some c ->
  key_of c = key ->
  key <> "" ->
  (forall j' c', (j < j')%nat -> rows !! j' = Some c' -> key_of c' <> key) ->
  last_row key rows = Some j.
Proof.
  revert j. induction rows as [|x rest IH]; intros j Hrow Hc Hkey Hlater; [done|].
  cbn [last_row]. destruct j as [|j]; cbn in Hrow.
  - simplify_eq. destruct (last_row (key_of c) rest) as [k|] eqn:Hrest.
    + apply last_row_Some in Hrest as (_ & (c' & Hc' & Hk) & _).
      by destruct (Hlater (S k) c' ltac:(lia) Hc').
    + by rewrite decide_True.
  - rewrite (IH j); [done..|]. intros j' c' Hlt Hrow'.
    apply (Hlater (S j') c'); [lia|done].
Qed.

Lemma save_lookup rows u i :
  save rows u !! i
  = (fun c => if decide (u.1 = i) then with_state c u.2 else c) <$> rows !! i.
Proof.
  unfold save. rewrite list_lookup_alter.
  destruct (decide (u.1 = i)) as [<-|Hne]; [done|]. by destruct (rows !! i).
Qed.

Lemma fold_save_lookup updates rows i c :
  rows !! i = Some c ->
  fold_left save updates rows !! i
  = Some (with_state c (default (state c) (last (states_for i updates)))).
Proof.
  revert rows c. induction updates as [|u updates IH]; intros rows c Hrow.
  - cbn. rewrite Hrow. by destruct c.
  - cbn [fold_left]. pose proof (save_lookup rows u i) as Hsave. rewrite Hrow in Hsave.
    cbn in Hsave. rewrite (IH _ _ Hsave). unfold states_for. cbn [omap list_omap].
    fold (states_for i updates). destruct (decide (u.1 = i)); [|done].
    cbn. rewrite last_cons. by destruct (last (states_for i updates)).
Qed.

Lemma new_state_processed item st : new_state item = Some st -> st <> UNPROCESSED.
Proof.
  unfold new_state. intros Hst ->.
  destruct (getk item "met") as [| [] | | | | |]; try discriminate;
    repeat case_bool_decide; discriminate.
Qed.

Lemma verdicts_processed key results : Forall (fun st => st <> UNPROCESSED) (verdicts key results).
Proof.
  induction results as [|item results IH]; [constructor|].
  unfold verdicts. cbn [omap list_omap]. fold (verdicts key results).
  destruct item as [| | | | | |item]; try done.
  destruct (decide _); [|done].
  destruct (new_state item) as [st|] eqn:Hst; [|done].
  constructor; [by eapply new_state_processed|done].
Qed.

Lemma states_for_cons i (f : json -> option (nat * State)) item results :
  states_for i (omap f (item :: results))
  = match f item with
    | Some u => if decide (u.1 = i) then [u.2] else []
    | None => []
    end ++ states_for i (omap f results).
Proof.
  unfold states_for. cbn [omap list_omap]. destruct (f item) as [u|]; [|done].
  cbn [omap list_omap]. by destruct (decide (u.1 = i)).
Qed.

Lemma verdicts_cons key item results :
  verdicts key (item :: results)
  = match item with
    | JObj item => if decide (name_key item = Some key)
                   then match new_state item with Some st => [st] | None => [] end
                   else []
    | _ => []
    end ++ verdicts key results.
Proof.
  unfold verdicts. cbn [omap list_omap]. destruct item as [| | | | | |item]; try done.
  destruct (decide _); [|done]. by destruct (new_state item).
Qed.

(** An update names the last row of the key of its item. *)
Lemma update_of_target rows item u :
  update_of rows (index_by_name 0 rows ∅) (JObj item) = Some u ->
  exists key c,
    name_key item = Some key /\ last_row key rows = Some (u.1) /\
    rows !! (u.1) = Some c /\ new_state item = Some (u.2) /\ state c <> u.2.
Proof.
  cbn [update_of]. rewrite bind_Some. intros (key & Hkey & Hu).
  rewrite bind_Some in Hu. destruct Hu as (target & Htarget & Hu).
  rewrite bind_Some in Hu. destruct Hu as (st & Hst & Hu).
  rewrite bind_Some in Hu. destruct Hu as (c & Hc & Hu).
  destruct (decide (state c = st)); [done|]. injection Hu as <-.
  rewrite index_by_name_lookup, lookup_empty in Htarget.
  destruct (last_row key rows) as [t|] eqn:Ht; [|done]. injection Htarget as <-.
  change (0 + t)%nat with t in *. by exists key, c.
Qed.

Lemma update_of_key rows item key i c :
  name_key item = Some key ->
  last_row key rows = Some i ->
  rows !! i = Some c ->
  update_of rows (index_by_name 0 rows ∅) (JObj item)
  = match new_state item with
    | Some st => if decide (state c = st) then None else Some (i, st)
    | None => None
    end.
Proof.
  intros Hkey Hlast Hrow. cbn [update_of]. rewrite Hkey. cbn [mbind option_bind].
  rewrite index_by_name_lookup, lookup_empty, Hlast. cbn [mbind option_bind].
  destruct (new_state item) as [st|]; [|done]. cbn [mbind option_bind].
  change (0 + i)%nat with i. by rewrite Hrow.
Qed.

(** The updates of a row that its key leads to are the verdicts for the key
    that differ from the state the row had. *)
Lemma states_for_updates rows results i c :
  rows !! i = Some c ->
  last_row (key_of c) rows = Some i ->
  states_for i (omap (update_of rows (index_by_name 0 rows ∅)) results)
  = filter (fun st => st <> state c) (verdicts (key_of c) results).
Proof.
  intros Hrow Hlast. induction results as [|item results IH]; [done|].
  rewrite states_for_cons, verdicts_cons, filter_app, IH. f_equal.
  destruct item as [| | | | | |item]; try done.
  destruct (decide (name_key item = Some (key_of c))) as [Hkey|Hkey].
  - rewrite (update_of_key _ _ _ _ _ Hkey Hlast Hrow).
    destruct (new_state item) as [st|]; [|done].
    destruct (decide (state c = st)) as [<-|Hst].
    + by rewrite filter_cons_False by (by intros ?).
    + rewrite filter_cons_True by done. cbn [fst snd]. by rewrite decide_True.
  - destruct (update_of _ _ _) as [u|] eqn:Hu; [|done].
    apply update_of_target in Hu as (key & c' & Hk & Ht & _).
    rewrite decide_False; [done|]. intros Heq. rewrite Heq in Ht.
    apply last_row_Some in Ht as (_ & (c'' & Hc'' & Hk') & _).
    rewrite Hrow in Hc''. injection Hc'' as <-. by rewrite Hk' in Hkey.
Qed.

(** The updates never name a row that its key does not lead to. *)
Lemma states_for_other rows results i c :
  rows !! i = Some c ->
  last_row (key_of c) rows <> Some i ->
  states_for i (omap (update_of rows (index_by_name 0 rows ∅)) results) = [].
Proof.
  intros Hrow Hlast. induction results as [|item results IH]; [done|].
  rewrite states_for_cons, IH, app_nil_r.
  destruct (update_of _ _ item) as [u|] eqn:Hu; [|done].
  destruct item as [| | | | | |item]; try done.
  apply update_of_target in Hu as (key & c' & Hk & Ht & _).
  rewrite decide_False; [done|]. intros Heq. rewrite Heq in Ht.
  pose proof Ht as Ht'.
  apply last_row_Some in Ht' as (_ & (c'' & Hc'' & Hk') & _).
  rewrite Hrow in Hc''. injection Hc'' as <-. by rewrite Hk' in Hlast.
Qed.

Lemma update_unfold rows decision :
  _update_acceptance_states_from_decision rows decision
  = fold_left save (omap (update_of rows (index_by_name 0 rows ∅)) (results_of decision)) rows.
Proof.
  unfold _update_acceptance_states_from_decision, results_of, or_.
  destruct decision as [| | | | | |d]; try done.
  destruct (getk d "acceptance_criteria_results") as [|[]|z|[m e| |]|s|[|x xs]|[|kv kvs]];
    try done; cbn [truthy].
  - by destruct (negb (z =? 0)).
  - by destruct (negb (m =? 0)).
  - by destruct (negb (String.eqb s "")).
Qed.

(** The state of a row after the call, for the last row of a non-blank
    key: the last verdict for its key that differs from the state the row
    had, and the state it had when there is none. *)
Lemma state_after_update rows decision i c :
  rows !! i = Some c ->
  key_of c <> "" ->
  (forall j c', (i < j)%nat -> rows !! j = Some c' -> key_of c' <> key_of c) ->
  _update_acceptance_states_from_decision rows decision !! i
  = Some (with_state c
            (default (state c)
               (last (filter (fun st => st <> state c)
                        (verdicts (key_of c) (results_of decision)))))).
Proof.
  intros Hrow Hkey Hlater. rewrite update_unfold, (fold_save_lookup _ _ _ _ Hrow).
  rewrite (states_for_updates _ _ _ _ Hrow); [done|].
  by eapply last_row_of_last.
Qed.

(** A criterion that is still unprocessed takes the last verdict the
    decision holds for its name (names compared after [strip] and [upper]),
    and stays unprocessed when the decision holds none.  The row meant is
    the last one of its name; its name is not blank. *)
Theorem unprocessed_criterion_takes_the_last_verdict rows decision i c :
  rows !! i = Some c ->
  state c = UNPROCESSED ->
  key_of c <> "" ->
  (forall j c', (i < j)%nat -> rows !! j = Some c' -> key_of c' <> key_of c) ->
  _update_acceptance_states_from_decision rows decision !! i
  = Some (with_state c
            (default UNPROCESSED (last (verdicts (key_of c) (results_of decision))))).
Proof.
  intros Hrow Hstate Hkey Hlater.
  rewrite (state_after_update _ _ _ _ Hrow Hkey Hlater), Hstate.
  pose proof (verdicts_processed (key_of c) (results_of decision)) as Hall.
  assert (Hfilter : filter (fun st => st <> UNPROCESSED)
                      (verdicts (key_of c) (results_of decision))
                    = verdicts (key_of c) (results_of decision)).
  { induction Hall as [|st sts Hst _ IH]; [done|]. by rewrite filter_cons_True, IH. }
  by rewrite Hfilter.
Qed.

(** Each verdict is compared with the state the row had before the call,
    not with the verdicts before it.  So when the decision holds verdicts
    for a criterion that is met or unmet and one of them is the other
    state, the criterion ends in the other state, whatever the later
    verdicts for it say: a last verdict equal to the old state is passed
    over. *)
Theorem contradicted_criterion_changes_state rows decision i c st :
  rows !! i = Some c ->
  state c <> UNPROCESSED ->
  key_of c <> "" ->
  (forall j c', (i < j)%nat -> rows !! j = Some c' -> key_of c' <> key_of c) ->
  st ∈ verdicts (key_of c) (results_of decision) ->
  st <> state c ->
  _update_acceptance_states_from_decision rows decision !! i = Some (with_state c st).
Proof.
  intros Hrow Hstate Hkey Hlater Hin Hst.
  rewrite (state_after_update _ _ _ _ Hrow Hkey Hlater). do 2 f_equal.
  pose proof (verdicts_processed (key_of c) (results_of decision)) as Hall.
  assert (Hother : forall st', st' ∈ filter (fun st => st <> state c)
                                     (verdicts (key_of c) (results_of decision)) -> st' = st).
  { intros st' [Hne Hin']%list_elem_of_filter.
    rewrite Forall_forall in Hall. pose proof (Hall _ Hin). pose proof (Hall _ Hin').
    destruct st, st', (state c); congruence. }
  assert (Hin' : st ∈ filter (fun st => st <> state c)
                        (verdicts (key_of c) (results_of decision)))
    by (by apply list_elem_of_filter).
  destruct (last _) as [st'|] eqn:Hlast; cbn.
  - apply Hother. apply last_Some in Hlast as [l ->]. set_solver.
  - apply last_None in Hlast. rewrite Hlast in Hin'. by apply elem_of_nil in Hin'.
Qed.

(** The call keeps the rows, their names and their texts, and never makes a
    criterion unprocessed: a state that changes becomes met or unmet.  A row
    with a blank name, a row whose name a later row bears too, and a row for
    whose name the decision holds no verdict keep their state. *)
Theorem update_keeps_the_other_rows rows decision :
  length (_update_acceptance_states_from_decision rows decision) = length rows /\
  forall i c,
    rows !! i = Some c ->
    exists st,
      _update_acceptance_states_from_decision rows decision !! i = Some (with_state c st) /\
      (st = state c \/ st = MET \/ st = UNMET) /\
      ((key_of c = "" \/
        (exists j c', (i < j)%nat /\ rows !! j = Some c' /\ key_of c' = key_of c) \/
        verdicts (key_of c) (results_of decision) = []) ->
       st = state c).
Proof.
  split.
  - rewrite update_unfold. generalize (omap (update_of rows (index_by_name 0 rows ∅))
                                         (results_of decision)).
    intros updates. revert rows. induction updates as [|u updates IH]; intros rows; [done|].
    cbn [fold_left]. rewrite IH. unfold save. by rewrite length_alter.
  - intros i c Hrow. rewrite update_unfold, (fold_save_lookup _ _ _ _ Hrow).
    eexists. split; [reflexivity|].
    destruct (decide (last_row (key_of c) rows = Some i)) as [Hlast|Hlast].
    + rewrite (states_for_updates _ _ _ _ Hrow Hlast).
      pose proof (verdicts_processed (key_of c) (results_of decision)) as Hall.
      split.
      * destruct (last _) as [st|] eqn:Hst; cbn; [|by left]. right.
        apply last_Some in Hst as [l Hl].
        assert (Hin : st ∈ filter (fun st => st <> state c)
                             (verdicts (key_of c) (results_of decision)))
          by (rewrite Hl; set_solver).
        apply list_elem_of_filter in Hin as [_ Hin]. rewrite Forall_forall in Hall.
        specialize (Hall _ Hin). by destruct st; [|left|right].
      * apply last_row_Some in Hlast as (Hkey & _ & Hlater).
        intros [Hblank|[(j & c' & Hlt & Hrow' & Hsame)|Hnone]].
        -- done.
        -- by destruct (Hlater j c' Hlt Hrow').
        -- by rewrite Hnone.
    + rewrite (states_for_other _ _ _ _ Hrow Hlast). cbn. split; [by left|done].
Qed.

Lemma unprocessed_criterion_takes_the_last_verdict_witness :
  _update_acceptance_states_from_decision criteria decision !! 1%nat
  = Some (mk "AC-2" "The form saves" MET).
Proof.
  rewrite (unprocessed_criterion_takes_the_last_verdict criteria decision 1
             (mk "AC-2" "The form saves" UNPROCESSED)); try done.
  intros [|[|[|j]]] c' Hlt Hrow; try lia; discriminate.
Defined.

Lemma contradicted_criterion_changes_state_witness :
  _update_acceptance_states_from_decision criteria decision !! 0%nat
  = Some (mk "AC-1" "The form opens" UNMET).
Proof.
  rewrite (contradicted_criterion_changes_state criteria decision 0
             (mk "AC-1" "The form opens" MET) UNMET); try done.
  - intros [|[|[|j]]] c' Hlt Hrow; try lia; try discriminate.
    injection Hrow as <-. discriminate.
  - vm_compute. apply list_elem_of_here.
Defined.

End TasksProperties.

(** * The criteria of an extracted requirement *)

Module RequirementsProcessorProperties.
Import RequirementsProcessor.

Lemma elem_of_coerce_from index items c :
  c ∈ coerce_from index items <->
  exists k it,
    items !! k = Some it /\ strip (str it) <> "" /\
    c = AcceptanceCriterion.mk ("AC-" +:+ str_int (index + Z.of_nat k))
          (strip (str it)) AC_UNPROCESSED.
Proof.
  revert index. induction items as [|it rest IH]; intros index; cbn [coerce_from].
  - split; [by intros ?%elem_of_nil|]. by intros (k & it & ? & _).
  - assert (Hrest : c ∈ coerce_from (index + 1) rest <->
                    exists k it', (it :: rest) !! S k = Some it' /\ strip (str it') <> "" /\
                      c = AcceptanceCriterion.mk ("AC-" +:+ str_int (index + Z.of_nat (S k)))
                            (strip (str it')) AC_UNPROCESSED).
    { rewrite IH. apply exist_proper; intros k. apply exist_proper; intros it'.
      by replace (index + 1 + Z.of_nat k) with (index + Z.of_nat (S k)) by lia. }
    destruct (String.eqb_spec (strip (str it)) "") as [Hblank|Htext].
    + rewrite Hrest. split; [intros (k & it' & ? & ? & ->); by exists (S k), it'|].
      intros ([|k] & it' & Hit & Hne & ->); [|by exists k, it'].
      injection Hit as <-. done.
    + rewrite elem_of_cons, Hrest. split.
      * intros [->|(k & it' & ? & ? & ->)]; [|by exists (S k), it'].
        exists 0%nat, it. by rewrite Z.add_0_r.
      * intros ([|k] & it' & Hit & Hne & ->); [|right; by exists k, it'].
        injection Hit as <-. left. by rewrite Z.add_0_r.
Qed.

Lemma coerce_from_texts index items :
  map AcceptanceCriterion.text (coerce_from index items)
  = filter (fun text => text <> "") (map (fun it => strip (str it)) items).
Proof.
  revert index. induction items as [|it rest IH]; intros index; [done|].
  cbn [coerce_from map]. destruct (String.eqb_spec (strip (str it)) "") as [Hblank|Htext].
  - by rewrite filter_cons_False, IH by (by intros ?).
  - rewrite filter_cons_True by done. cbn [map]. by rewrite (IH (index + 1)).
Qed.

Lemma coerce_from_names index items :
  NoDup (map AcceptanceCriterion.name (coerce_from index items)).
Proof.
  revert index. induction items as [|it rest IH]; intros index; cbn [coerce_from];
    [constructor|].
  destruct (String.eqb (strip (str it)) ""); [apply IH|].
  cbn [map]. constructor; [|apply IH].
  change (map AcceptanceCriterion.name ?l) with (AcceptanceCriterion.name <$> l).
  intros (c & Hname & Hc)%list_elem_of_fmap.
  apply elem_of_coerce_from in Hc as (k & it' & _ & _ & ->). cbn in Hname. apply (inj (String.app "AC-")), (inj pretty) in Hname. lia.
Qed.

(** Given a list, [_coerce_criteria_list] keeps the entries that are not
    blank, stripped and in their order, and names each one AC-k by its place
    k (from 1) in the list as given: blank entries are counted, and leave
    gaps in the numbering.  So the names are pairwise distinct. *)
Theorem criteria_are_named_by_position items :
  exists criteria,
    _coerce_criteria_list (JArr items) = Ok criteria /\
    map AcceptanceCriterion.text criteria
      = filter (fun text => text <> "") (map (fun it => strip (str it)) items) /\
    NoDup (map AcceptanceCriterion.name criteria) /\
    (forall c, c ∈ criteria <->
       exists k it,
         items !! k = Some it /\ strip (str it) <> "" /\
         c = AcceptanceCriterion.mk ("AC-" +:+ str_int (Z.of_nat k + 1))
               (strip (str it)) AC_UNPROCESSED).
Proof.
  exists (coerce_from 1 items). split; [by destruct items|].
  split; [apply coerce_from_texts|]. split; [apply coerce_from_names|].
  intros c. rewrite elem_of_coerce_from. apply exist_proper; intros k.
  apply exist_proper; intros it. by rewrite (Z.add_comm 1).
Qed.

End RequirementsProcessorProperties.

(** * The optional sections of the prompt *)

Module PromptProperties.
Import Prompt PromptExamples.

Lemma starts_with_prefix sub s :
  starts_with sub s = true <-> exists rest, s = sub ++ rest.
Proof.
  revert s. induction sub as [|a sub IH]; intros s; cbn [starts_with].
  - split; [by exists s|done].
  - destruct s as [|b s]; [split; [done|by intros [? ?]]|].
    rewrite andb_true_iff, IH. split.
    + intros [->%Ascii.eqb_eq [rest ->]]. by exists rest.
    + intros [rest [= -> ->]]. split; [apply Ascii.eqb_refl|by exists rest].
Qed.

Lemma starts_with_lookup sub s :
  starts_with sub s = true <-> forall i c, sub !! i = Some c -> s !! i = Some c.
Proof.
  revert s. induction sub as [|a sub IH]; intros s; cbn [starts_with].
  - split; [by intros _ i c ?|done].
  - destruct s as [|b s].
    + split; [done|]. intros Hall. by specialize (Hall 0%nat a eq_refl).
    + rewrite andb_true_iff, IH. split.
      * intros [->%Ascii.eqb_eq Hall] [|i] c; [done|]. apply Hall.
      * intros Hall. split.
        -- specialize (Hall 0%nat a eq_refl). injection Hall as ->. apply Ascii.eqb_refl.
        -- intros i c. apply (Hall (S i) c).
Qed.

Lemma find_drop sub s k :
  find sub s = Some k ->
  starts_with sub (drop k s) = true /\ (k <= length s)%nat /\
  forall j, (j < k)%nat -> starts_with sub (drop j s) = false.
Proof.
  revert k. induction s as [|b s IH]; intros k; cbn [find].
  - destruct (starts_with sub []) eqn:Hsw; [|done]. intros [= <-].
    split; [done|]. split; [done|]. intros j ?. lia.
  - destruct (starts_with sub (b :: s)) eqn:Hsw.
    + intros [= <-]. split; [done|]. split; [cbn; lia|]. intros j ?. lia.
    + destruct (find sub s) as [k'|]; [|done]. intros [= <-].
      destruct (IH k' eq_refl) as (Hk & Hlen & Hless). split; [done|].
      split; [cbn; lia|]. intros [|j] Hj; [done|]. apply Hless. lia.
Qed.

Lemma find_first sub s k :
  starts_with sub (drop k s) = true ->
  (k <= length s)%nat ->
  exists k', (k' <= k)%nat /\ find sub s = Some k'.
Proof.
  revert k. induction s as [|b s IH]; intros k Hsw Hlen; cbn [find].
  - rewrite drop_nil in Hsw. rewrite Hsw. exists 0%nat. split; [lia|done].
  - destruct (starts_with sub (b :: s)) eqn:Hhere; [exists 0%nat; split; [lia|done]|].
    destruct k as [|k]; cbn in Hsw, Hlen; [congruence|].
    destruct (IH k Hsw ltac:(lia)) as (k' & Hle & ->). exists (S k'). split; [lia|done].
Qed.

Lemma find_at sub s k :
  starts_with sub (drop k s) = true ->
  (k <= length s)%nat ->
  (forall j, (j < k)%nat -> starts_with sub (drop j s) = false) ->
  find sub s = Some k.
Proof.
  intros Hsw Hlen Hless. destruct (find_first sub s k Hsw Hlen) as (k' & Hle & Hfind).
  rewrite Hfind. f_equal. destruct (decide (k' = k)) as [|Hne]; [done|].
  apply find_drop in Hfind as (Hk' & _ & _). rewrite Hless in Hk' by lia. done.
Qed.

Lemma find_None sub s j :
  find sub s = None -> (j <= length s)%nat -> starts_with sub (drop j s) = false.
Proof.
  intros Hnone Hj. destruct (starts_with sub (drop j s)) eqn:Hsw; [|done].
  destruct (find_first sub s j Hsw Hj) as (k' & _ & Hfind). by rewrite Hfind in Hnone.
Qed.

(** Whether [sub] stands at [j] depends on the characters up to
    [j + length sub] only. *)
Lemma starts_with_agree sub s s' j :
  take (j + length sub) s = take (j + length sub) s' ->
  starts_with sub (drop j s) = starts_with sub (drop j s').
Proof.
  intros Htake.
  assert (Hone : forall x y, take (j + length sub) x = take (j + length sub) y ->
                   starts_with sub (drop j x) = true -> starts_with sub (drop j y) = true).
  { intros x y Hxy. rewrite !starts_with_lookup. intros Hall i c Hi.
    specialize (Hall i c Hi). rewrite lookup_drop in Hall |- *.
    apply lookup_lt_Some in Hi.
    rewrite <- (lookup_take_lt y (j + length sub)) by lia.
    rewrite <- Hxy. by rewrite lookup_take_lt by lia. }
  destruct (starts_with sub (drop j s)) eqn:Hs.
  - symmetry. by apply (Hone s s').
  - destruct (starts_with sub (drop j s')) eqn:Hs'; [|done].
    rewrite (Hone s' s) in Hs; done.
Qed.

Lemma chars_app a b :
  list_ascii_of_string (a +:+ b) = list_ascii_of_string a ++ list_ascii_of_string b.
Proof. induction a as [|c a IH]; [done|]. cbn. by rewrite <- IH. Qed.

(** The first character of a tag is its only [[], the last its only []]. *)
Lemma start_tag_first block_name :
  plain block_name ->
  exists rest, start_tag block_name = "["%char :: rest /\ "["%char ∉ rest.
Proof.
  intros [Hopen _].
  exists (list_ascii_of_string "SECTION_" ++ list_ascii_of_string block_name
            ++ list_ascii_of_string "]").
  split; [unfold start_tag; by rewrite !chars_app|].
  rewrite !elem_of_app. intros [Hin|[Hin|Hin]]; [|done|].
  - cbn in Hin. repeat (apply elem_of_cons in Hin as [Hin|Hin]; [discriminate|]).
    by apply elem_of_nil in Hin.
  - cbn in Hin. apply elem_of_cons in Hin as [Hin|Hin]; [discriminate|].
    by apply elem_of_nil in Hin.
Qed.

Lemma end_tag_first block_name :
  plain block_name ->
  exists rest, end_tag block_name = "["%char :: rest /\ "["%char ∉ rest.
Proof.
  intros [Hopen _].
  exists (list_ascii_of_string "/SECTION_" ++ list_ascii_of_string block_name
            ++ list_ascii_of_string "]").
  split; [unfold end_tag; by rewrite !chars_app|].
  rewrite !elem_of_app. intros [Hin|[Hin|Hin]]; [|done|].
  - cbn in Hin. repeat (apply elem_of_cons in Hin as [Hin|Hin]; [discriminate|]).
    by apply elem_of_nil in Hin.
  - cbn in Hin. apply elem_of_cons in Hin as [Hin|Hin]; [discriminate|].
    by apply elem_of_nil in Hin.
Qed.

Lemma start_tag_last block_name :
  plain block_name ->
  exists front, start_tag block_name = front ++ ["]"%char] /\ "]"%char ∉ front.
Proof.
  intros [_ Hclose]. exists (list_ascii_of_string "[SECTION_" ++ list_ascii_of_string block_name).
  split; [unfold start_tag; by rewrite !chars_app, (assoc_L (++))|].
  rewrite elem_of_app. intros [Hin|Hin]; [|done].
  cbn in Hin. repeat (apply elem_of_cons in Hin as [Hin|Hin]; [discriminate|]).
  by apply elem_of_nil in Hin.
Qed.

Lemma end_tag_last block_name :
  exists front, end_tag block_name = front ++ ["]"%char].
Proof.
  exists (list_ascii_of_string "[/SECTION_" ++ list_ascii_of_string block_name).
  unfold end_tag. by rewrite !chars_app, (assoc_L (++)).
Qed.

(** A tag whose first character occurs in it once cannot stand astride the
    beginning of another copy of itself. *)
Lemma find_after c0 rest x y :
  c0 ∉ rest ->
  find (c0 :: rest) x = None ->
  find (c0 :: rest) (x ++ (c0 :: rest) ++ y) = Some (length x).
Proof.
  intros Hc0 Hnone. set (t := c0 :: rest) in *. apply find_at.
  - rewrite drop_app_length. apply starts_with_prefix. by exists y.
  - rewrite length_app. lia.
  - intros j Hj. destruct (starts_with t (drop j (x ++ t ++ y))) eqn:Hsw; [|done].
    destruct (decide (j + length t <= length x)%nat) as [Hin|Hout].
    + rewrite (starts_with_agree t _ x) in Hsw by (by rewrite take_app_le).
      rewrite (find_None t x j) in Hsw by (done || lia). done.
    + rewrite starts_with_lookup in Hsw.
      assert (Hi : exists c, t !! (length x - j)%nat = Some c).
      { apply lookup_lt_is_Some. lia. }
      destruct Hi as [c Hc]. pose proof (Hsw _ _ Hc) as Hat.
      rewrite lookup_drop in Hat.
      replace (j + (length x - j))%nat with (length x + 0)%nat in Hat by lia.
      rewrite lookup_app_r, Nat.add_comm, Nat.add_sub in Hat by lia.
      cbn in Hat. injection Hat as <-.
      destruct (length x - j)%nat as [|i] eqn:Hi; [lia|]. cbn in Hc.
      by apply list_elem_of_lookup_2 in Hc.
Qed.

(** One turn of the loop when the first end tag ends before the first start
    tag begins: the text does not get shorter, and the tags stand as
    before. *)
Lemma irregular_step block_name rendered start_idx idx :
  plain block_name ->
  find (start_tag block_name) rendered = Some start_idx ->
  find (end_tag block_name) rendered = Some idx ->
  (idx + length (end_tag block_name) <= start_idx)%nat ->
  exists start_idx',
    find (start_tag block_name)
      (take start_idx rendered ++ drop (idx + length (end_tag block_name)) rendered)
    = Some start_idx' /\
    find (end_tag block_name)
      (take start_idx rendered ++ drop (idx + length (end_tag block_name)) rendered)
    = Some idx /\
    (idx + length (end_tag block_name) <= start_idx')%nat.
Proof.
  intros Hplain Hstart Hend Hle.
  set (r := rendered) in *. set (s := start_idx) in *.
  set (endt := end_tag block_name) in *. set (startt := start_tag block_name) in *.
  set (e' := (idx + length endt)%nat) in *.
  set (r' := take s r ++ drop e' r).
  apply find_drop in Hstart as (Hs & Hslen & Hsless).
  apply find_drop in Hend as (He & Helen & Heless).
  assert (Hprefix : forall n, (n <= s)%nat -> take n r' = take n r).
  { intros n Hn. unfold r'. rewrite take_app_le by (rewrite length_take; lia).
    rewrite take_take. f_equal. lia. }
  assert (Hlen' : length r' = (s + (length r - e'))%nat).
  { unfold r'. rewrite length_app, length_take, length_drop. lia. }
  assert (Hfind_end : find endt r' = Some idx).
  { apply find_at.
    - rewrite (starts_with_agree endt r' r); [done|]. apply Hprefix. lia.
    - lia.
    - intros j Hj. rewrite (starts_with_agree endt r' r); [by apply Heless|].
      apply Hprefix. lia. }
  assert (Hocc : starts_with startt (drop (s + (s - e')) r') = true).
  { unfold r'. rewrite drop_app_ge by (rewrite length_take; lia).
    rewrite length_take, drop_drop.
    replace (e' + (s + (s - e') - s `min` length r))%nat with s by lia. done. }
  destruct (find_first startt r' _ Hocc ltac:(lia)) as (s' & _ & Hfind_start).
  exists s'. split; [done|]. split; [done|].
  destruct (decide (e' <= s')%nat) as [|Hlt]; [done|]. exfalso.
  apply find_drop in Hfind_start as (Hs' & _ & _).
  destruct (decide (s' + length startt <= s)%nat) as [Hin|Hout].
  - rewrite (starts_with_agree startt r' r) in Hs' by (by apply Hprefix).
    rewrite Hsless in Hs' by lia. done.
  - destruct (end_tag_last block_name) as (front_e & Hfront_e).
    destruct (start_tag_last block_name Hplain) as (front_s & Hfront_s & Hclose).
    fold endt in Hfront_e. fold startt in Hfront_s.
    assert (HE : length endt = S (length front_e))
      by (rewrite Hfront_e, length_app; cbn; lia).
    assert (HL : length startt = S (length front_s))
      by (rewrite Hfront_s, length_app; cbn; lia).
    assert (Hq : r !! (e' - 1)%nat = Some "]"%char).
    { rewrite starts_with_lookup in He.
      specialize (He (length front_e) "]"%char).
      rewrite lookup_drop in He. replace (e' - 1)%nat with (idx + length front_e)%nat by lia.
      apply He. rewrite Hfront_e. by rewrite list_lookup_middle. }
    assert (Hq' : r' !! (e' - 1)%nat = Some "]"%char).
    { rewrite <- (lookup_take_lt r' s) by lia. rewrite Hprefix by lia.
      by rewrite lookup_take_lt by lia. }
    rewrite starts_with_lookup in Hs'.
    assert (Hi : exists c, startt !! (e' - 1 - s')%nat = Some c).
    { apply lookup_lt_is_Some. lia. }
    destruct Hi as [c Hc]. pose proof (Hs' _ _ Hc) as Hat. rewrite lookup_drop in Hat.
    replace (s' + (e' - 1 - s'))%nat with (e' - 1)%nat in Hat by lia.
    rewrite Hq' in Hat. injection Hat as <-.
    rewrite Hfront_s, lookup_app_l in Hc by lia.
    by apply list_elem_of_lookup_2 in Hc.
Qed.

(** The loop that drops a section never ends when the first end tag of the
    section ends before its first start tag begins: every turn leaves both
    tags in the text, so no bound on the turns is enough. *)
Theorem drop_section_never_ends block_name rendered start_idx idx :
  plain block_name ->
  find (start_tag block_name) rendered = Some start_idx ->
  find (end_tag block_name) rendered = Some idx ->
  (idx + length (end_tag block_name) <= start_idx)%nat ->
  forall fuel, drop_section fuel block_name rendered = OutOfFuel.
Proof.
  intros Hplain Hstart Hend Hle fuel. revert rendered start_idx Hstart Hend Hle.
  induction fuel as [|fuel IH]; intros rendered start_idx Hstart Hend Hle;
    cbn [drop_section]; rewrite Hstart, Hend; [done|].
  destruct (irregular_step _ _ _ _ Hplain Hstart Hend Hle) as (s' & Hs' & He' & Hle').
  by apply (IH _ s').
Qed.

(** A section that stands in the text once, start tag first, is cut out with
    its tags and the text around it is kept: the loop returns after one
    turn.  [pre] holds no start tag, no end tag stands before the one that
    closes the section, and what is left holds no further section. *)
Theorem drop_section_cuts_the_section_out block_name pre body post fuel :
  plain block_name ->
  find (start_tag block_name) pre = None ->
  find (end_tag block_name) (pre ++ start_tag block_name ++ body) = None ->
  find (start_tag block_name) (pre ++ post) = None \/
    find (end_tag block_name) (pre ++ post) = None ->
  drop_section (S fuel) block_name
    (pre ++ start_tag block_name ++ body ++ end_tag block_name ++ post)
  = Ok (pre ++ post).
Proof.
  intros Hplain Hpre Hbody Hrest.
  destruct (start_tag_first block_name Hplain) as (rest_s & Hs & Hopen_s).
  destruct (end_tag_first block_name Hplain) as (rest_e & He & Hopen_e).
  assert (Hstart : find (start_tag block_name)
                     (pre ++ start_tag block_name ++ body ++ end_tag block_name ++ post)
                   = Some (length pre)).
  { rewrite Hs in Hpre |- *. by apply find_after. }
  assert (Hend : find (end_tag block_name)
                   (pre ++ start_tag block_name ++ body ++ end_tag block_name ++ post)
                 = Some (length (pre ++ start_tag block_name ++ body))).
  { replace (pre ++ start_tag block_name ++ body ++ end_tag block_name ++ post)
      with ((pre ++ start_tag block_name ++ body) ++ end_tag block_name ++ post)
      by (by rewrite <- !(assoc_L (++))).
    rewrite He in Hbody |- *. by apply find_after. }
  cbn [drop_section]. rewrite Hstart, Hend. rewrite take_app_length.
  replace (pre ++ start_tag block_name ++ body ++ end_tag block_name ++ post)
    with (((pre ++ start_tag block_name ++ body) ++ end_tag block_name) ++ post)
    by (by rewrite <- !(assoc_L (++))).
  rewrite <- length_app, drop_app_length.
  assert (Hdone : forall fuel', drop_section fuel' block_name (pre ++ post) = Ok (pre ++ post)).
  { intros [|fuel']; cbn [drop_section]; destruct Hrest as [-> | ->]; try done;
      by destruct (find (start_tag block_name) (pre ++ post)). }
  apply Hdone.
Qed.

Lemma rstrip_blank line : rstrip line = "" -> strip line = "".
Proof.
  unfold strip. induction line as [|c line IH]; [done|]. cbn [rstrip lstrip].
  destruct (rstrip line) eqn:Hline; [|done].
  destruct (is_space c); [|done]. intros _. by apply IH.
Qed.

(** After the loop over the lines, no two blank lines follow each other; a
    line is blank or a line of the text that was not blank, without the
    white space at its end; and the lines that are not blank are all there,
    in their order. *)
Theorem blank_lines_are_collapsed lines :
  let normalized_lines := normalize_lines false lines in
  (forall i, normalized_lines !! i = Some "" -> normalized_lines !! S i <> Some "") /\
  filter (fun line => line <> "") normalized_lines
    = map rstrip (filter (fun line => strip line <> "") lines).
Proof.
  cbn zeta. split.
  - assert (Hany : forall previous_blank i,
               (previous_blank = true -> normalize_lines previous_blank lines !! 0%nat <> Some "") /\
               (normalize_lines previous_blank lines !! i = Some "" ->
                normalize_lines previous_blank lines !! S i <> Some "")).
    { induction lines as [|line rest IH]; intros previous_blank i; [done|].
      cbn [normalize_lines].
      destruct (IH true 0%nat) as [Hfirst _]. specialize (Hfirst eq_refl).
      destruct (String.eqb_spec (strip line) "") as [Hblank|Htext].
      - destruct previous_blank; cbn [app].
        + split; [done|]. apply (IH true i).
        + split; [done|]. destruct i as [|i]; cbn; [done|]. apply (IH true i).
      - assert (Hline : rstrip line <> "") by (intros ?; by apply Htext, rstrip_blank).
        split; [intros _; cbn; congruence|].
        destruct i as [|i]; cbn; [congruence|]. apply (IH false i). }
    intros i. apply (Hany false i).
  - generalize false. induction lines as [|line rest IH]; intros previous_blank; [done|].
    cbn [normalize_lines]. destruct (String.eqb_spec (strip line) "") as [Hblank|Htext].
    + rewrite (filter_cons_False _ line) by (by intros ?). rewrite <- (IH true).
      destruct previous_blank; [done|]. cbn [app]. by rewrite filter_cons_False by (by intros ?).
    + rewrite (filter_cons_True _ line) by done. cbn [map]. rewrite <- (IH false).
      rewrite filter_cons_True; [done|]. intros Hline. by apply rstrip_blank in Hline.
Qed.

Lemma plain_TITLE : plain "TITLE".
Proof.
  split; intros Hin; cbn in Hin;
    repeat (apply elem_of_cons in Hin as [Hin|Hin]; [discriminate|]);
    by apply elem_of_nil in Hin.
Qed.

Lemma drop_section_never_ends_witness :
  drop_section 1000 "TITLE" closed_before_opened = OutOfFuel.
Proof.
  apply (drop_section_never_ends "TITLE" closed_before_opened 25 5).
  - exact plain_TITLE.
  - reflexivity.
  - reflexivity.
  - change (5 + 16 <= 25)%nat. lia.
Defined.

Lemma drop_section_cuts_the_section_out_witness :
  drop_section 1 "TITLE" with_title = Ok (list_ascii_of_string "Verify.  Done.").
Proof.
  apply (drop_section_cuts_the_section_out "TITLE"
           (list_ascii_of_string "Verify. ") (list_ascii_of_string "Title: {{TITLE}}")
           (list_ascii_of_string " Done.") 0).
  - exact plain_TITLE.
  - reflexivity.
  - reflexivity.
  - by left.
Defined.

End PromptProperties.

(** * The runner: the files of a turn *)

Section Files.
Context `{Externals}.
Local Open Scope runner_scope.

Lemma grows_ret {A} (a : A) : grows (ret a).
Proof. intros r. exists []. by rewrite app_nil_r. Qed.

Lemma grows_raise {A} e : grows (@raise A e).
Proof. intros r. exists []. by rewrite app_nil_r. Qed.

Lemma grows_lift {A} (x : result A) : grows (lift x).
Proof. intros r. exists []. by rewrite app_nil_r. Qed.

Lemma grows_gets {A} (f : Runner -> A) : grows (gets f).
Proof. intros r. exists []. by rewrite app_nil_r. Qed.

Lemma grows_modify g : (forall r, trace (g r) = trace r) -> grows (modify g).
Proof. intros Hg r. exists []. cbn. by rewrite Hg, app_nil_r. Qed.

Lemma grows_emit e : grows (emit e).
Proof. intros r. by exists [e]. Qed.

Lemma grows_clock : grows clock.
Proof. intros r. exists []. by rewrite app_nil_r. Qed.

Lemma grows_incr : grows incr_step_counter.
Proof. by apply grows_modify. Qed.

Lemma grows_bind {A B} (m : M A) (f : A -> M B) :
  grows m -> (forall a, grows (f a)) -> grows (bind m f).
Proof.
  intros Hm Hf r. unfold bind. destruct (Hm r) as [events Hevents].
  destruct (m r) as [[a| |] r1]; cbn [snd] in *; [|by exists events..].
  destruct (Hf a r1) as [events' Hevents']. exists (events ++ events').
  by rewrite Hevents', Hevents, (assoc_L (++)).
Qed.

Lemma grows_acknowledge_all checks : grows (acknowledge_all checks).
Proof.
  induction checks as [|check checks IH]; cbn [acknowledge_all]; [apply grows_ret|].
  apply grows_bind; [apply grows_lift|intros message].
  apply grows_bind; [apply grows_gets|intros cb].
  apply grows_bind; [apply grows_emit|intros _].
  destruct (cb message); [exact IH|apply grows_raise].
Qed.

(** A step of a proof that a computation only adds to the trace. *)
Ltac growing :=
  match goal with
  | |- grows (bind _ _) => apply grows_bind; [|intros ?; cbv beta zeta]
  | |- grows (ret _) => apply grows_ret
  | |- grows (raise _) => apply grows_raise
  | |- grows (lift _) => apply grows_lift
  | |- grows (gets _) => apply grows_gets
  | |- grows (emit _) => apply grows_emit
  | |- grows clock => apply grows_clock
  | |- grows incr_step_counter => apply grows_incr
  | |- grows (acknowledge_all _) => apply grows_acknowledge_all
  | |- grows (modify _) => apply grows_modify; intros; reflexivity
  | |- grows (if ?b then _ else _) => destruct b
  | |- grows (match ?x with _ => _ end) => destruct x
  end.

Lemma grows_handle_item item : grows (handle_item item).
Proof.
  unfold handle_item, handle_message, handle_function_call, handle_computer_call.
  repeat growing.
Qed.

Lemma grows_handle_items items : grows (handle_items items).
Proof.
  induction items as [|item items IH]; cbn [handle_items]; [apply grows_ret|].
  apply grows_bind; [apply grows_handle_item|intros out].
  apply grows_bind; [exact IH|intros outs]. apply grows_ret.
Qed.

Lemma one_turn_files input new_items cb r new_items' r' :
  one_turn input new_items cb r = (Ok new_items', r') ->
  exists events tail,
    trace r' = trace r
                 ++ [EvCreateResponse (input ++ new_items);
                     EvWriteFile (response_file (run_dir r) (step_counter r))]
                 ++ events
                 ++ [EvWriteFile (interaction_file (run_dir r) (step_counter r'))]
                 ++ tail /\
    run_dir r' = run_dir r.
Proof.
  unfold one_turn.
  unfold bind at 1. cbn [clock].
  unfold bind at 1. cbn [gets].
  unfold bind at 1. cbn [emit modify].
  unfold bind at 1. cbn [modify].
  unfold bind at 1. cbn [modify].
  unfold bind at 1. cbn [modify].
  unfold bind at 1. cbn [modify].
  unfold bind at 1. cbn [gets].
  match goal with |- context [if ?c then raise _ else _] => destruct c end;
    [discriminate|].
  unfold bind at 1. cbn [gets].
  unfold bind at 1. cbn [gets].
  unfold bind at 1. cbn [emit modify].
  unfold bind at 1. cbn [lift].
  match goal with |- context [getitem ?a ?b] => destruct (getitem a b) as [output| |] end;
    try discriminate.
  unfold bind at 1. cbn [lift].
  destruct (iter output) as [outs| |]; try discriminate.
  unfold bind at 1.
  match goal with |- context [handle_items outs ?ra] =>
    pose proof (keeps_handle_items run_dir
                  ltac:(done) ltac:(done) ltac:(done) ltac:(done) outs ra) as Hdir;
    destruct (grows_handle_items outs ra) as [events Hevents];
    destruct (handle_items outs ra) as [[handled| |] rb]; try discriminate
  end.
  cbn [snd run_dir trace step_counter set_trace set_responses set_last_action
       set_last_screenshot_path set_clock_reads] in Hdir, Hevents |- *.
  rewrite ?(record_usage_and_id_keeps run_dir) in Hdir, Hevents |- * by done.
  rewrite ?(record_usage_and_id_keeps trace) in Hevents by done.
  rewrite ?(record_usage_and_id_keeps step_counter) in Hevents by done.
  cbn [run_dir trace step_counter set_trace set_clock_reads] in Hdir, Hevents |- *.
  destruct (scan_outputs outs JNull JNull) as [reasoning_summary message_text].
  unfold bind at 1. cbn [clock].
  unfold bind at 1. cbn [gets].
  unfold bind at 1. cbn [emit modify].
  unfold bind at 1. cbn [modify].
  unfold bind at 1.
  destruct cb; cbn [emit modify ret]; intros [= <- <-];
    cbn [trace run_dir step_counter set_trace set_response_extras set_clock_reads];
    rewrite Hevents, Hdir; unfold response_file, interaction_file.
  - exists events, [EvProgress (step_counter rb)]. split; [|done].
    by rewrite <- !(assoc_L (++)).
  - exists events, []. split; [|done]. by rewrite <- !(assoc_L (++)).
Qed.

(** A turn saves the response under the number the step counter has when
    the response arrives, and its interaction record under the number the
    counter has once the items of the response are handled: the number of
    the response plus the number of its message, function_call and
    computer_call items. *)
Theorem turn_files_are_numbered_by_the_step_counter input new_items cb r new_items' r' :
  one_turn input new_items cb r = (Ok new_items', r') ->
  let response := create_response (trace r) (input ++ new_items) in
  exists events tail,
    trace r' = trace r
                 ++ [EvCreateResponse (input ++ new_items);
                     EvWriteFile (response_file (run_dir r) (step_counter r))]
                 ++ events
                 ++ [EvWriteFile (interaction_file (run_dir r)
                                    (step_counter r + steps_of [response]))]
                 ++ tail.
Proof.
  intros Hturn. cbn zeta.
  destruct (one_turn_files _ _ _ _ _ _ Hturn) as (events & tail & Htrace & _).
  destruct (one_turn_accounts _ _ _ _ _ _ Hturn) as (_ & Hsteps & _).
  cbn zeta in Hsteps. rewrite Hsteps in Htrace. by exists events, tail.
Qed.

(** When a response holds no message, function_call or computer_call item
    (only reasoning, say), the step counter stays, and the next turn saves
    its response under the same file name: the file of the first response
    is written over. *)
Theorem response_without_steps_is_written_over input items cb r items1 r1 items2 r2 :
  one_turn input items cb r = (Ok items1, r1) ->
  steps_of [create_response (trace r) (input ++ items)] = 0 ->
  one_turn input items1 cb r1 = (Ok items2, r2) ->
  exists before between tail,
    trace r2 = trace r
                 ++ before
                 ++ [EvWriteFile (response_file (run_dir r) (step_counter r))]
                 ++ between
                 ++ [EvWriteFile (response_file (run_dir r) (step_counter r))]
                 ++ tail.
Proof.
  intros Hturn1 Hnone Hturn2.
  destruct (one_turn_files _ _ _ _ _ _ Hturn1) as (events1 & tail1 & Htrace1 & Hdir1).
  destruct (one_turn_files _ _ _ _ _ _ Hturn2) as (events2 & tail2 & Htrace2 & _).
  destruct (one_turn_accounts _ _ _ _ _ _ Hturn1) as (_ & Hsteps & _).
  cbn zeta in Hsteps. rewrite Hnone, Z.add_0_r in Hsteps.
  rewrite Hdir1, Hsteps in Htrace2. rewrite Htrace2, Htrace1.
  exists [EvCreateResponse (input ++ items)],
    (events1 ++ [EvWriteFile (interaction_file (run_dir r) (step_counter r1))] ++ tail1
       ++ [EvCreateResponse (input ++ items1)]),
    (events2 ++ [EvWriteFile (interaction_file (run_dir r) (step_counter r2))] ++ tail2).
  rewrite Hsteps. by rewrite <- !(assoc_L (++)).
Qed.

End Files.

(** * The totals of token usage *)

Module UsageProperties.

Lemma fold_add usages total :
  fold_left Usage.add usages total
  = Usage.mk (Usage.tokens_in total + total_of Usage.tokens_in usages)
             (Usage.tokens_out total + total_of Usage.tokens_out usages)
             (Usage.tokens_reasoning total + total_of Usage.tokens_reasoning usages)
             (Usage.tokens_total total + total_of Usage.tokens_total usages).
Proof.
  revert total. induction usages as [|u usages IH]; intros total.
  - destruct total. unfold total_of. cbn. by rewrite !Z.add_0_r.
  - cbn [fold_left]. rewrite IH. unfold total_of, Usage.add. cbn. f_equal; lia.
Qed.

(** [Usage.sum] adds field by field: each field of the total is the sum of
    that field over the usages (the total of [tokens_total] is the sum of
    the totals reported, not the sum of the other fields), the empty list
    gives the zero usage, and the total of two lists put together is the
    [add] of their totals. *)
Theorem usage_sum_adds_field_by_field usages more :
  Usage.sum usages
  = Usage.mk (total_of Usage.tokens_in usages) (total_of Usage.tokens_out usages)
             (total_of Usage.tokens_reasoning usages)
             (total_of Usage.tokens_total usages) /\
  Usage.sum (usages ++ more) = Usage.add (Usage.sum usages) (Usage.sum more).
Proof.
  unfold Usage.sum. split; [by rewrite fold_add|].
  rewrite fold_left_app, !fold_add.
  unfold Usage.add. cbn. f_equal; lia.
Qed.

End UsageProperties.

(** * The theorems on the runner at work on the example runs *)

Module RunnerExamples.
Import Script Examples FileExamples.

Lemma steps_taken_counts_the_items_handled_witness :
  exists res r' responses,
    @run ac1_world 10 (requirement ["AC-1"]) "http://shop"
      true false false false None (runner accept_all) = (Ok res, r') /\
    _responses r' = _responses (runner accept_all) ++ responses /\
    VerficationRunResult.steps_taken res
      = step_counter (runner accept_all) + steps_of responses - 2.
Proof.
  destruct (@run ac1_world 10 (requirement ["AC-1"]) "http://shop"
              true false false false None (runner accept_all))
    as [[res|e|] r'] eqn:Hrun;
    [|vm_compute in Hrun; discriminate..].
  destruct (@steps_taken_counts_the_items_handled ac1_world _ _ _ _ _ _ _ _ _ _ _ Hrun)
    as (responses & Hresponses & Hsteps).
  exists res, r', responses.
  split; [reflexivity|]. split; [exact Hresponses|exact Hsteps].
Defined.

Lemma usage_total_sums_the_responses_witness :
  exists res r' responses,
    @run ac1_world 10 (requirement ["AC-1"]) "http://shop"
      true false false false None (runner accept_all) = (Ok res, r') /\
    _responses r' = _responses (runner accept_all) ++ responses /\
    VerficationRunResult.usage_total res =
      match omap usage_obj_of responses with
      | [] => None
      | usages => Some (Usage.sum usages)
      end.
Proof.
  destruct (@run ac1_world 10 (requirement ["AC-1"]) "http://shop"
              true false false false None (runner accept_all))
    as [[res|e|] r'] eqn:Hrun;
    [|vm_compute in Hrun; discriminate..].
  destruct (@usage_total_sums_the_responses ac1_world _ _ _ _ _ _ _ _ _ _ _ Hrun)
    as (responses & Hresponses & Husage).
  exists res, r', responses.
  split; [reflexivity|]. split; [exact Hresponses|exact Husage].
Defined.

Lemma run_all_steps_accumulate_witness :
  exists res1 res2 r',
    @run_all two_runs_world 10 [requirement ["AC-1"]; requirement ["AC-1"]]
      "http://shop" true false false false (runner accept_all)
    = (Ok [res1; res2], r') /\
    VerficationRunResult.steps_taken res1 < VerficationRunResult.steps_taken res2.
Proof.
  destruct (@run_all two_runs_world 10 [requirement ["AC-1"]; requirement ["AC-1"]]
              "http://shop" true false false false (runner accept_all))
    as [[results|e|] r'] eqn:Hrun;
    [|vm_compute in Hrun; discriminate..].
  destruct results as [|res1 [|res2 [|res3 results]]];
    try (vm_compute in Hrun; discriminate).
  destruct (@run_all_steps_accumulate two_runs_world _ _ _ _ _ _ _ _ _ _ _ _ Hrun)
    as (responses1 & responses2 & Hresponses & Hsteps1 & Hsteps2).
  exists res1, res2, r'. split; [reflexivity|]. rewrite Hsteps2.
  assert (_responses r' =
            [response "resp_1" [click "call_1" []];
             response "resp_2" [message (dumps (JObj ac1_decision))];
             response "resp_3" [message (dumps (JObj ac1_decision))]]) as Hall.
  { vm_compute in Hrun. injection Hrun as _ _ <-. reflexivity. }
  rewrite Hall in Hresponses. cbn [_responses runner new_runner app] in Hresponses.
  assert (0 < steps_of responses2); [|lia].
  destruct responses2 as [|last2 responses2 _] using rev_ind.
  { exfalso. rewrite app_nil_r in Hresponses. subst responses1.
    vm_compute in Hrun. injection Hrun as Hres1 Hres2 _.
    rewrite <- Hres1, <- Hres2 in Hsteps2. vm_compute in Hsteps2. discriminate. }
  rewrite app_assoc in Hresponses.
  change [?a; ?b; ?c] with ([a; b] ++ [c]) in Hresponses.
  apply app_inj_tail in Hresponses as [_ <-].
  rewrite steps_of_app.
  assert (0 <= steps_of responses2) by (unfold steps_of; lia).
  assert (steps_of [response "resp_3" [message (dumps (JObj ac1_decision))]] = 1)
    as -> by (vm_compute; reflexivity).
  lia.
Defined.

Lemma extract_json_spans_first_open_to_last_close_witness :
  @_extract_json (world []) [message "first {} then {} end"] =
    Ok (match JsonText.loads "{} then {}" with
        | inl parsed => Ret3 parsed None "{} then {}"
        | inr e =>
            Ret3 JNull
              (Some ("json_parse_error: " +:+ e +:+ "; json_like="
                     +:+ repr_strs ["{} then {}"]))
              "{} then {}"
        end).
Proof.
  apply (@extract_json_spans_first_open_to_last_close (world [])
           [message "first {} then {} end"] "first " "} then {" " end");
    vm_compute; reflexivity.
Defined.

Lemma extract_json_reads_the_first_fenced_block_witness :
  @_extract_json (world [])
    [message "Format: ```json {} ``` Decision: ```json {status: met} ```"]
  = Ok (Ret3 (JObj []) None "{}").
Proof.
  rewrite (@extract_json_reads_the_first_fenced_block (world [])
             [message "Format: ```json {} ``` Decision: ```json {status: met} ```"]
             "Format: " "json {} " " Decision: ```json {status: met} ```");
    vm_compute; reflexivity.
Defined.

Lemma turn_files_are_numbered_by_the_step_counter_witness :
  exists items r' events tail,
    @one_turn ac1_world [] [] false (runner accept_all) = (Ok items, r') /\
    trace r' = trace (runner accept_all)
                 ++ [EvCreateResponse [];
                     EvWriteFile "runs/001/responses/001_response.json"]
                 ++ events
                 ++ [EvWriteFile "runs/001/interactions/002_interaction.json"]
                 ++ tail.
Proof.
  destruct (@one_turn ac1_world [] [] false (runner accept_all))
    as [[items|e|] r'] eqn:Hturn;
    [|vm_compute in Hturn; discriminate..].
  destruct (@turn_files_are_numbered_by_the_step_counter ac1_world _ _ _ _ _ _ Hturn)
    as (events & tail & Htrace).
  exists items, r', events, tail. split; [reflexivity|exact Htrace].
Defined.

Lemma response_without_steps_is_written_over_witness :
  exists items1 r1 items2 r2 before between tail,
    @one_turn thinking_world [] [] false (runner accept_all) = (Ok items1, r1) /\
    @one_turn thinking_world [] items1 false r1 = (Ok items2, r2) /\
    trace r2 = trace (runner accept_all)
                 ++ before
                 ++ [EvWriteFile "runs/001/responses/001_response.json"]
                 ++ between
                 ++ [EvWriteFile "runs/001/responses/001_response.json"]
                 ++ tail.
Proof.
  destruct (@one_turn thinking_world [] [] false (runner accept_all))
    as [[items1|e|] r1] eqn:Hturn1;
    [|vm_compute in Hturn1; discriminate..].
  destruct (@one_turn thinking_world [] items1 false r1)
    as [[items2|e|] r2] eqn:Hturn2;
    [|vm_compute in Hturn1; injection Hturn1 as <- <-;
      vm_compute in Hturn2; discriminate..].
  destruct (@response_without_steps_is_written_over thinking_world
              _ _ _ _ _ _ _ _ Hturn1 eq_refl Hturn2)
    as (before & between & tail & Htrace).
  exists items1, r1, items2, r2, before, between, tail.
  split; [reflexivity|]. split; [exact Hturn2|exact Htrace].
Defined.

End RunnerExamples.

